(** * pomo: the pomodoro engine (package [engine]) and its display

    A shallow embedding of [engine/session.go], [engine/timer.go] and
    [engine/clock.go], of the pure parts of [ui/progress.go] and of the
    configuration [cmd/start.go] builds, and the properties of the phase
    state machine, of the timer loop, of the mock clock and of the display.

    Conventions.
    - Go's [int], [time.Duration] and the nanosecond counts behind them are
      64-bit signed integers: they are modelled as [Z] and every arithmetic
      operation of the source goes through [GoInt.wrap].
    - An instant ([time.Time]) is a [Z], a number of nanoseconds on an
      unbounded time line.
    - A method with a pointer receiver is a function from the receiver's state
      to a result and the state after the call. *)

From Stdlib Require Import ZArith Bool Lia Sorting.Sorted.
From Stdlib Require Import Floats.SpecFloat.
From Stdlib Require String Ascii DecimalString.
From stdpp Require Import base list.

Local Open Scope Z_scope.

(* ===================================================================== *)
(** * Part I: definitions                                                 *)
(* ===================================================================== *)

(** ** Machine integers *)

Module GoInt.

Definition min_int : Z := -9223372036854775808.
Definition max_int : Z := 9223372036854775807.
Definition modulus : Z := 18446744073709551616.

Definition in_range (z : Z) : Prop := min_int <= z <= max_int.

(** Two's complement reduction into [min_int .. max_int]. *)
Definition wrap (z : Z) : Z := (z - min_int) mod modulus + min_int.

Definition add (a b : Z) : Z := wrap (a + b).
Definition sub (a b : Z) : Z := wrap (a - b).

(** Go's [/] truncates toward zero and [%] takes the sign of the dividend.
    Both panic on a zero divisor; every use in the engine is guarded by
    [LongBreakEvery > 0]. *)
Definition div (a b : Z) : Z := wrap (Z.quot a b).
Definition rem (a b : Z) : Z := Z.rem a b.

End GoInt.

(** ** session.go *)

Inductive Phase : Set :=
| PhaseWork
| PhaseShortBreak
| PhaseLongBreak
| PhaseDone.

Definition Phase_eqb (p q : Phase) : bool :=
  match p, q with
  | PhaseWork, PhaseWork
  | PhaseShortBreak, PhaseShortBreak
  | PhaseLongBreak, PhaseLongBreak
  | PhaseDone, PhaseDone => true
  | _, _ => false
  end.

Record Config : Set := mkConfig {
  WorkDuration : Z;
  ShortBreakDuration : Z;
  LongBreakDuration : Z;
  LongBreakEvery : Z;
  TotalCycles : Z
}.

Record Session : Set := mkSession {
  config : Config;
  currentPhase : Phase;
  cyclesComplete : Z;
  totalPhases : Z;
  phasesComplete : Z
}.

Module Session.

(** A method of [*Session]: the value it returns and the session after. *)
Definition method (A : Type) : Type := Session -> A * Session.

Definition ret {A} (a : A) : method A := fun s => (a, s).
Definition bind {A B} (m : method A) (k : A -> method B) : method B :=
  fun s => let (a, s') := m s in k a s'.
Definition gets {A} (f : Session -> A) : method A := fun s => (f s, s).
Definition modify (f : Session -> Session) : method unit := fun s => (tt, f s).

Declare Scope session_scope.
Delimit Scope session_scope with session.
Notation "'let*' x ':=' m 'in' k" := (bind m (fun x => k))
  (at level 10, x name, m at level 100, k at level 200) : session_scope.
Notation "'do' m 'then' k" := (bind m (fun _ => k))
  (at level 10, m at level 100, k at level 200) : session_scope.
Local Open Scope session_scope.

Definition set_currentPhase (p : Phase) (s : Session) : Session :=
  mkSession (config s) p (cyclesComplete s) (totalPhases s) (phasesComplete s).
Definition set_cyclesComplete (n : Z) (s : Session) : Session :=
  mkSession (config s) (currentPhase s) n (totalPhases s) (phasesComplete s).
Definition set_totalPhases (n : Z) (s : Session) : Session :=
  mkSession (config s) (currentPhase s) (cyclesComplete s) n (phasesComplete s).
Definition set_phasesComplete (n : Z) (s : Session) : Session :=
  mkSession (config s) (currentPhase s) (cyclesComplete s) (totalPhases s) n.

Definition calculateTotalPhases : method Z :=
  let* cfg := gets config in
  if TotalCycles cfg =? 0 then ret 0
  else
    let cycles := TotalCycles cfg in
    let phases := cycles in
    if 0 <? LongBreakEvery cfg then
      let longBreaks := GoInt.div (GoInt.sub cycles 1) (LongBreakEvery cfg) in
      let shortBreaks := GoInt.sub (GoInt.sub cycles 1) longBreaks in
      ret (GoInt.add phases (GoInt.add longBreaks shortBreaks))
    else
      ret (GoInt.add phases (GoInt.sub cycles 1)).

(** The zero values of the fields [NewSession] leaves out are Go's. *)
Definition NewSession (cfg : Config) : Session :=
  let s := mkSession cfg PhaseWork 0 0 0 in
  let (n, s) := calculateTotalPhases s in
  set_totalPhases n s.

Definition CurrentPhase : method Phase := gets currentPhase.
Definition CyclesComplete : method Z := gets cyclesComplete.
Definition TotalPhases : method Z := gets totalPhases.
Definition PhasesComplete : method Z := gets phasesComplete.

Definition PhaseDuration : method Z :=
  let* p := gets currentPhase in
  match p with
  | PhaseWork => gets (fun s => WorkDuration (config s))
  | PhaseShortBreak => gets (fun s => ShortBreakDuration (config s))
  | PhaseLongBreak => gets (fun s => LongBreakDuration (config s))
  | PhaseDone => ret 0
  end.

Definition NextPhase : method Phase :=
  let* p := gets currentPhase in
  if Phase_eqb p PhaseDone then ret PhaseDone
  else
    let* n := gets phasesComplete in
    do modify (set_phasesComplete (GoInt.add n 1)) then
    match p with
    | PhaseWork =>
        let* c := gets cyclesComplete in
        do modify (set_cyclesComplete (GoInt.add c 1)) then
        let* cfg := gets config in
        let* c := gets cyclesComplete in
        if (0 <? TotalCycles cfg) && (TotalCycles cfg <=? c) then
          do modify (set_currentPhase PhaseDone) then
          gets currentPhase
        else
          do (if (0 <? LongBreakEvery cfg) && (GoInt.rem c (LongBreakEvery cfg) =? 0)
              then modify (set_currentPhase PhaseLongBreak)
              else modify (set_currentPhase PhaseShortBreak)) then
          gets currentPhase
    | PhaseShortBreak | PhaseLongBreak =>
        do modify (set_currentPhase PhaseWork) then
        gets currentPhase
    | PhaseDone => gets currentPhase
    end.

Definition TotalCycles : method Z := gets (fun s => TotalCycles (config s)).

(** A caller that invokes [NextPhase] [n] times in a row. *)
Fixpoint NextPhase_n (n : nat) (s : Session) : Session :=
  match n with
  | O => s
  | S k => NextPhase_n k (snd (NextPhase s))
  end.

(** The operations of a session, for sequences of calls. *)
Inductive Op : Set :=
| OpCurrentPhase | OpCyclesComplete | OpTotalCycles | OpTotalPhases
| OpPhasesComplete | OpPhaseDuration | OpNextPhase.

Definition exec (o : Op) (s : Session) : Session :=
  match o with
  | OpCurrentPhase => snd (CurrentPhase s)
  | OpCyclesComplete => snd (CyclesComplete s)
  | OpTotalCycles => snd (TotalCycles s)
  | OpTotalPhases => snd (TotalPhases s)
  | OpPhasesComplete => snd (PhasesComplete s)
  | OpPhaseDuration => snd (PhaseDuration s)
  | OpNextPhase => snd (NextPhase s)
  end.

Definition exec_all (ops : list Op) (s : Session) : Session :=
  fold_left (fun s o => exec o s) ops s.

End Session.

(** The total-phase count as the specification words it, over the integers:
    [C - 1] breaks between [C] cycles, of which [floor ((C - 1) / F)] are long
    when the frequency [F] is positive and none otherwise. *)
Definition spec_longBreaks (C F : Z) : Z := if 0 <? F then (C - 1) / F else 0.
Definition spec_shortBreaks (C F : Z) : Z := (C - 1) - spec_longBreaks C F.
Definition spec_totalPhases (C F : Z) : Z :=
  if C =? 0 then 0 else C + spec_longBreaks C F + spec_shortBreaks C F.

(** [NextPhase] in closed form: the phase it returns and the session it
    leaves, by the phase it starts from. *)
Definition NextPhase_spec (s : Session) : Phase * Session :=
  let cfg := config s in
  let n' := GoInt.add (phasesComplete s) 1 in
  match currentPhase s with
  | PhaseDone => (PhaseDone, s)
  | PhaseWork =>
      let c' := GoInt.add (cyclesComplete s) 1 in
      let p' :=
        if (0 <? TotalCycles cfg) && (TotalCycles cfg <=? c') then PhaseDone
        else if (0 <? LongBreakEvery cfg) && (GoInt.rem c' (LongBreakEvery cfg) =? 0)
             then PhaseLongBreak else PhaseShortBreak in
      (p', mkSession cfg p' c' (totalPhases s) n')
  | PhaseShortBreak | PhaseLongBreak =>
      (PhaseWork, mkSession cfg PhaseWork (cyclesComplete s) (totalPhases s) n')
  end.

(** Example configurations (durations in nanoseconds). *)
Definition minute : Z := 60000000000.
Definition cfg_4_2 : Config := mkConfig minute minute minute 2 4.
Definition cfg_2_0 : Config := mkConfig minute minute minute 0 2.

(** ** clock.go: the mock clock *)

(** A [*MockTicker].  Its channel [ch] is made with capacity one; the
    buffered values are listed oldest first. *)
Record MockTicker : Set := mkTicker {
  interval : Z;
  ch : list Z;
  nextTick : Z;
  stopped : bool
}.

(** A [*MockClock].  [tickers] is a slice of pointers: a ticker is known to
    its holders by its position in the slice, and an update through one
    holder is seen by all. *)
Record MockClock : Set := mkClock {
  current : Z;
  tickers : list MockTicker
}.

Module MockClock.

Definition chan_cap : nat := 1.

(** [select { case c <- v: default: }] on a buffered channel. *)
Definition try_send (v : Z) (c : list Z) : list Z :=
  if (length c <? chan_cap)%nat then c ++ [v] else c.

(** [<-c]: the oldest buffered value, or [None] where the receiver blocks. *)
Definition recv (c : list Z) : option (Z * list Z) :=
  match c with
  | [] => None
  | v :: c' => Some (v, c')
  end.

Definition set_current (t : Z) (m : MockClock) : MockClock :=
  mkClock t (tickers m).
Definition set_ch (c : list Z) (t : MockTicker) : MockTicker :=
  mkTicker (interval t) c (nextTick t) (stopped t).
Definition set_nextTick (n : Z) (t : MockTicker) : MockTicker :=
  mkTicker (interval t) (ch t) n (stopped t).
Definition set_stopped (b : bool) (t : MockTicker) : MockTicker :=
  mkTicker (interval t) (ch t) (nextTick t) b.

Definition NewMockClock (start : Z) : MockClock := mkClock start [].

Definition Now (m : MockClock) : Z := current m.

(** Returns the position of the new ticker in [m.tickers]. *)
Definition NewTicker (d : Z) (m : MockClock) : nat * MockClock :=
  let t := mkTicker d [] (current m + d) false in
  (length (tickers m), mkClock (current m) (tickers m ++ [t])).

(** [t.Stop()] and [<-t.C()] for the ticker at position [i]. *)
Definition Stop (i : nat) (m : MockClock) : MockClock :=
  mkClock (current m) (alter (set_stopped true) i (tickers m)).

Definition Receive (i : nat) (m : MockClock) : option (Z * MockClock) :=
  match tickers m !! i with
  | None => None
  | Some t =>
      match recv (ch t) with
      | None => None
      | Some (v, c) => Some (v, mkClock (current m) (<[i := set_ch c t]> (tickers m)))
      end
  end.

(** The inner loop of [Advance]: [i] is the position of [ts]'s head in the
    slice, [earliest] the pointer held so far. *)
Fixpoint earliest_from (ts : list MockTicker) (i : nat)
    (earliest : option (nat * MockTicker)) : option (nat * MockTicker) :=
  match ts with
  | [] => earliest
  | t :: ts' =>
      if stopped t then earliest_from ts' (S i) earliest
      else
        match earliest with
        | None => earliest_from ts' (S i) (Some (i, t))
        | Some (_, e) =>
            if nextTick t <? nextTick e
            then earliest_from ts' (S i) (Some (i, t))
            else earliest_from ts' (S i) earliest
        end
  end.

Definition find_earliest (m : MockClock) : option (nat * MockTicker) :=
  earliest_from (tickers m) 0 None.

(** The state after the tick of ticker [e], at position [i]. *)
Definition fire (i : nat) (e : MockTicker) (m : MockClock) : MockClock :=
  let m := set_current (nextTick e) m in
  let e := set_ch (try_send (current m) (ch e)) e in
  let e := set_nextTick (nextTick e + interval e) e in
  mkClock (current m) (<[i := e]> (tickers m)).

(** One turn of the outer loop of [Advance], entered with
    [m.current.Before(target)]: it leaves the loop or goes round again. *)
Inductive turn : Set :=
| Break (m : MockClock)
| Again (i : nat) (at_ : Z) (m : MockClock).

Definition Advance_body (target : Z) (m : MockClock) : turn :=
  match find_earliest m with
  | None => Break (set_current target m)
  | Some (i, e) =>
      if target <? nextTick e then Break (set_current target m)
      else Again i (nextTick e) (fire i e m)
  end.

(** The outer loop, for at most [fuel] turns; [None] when they do not
    suffice. *)
Fixpoint Advance_loop (fuel : nat) (target : Z) (m : MockClock) : option MockClock :=
  if current m <? target then
    match fuel with
    | O => None
    | S fuel' =>
        match Advance_body target m with
        | Break m' => Some m'
        | Again _ _ m' => Advance_loop fuel' target m'
        end
    end
  else Some m.

Definition Advance (fuel : nat) (d : Z) (m : MockClock) : option MockClock :=
  Advance_loop fuel (current m + d) m.

Definition Sleep (fuel : nat) (d : Z) (m : MockClock) : option MockClock :=
  Advance fuel d m.

(** The ticks fired by the loop, in the order it fires them: the position of
    the ticker and the instant of the tick. *)
Fixpoint firings (fuel : nat) (target : Z) (m : MockClock) : list (nat * Z) :=
  if current m <? target then
    match fuel with
    | O => []
    | S fuel' =>
        match Advance_body target m with
        | Break _ => []
        | Again i a m' => (i, a) :: firings fuel' target m'
        end
    end
  else [].

(** What bounds the number of turns: the ticks a running ticker still owes up
    to [target] when each one moves it by at least a nanosecond. *)
Definition owed (target : Z) (t : MockTicker) : nat :=
  if stopped t then O else Z.to_nat (target + 1 - nextTick t).

Definition owed_total (target : Z) (ts : list MockTicker) : nat :=
  foldr (fun t n => (owed target t + n)%nat) O ts.

End MockClock.

Definition positive_intervals (m : MockClock) : Prop :=
  Forall (fun t => stopped t = false -> 0 < interval t) (tickers m).

Definition one_pending (m : MockClock) : Prop :=
  Forall (fun t => (length (ch t) <= MockClock.chan_cap)%nat) (tickers m).

(** Two tickers of ten nanoseconds registered at instant zero. *)
Definition clock_two_tickers : MockClock :=
  snd (MockClock.NewTicker 10 (snd (MockClock.NewTicker 10 (MockClock.NewMockClock 0)))).

(** A ticker of three nanoseconds and one of five. *)
Definition clock_3_5 : MockClock :=
  snd (MockClock.NewTicker 5 (snd (MockClock.NewTicker 3 (MockClock.NewMockClock 0)))).

(** What the inner loop of [Advance] has found after scanning [l]: no
    running ticker, or a running one whose next tick no running one
    precedes. *)
Definition earliest_of (l : list MockTicker) (r : option (nat * MockTicker)) : Prop :=
  match r with
  | None => forall j t, l !! j = Some t -> stopped t = true
  | Some (k, e) =>
      l !! k = Some e /\ stopped e = false
      /\ forall j t, l !! j = Some t -> stopped t = false -> nextTick e <= nextTick t
  end.

(** The number of ticks of the ticker at position [j] in a list of firings. *)
Fixpoint ticks_of (j : nat) (log : list (nat * Z)) : nat :=
  match log with
  | [] => O
  | (i, _) :: log' => if Nat.eqb i j then S (ticks_of j log') else ticks_of j log'
  end.

(** A running ticker that a tick does not move forward and that is due
    before [target], seen before the clock has reached [target]. *)
Definition stuck_ticker (target : Z) (m : MockClock) : Prop :=
  current m < target
  /\ exists j t, tickers m !! j = Some t /\ stopped t = false
                 /\ interval t <= 0 /\ nextTick t < target.

(** [Advance] as the specification states it, for a call that returns: the
    clock ends at [current + d], and every running ticker whose next tick is
    at or before that instant has ticked. *)
Definition advance_as_specified (m : MockClock) (d : Z) : Prop :=
  forall fuel m', MockClock.Advance fuel d m = Some m' ->
    current m' = current m + d
    /\ forall j t, tickers m !! j = Some t -> stopped t = false ->
         nextTick t <= current m + d ->
         (0 < ticks_of j (MockClock.firings fuel (current m + d) m))%nat.

(** ** float64 *)

(** IEEE 754 binary64 values and operations, as the standard library
    specifies them. *)
Module Float64.

Definition prec : Z := 53.
Definition emax : Z := 1024.

Definition zero : spec_float := S754_zero false.
Definition one : spec_float := S754_finite false 4503599627370496 (-52).

(** [float64(n)] for an integer [n]: rounded to nearest, ties to even. *)
Definition of_int (n : Z) : spec_float := binary_normalize prec emax n 0 false.

Definition div (x y : spec_float) : spec_float := SFdiv prec emax x y.
Definition ltb (x y : spec_float) : bool := SFltb x y.
Definition leb (x y : spec_float) : bool := SFleb x y.

End Float64.

(** ** timer.go *)

Definition DefaultTickInterval : Z := 200000000.

(** [t.Sub(u)]: the difference of two instants as a [Duration], which
    saturates at the largest and smallest [Duration]. *)
Definition Time_Sub (t u : Z) : Z :=
  let d := t - u in
  if d <? GoInt.min_int then GoInt.min_int
  else if GoInt.max_int <? d then GoInt.max_int
  else d.

Module TimerEvent.

Record t : Set := mk {
  Phase : Phase;
  Elapsed : Z;
  Remaining : Z;
  Total : Z;
  Fraction : spec_float;
  PhaseComplete : bool;
  CycleNum : Z;
  TotalCycles : Z;
  PhaseNum : Z;
  TotalPhases : Z
}.

Definition set_Fraction (f : spec_float) (e : t) : t :=
  mk (Phase e) (Elapsed e) (Remaining e) (Total e) f (PhaseComplete e)
     (CycleNum e) (TotalCycles e) (PhaseNum e) (TotalPhases e).

End TimerEvent.

(** [error] values a run can return: [nil] or [ctx.Err()]. *)
Inductive error : Set :=
| ErrNil
| ErrCtx.

(** What the timer does to the world around it, as it does it. *)
Inductive Action : Set :=
| ActNewTicker (d : Z)
| ActStop
| ActSend (ev : TimerEvent.t)
| ActTick
| ActCtxDone
| ActClose.

(** The goroutine's surroundings at a [select]: whether the context gets
    cancelled while it waits there, whether its other communication (the send
    on [events], the receive from the ticker) can proceed, and which way the
    runtime's choice falls when both can. *)
Record SelectEnv : Set := mkSelectEnv {
  cancel_now : bool;
  comm_ready : bool;
  prefer_ctx : bool
}.

(** The clock and the peers of one run: the reading of the [n]th call of
    [Now], the surroundings of the [n]th [select]. *)
Record Env : Type := mkEnv {
  clock_now : nat -> Z;
  select_at : nat -> SelectEnv
}.

(** The [clock] field of a [Timer] is the [Env] of the run. *)
Record Timer : Set := mkTimer {
  tickInterval : Z;
  session : Session
}.

(** [trace] lists the actions latest first. *)
Record World : Set := mkWorld {
  now_calls : nat;
  select_calls : nat;
  ctx_cancelled : bool;
  trace : list Action
}.

Inductive Result (A : Type) : Type :=
| Returned (a : A) (t : Timer) (w : World)
| Parked (t : Timer) (w : World)
| OutOfFuel (t : Timer) (w : World).

Arguments Returned {A} a t w.
Arguments Parked {A} t w.
Arguments OutOfFuel {A} t w.

Inductive SelectOutcome : Set :=
| Proceed
| CtxDone.

(** A [select] between a communication and [<-ctx.Done()]: the one case that
    can proceed, either when both can, and no return when neither can. *)
Definition select (cancelled ready prefer : bool) : option SelectOutcome :=
  match cancelled, ready with
  | true, true => Some (if prefer then CtxDone else Proceed)
  | true, false => Some CtxDone
  | false, true => Some Proceed
  | false, false => None
  end.

Module Timer.

Definition M (A : Type) : Type := Timer -> World -> Result A.

Definition ret {A} (a : A) : M A := fun t w => Returned a t w.

Definition bind {A B} (m : M A) (k : A -> M B) : M B :=
  fun t w =>
    match m t w with
    | Returned a t' w' => k a t' w'
    | Parked t' w' => Parked t' w'
    | OutOfFuel t' w' => OutOfFuel t' w'
    end.

Declare Scope timer_scope.
Delimit Scope timer_scope with timer.
Notation "'let*' x ':=' m 'in' k" := (bind m (fun x => k))
  (at level 10, x name, m at level 100, k at level 200) : timer_scope.
Notation "'do' m 'then' k" := (bind m (fun _ => k))
  (at level 10, m at level 100, k at level 200) : timer_scope.
Local Open Scope timer_scope.

Definition out_of_fuel {A} : M A := fun t w => OutOfFuel t w.

(** A call of a method of [t.session]. *)
Definition liftS {A} (m : Session.method A) : M A :=
  fun t w => let (a, s) := m (session t) in Returned a (mkTimer (tickInterval t) s) w.

Definition log (a : Action) : M unit :=
  fun t w =>
    Returned tt t (mkWorld (now_calls w) (select_calls w) (ctx_cancelled w) (a :: trace w)).

Definition NewTimerWithClock (cfg : Config) (tickInterval : Z) : Timer :=
  mkTimer tickInterval (Session.NewSession cfg).

Definition NewTimer (cfg : Config) : Timer :=
  NewTimerWithClock cfg DefaultTickInterval.

(** The world when [Run] is called, with the context cancelled already or
    not. *)
Definition start_world (cancelled : bool) : World := mkWorld 0 0 cancelled [].

Section WithEnv.

Variable env : Env.

Definition Now : M Z :=
  fun t w =>
    Returned (clock_now env (now_calls w)) t
      (mkWorld (S (now_calls w)) (select_calls w) (ctx_cancelled w) (trace w)).

(** A [select] with the case [comm] and the case [<-ctx.Done()]. *)
Definition select_or_done (comm : Action) : M SelectOutcome :=
  fun t w =>
    let s := select_at env (select_calls w) in
    let cancelled := ctx_cancelled w || cancel_now s in
    match select cancelled (comm_ready s) (prefer_ctx s) with
    | None => Parked t (mkWorld (now_calls w) (select_calls w) cancelled (trace w))
    | Some Proceed =>
        Returned Proceed t
          (mkWorld (now_calls w) (S (select_calls w)) cancelled (comm :: trace w))
    | Some CtxDone =>
        Returned CtxDone t
          (mkWorld (now_calls w) (S (select_calls w)) cancelled (ActCtxDone :: trace w))
    end.

Fixpoint runPhase_loop (fuel : nat) (duration start : Z) : M error :=
  match fuel with
  | O => out_of_fuel
  | S fuel' =>
      let* now := Now in
      let elapsed := Time_Sub now start in
      let remaining := GoInt.sub duration elapsed in
      let remaining := if remaining <? 0 then 0 else remaining in
      let* phase := liftS Session.CurrentPhase in
      let* cycles := liftS Session.CyclesComplete in
      let* totalCycles := liftS Session.TotalCycles in
      let* phases := liftS Session.PhasesComplete in
      let* totalPhases := liftS Session.TotalPhases in
      let event :=
        TimerEvent.mk phase elapsed remaining duration
          (Float64.div (Float64.of_int elapsed) (Float64.of_int duration))
          (duration <=? elapsed)
          (GoInt.add cycles 1) totalCycles (GoInt.add phases 1) totalPhases in
      let event :=
        if Float64.ltb Float64.one (TimerEvent.Fraction event)
        then TimerEvent.set_Fraction Float64.one event
        else event in
      let* sent := select_or_done (ActSend event) in
      match sent with
      | CtxDone => ret ErrCtx
      | Proceed =>
          if TimerEvent.PhaseComplete event then ret ErrNil
          else
            let* ticked := select_or_done ActTick in
            match ticked with
            | CtxDone => ret ErrCtx
            | Proceed => runPhase_loop fuel' duration start
            end
      end
  end.

Definition runPhase (fuel : nat) : M error :=
  let* duration := liftS Session.PhaseDuration in
  if duration =? 0 then ret ErrNil
  else
    let* start := Now in
    let* interval := (fun t w => Returned (tickInterval t) t w) in
    do log (ActNewTicker interval) then
    let* err := runPhase_loop fuel duration start in
    do log ActStop then
    ret err.

Fixpoint Run_loop (fuel : nat) : M error :=
  match fuel with
  | O => out_of_fuel
  | S fuel' =>
      let* phase := liftS Session.CurrentPhase in
      if Phase_eqb phase PhaseDone then ret ErrNil
      else
        let* err := runPhase fuel' in
        match err with
        | ErrCtx => ret ErrCtx
        | ErrNil => do liftS Session.NextPhase then Run_loop fuel'
        end
  end.

Definition Run (fuel : nat) : M error :=
  let* err := Run_loop fuel in
  do log ActClose then
  ret err.

End WithEnv.

End Timer.

(** The timer and the world a computation stopped in, however it stopped. *)
Definition result_timer {A} (r : Result A) : Timer :=
  match r with
  | Returned _ t _ | Parked t _ | OutOfFuel t _ => t
  end.

Definition result_world {A} (r : Result A) : World :=
  match r with
  | Returned _ _ w | Parked _ w | OutOfFuel _ w => w
  end.

(** The event [runPhase] builds in session [s] for a phase of [duration]
    started at [start], when the clock reads [now]. *)
Definition event_at (s : Session) (duration start now : Z) : TimerEvent.t :=
  let elapsed := Time_Sub now start in
  let remaining := GoInt.sub duration elapsed in
  let remaining := if remaining <? 0 then 0 else remaining in
  let event :=
    TimerEvent.mk (currentPhase s) elapsed remaining duration
      (Float64.div (Float64.of_int elapsed) (Float64.of_int duration))
      (duration <=? elapsed)
      (GoInt.add (cyclesComplete s) 1) (TotalCycles (config s))
      (GoInt.add (phasesComplete s) 1) (totalPhases s) in
  if Float64.ltb Float64.one (TimerEvent.Fraction event)
  then TimerEvent.set_Fraction Float64.one event
  else event.

(** The events of a trace, latest first. *)
Fixpoint events_of (tr : list Action) : list TimerEvent.t :=
  match tr with
  | [] => []
  | ActSend ev :: tr' => ev :: events_of tr'
  | _ :: tr' => events_of tr'
  end.

(** An event of a run that started in session [s0]: built during a phase of
    non-zero duration, in the session that [k] calls of [NextPhase] had made
    of [s0], from a reading of the clock later than the one that started the
    phase. *)
Definition emitted_in (env : Env) (s0 : Session) (ev : TimerEvent.t) : Prop :=
  exists (k i j : nat),
    (i < j)%nat
    /\ let s := Session.NextPhase_n k s0 in
       let duration := fst (Session.PhaseDuration s) in
       duration <> 0
       /\ ev = event_at s duration (clock_now env i) (clock_now env j).

(** Every [ticker.Stop()] of the trace comes right after a send of an event
    flagged complete, or right after the context was seen done. *)
Fixpoint stops_follow_completion (tr : list Action) : Prop :=
  match tr with
  | [] => True
  | ActStop :: tr' =>
      match tr' with
      | ActSend ev :: _ => TimerEvent.PhaseComplete ev = true
      | ActCtxDone :: _ => True
      | _ => False
      end /\ stops_follow_completion tr'
  | _ :: tr' => stops_follow_completion tr'
  end.

(** The actions of the loop of [runPhase]. *)
Definition loop_action (a : Action) : Prop :=
  match a with
  | ActSend _ | ActTick | ActCtxDone => True
  | _ => False
  end.

Definition monotone_clock (env : Env) : Prop :=
  forall i j, (i <= j)%nat -> clock_now env i <= clock_now env j.

Definition nonneg_durations (cfg : Config) : Prop :=
  0 <= WorkDuration cfg /\ 0 <= ShortBreakDuration cfg /\ 0 <= LongBreakDuration cfg.

Definition events_from (env : Env) (s0 : Session) (tr : list Action) : Prop :=
  Forall (emitted_in env s0) (events_of tr).

(** What holds of the timer and the world each time [Run] tests its loop
    condition, in a run that started in session [s0]. *)
Definition run_invariant (env : Env) (s0 : Session) (t : Timer) (w : World) : Prop :=
  (exists k, session t = Session.NextPhase_n k s0)
  /\ ~ In ActCtxDone (trace w)
  /\ ~ In ActClose (trace w)
  /\ stops_follow_completion (trace w)
  /\ events_from env s0 (trace w).

(** [Run] as the specification states it, for a run that returns: success
    exactly when the session reached Done and the context was never cancelled,
    the stream closed on success, and the cancellation outcome whenever the
    context was cancelled. *)
Definition run_as_specified (env : Env) (cfg : Config) (tick : Z) (cancelled : bool) : Prop :=
  forall fuel e t w,
    Timer.Run env fuel (Timer.NewTimerWithClock cfg tick) (Timer.start_world cancelled)
    = Returned e t w ->
    (e = ErrNil <-> currentPhase (session t) = PhaseDone /\ ctx_cancelled w = false)
    /\ (e = ErrNil -> exists tr, trace w = ActClose :: tr)
    /\ (ctx_cancelled w = true -> e = ErrCtx).

(** One work cycle of no duration. *)
Definition cfg_instant : Config := mkConfig 0 0 0 0 1.

(** One work cycle of one minute. *)
Definition cfg_one_minute : Config := mkConfig minute minute minute 0 1.

(** A clock that gains a minute at every reading, with a consumer that is
    always ready and a context that is never cancelled. *)
Definition env_minutes : Env :=
  mkEnv (fun n => Z.of_nat n * minute) (fun _ => mkSelectEnv false true false).

(** The same clock; the context is cancelled by the first [select], the
    consumer is ready too, and the runtime chooses the communication. *)
Definition env_cancel_lost : Env :=
  mkEnv (fun n => Z.of_nat n * minute) (fun _ => mkSelectEnv true true false).

(** The same clock; the context is cancelled by the first [select], where no
    consumer is ready. *)
Definition env_cancel_seen : Env :=
  mkEnv (fun n => Z.of_nat n * minute) (fun _ => mkSelectEnv true false false).

(** Three cycles with no short break between them. *)
Definition cfg_no_short_break : Config := mkConfig minute 0 minute 0 3.

(** The events of a run as the specification states them: a fraction
    between zero and one, a remaining time that is not negative, and an
    elapsed time that is not negative when the clock never goes backwards. *)
Definition events_as_specified (env : Env) (cfg : Config) (tick : Z) (cancelled : bool) : Prop :=
  forall fuel ev,
    In (ActSend ev)
      (trace (result_world
         (Timer.Run env fuel (Timer.NewTimerWithClock cfg tick)
            (Timer.start_world cancelled)))) ->
    Float64.leb Float64.zero (TimerEvent.Fraction ev) = true
    /\ Float64.leb (TimerEvent.Fraction ev) Float64.one = true
    /\ 0 <= TimerEvent.Remaining ev
    /\ (monotone_clock env -> 0 <= TimerEvent.Elapsed ev).

(** One work cycle with a negative duration, as [pomo start -p -1 -c 1]
    configures it. *)
Definition cfg_negative_work : Config := mkConfig (- minute) 0 0 0 1.

(** A clock that gains a nanosecond at every reading. *)
Definition env_nanoseconds : Env :=
  mkEnv (fun n => Z.of_nat n) (fun _ => mkSelectEnv false true false).

(** Five cycles with a long break after every second one, and a session
    without a bound on its cycles, as [pomo start] configures it by default. *)
Definition cfg_5_2 : Config := mkConfig minute minute minute 2 5.
Definition cfg_unbounded : Config := mkConfig minute minute minute 4 0.
(** Where the timer stands in its dealings with the ticker, the event
    channel and the context: between phases, about to send an event, waiting
    for a tick, about to stop the ticker (after cancellation or not), about
    to close the channel after cancellation, or done with it closed. *)
Inductive Stage : Set :=
| Idle
| NeedSend
| NeedTick
| MustStop (cancelled : bool)
| MustClose
| Closed.

(** The one order in which [Run] performs its actions: a ticker of the
    timer's interval is created between phases only; an event flagged
    complete or a cancellation is followed by the stop of the ticker, any
    other event by a tick; the channel is closed between phases or after the
    stop that follows a cancellation, and nothing comes after. *)
Definition stage_step (tick : Z) (st : Stage) (a : Action) : option Stage :=
  match st, a with
  | Idle, ActNewTicker d => if d =? tick then Some NeedSend else None
  | Idle, ActClose => Some Closed
  | NeedSend, ActSend ev =>
      Some (if TimerEvent.PhaseComplete ev then MustStop false else NeedTick)
  | NeedSend, ActCtxDone => Some (MustStop true)
  | NeedTick, ActTick => Some NeedSend
  | NeedTick, ActCtxDone => Some (MustStop true)
  | MustStop false, ActStop => Some Idle
  | MustStop true, ActStop => Some MustClose
  | MustClose, ActClose => Some Closed
  | _, _ => None
  end.

(** The stage a trace (latest action first) leaves the timer in, if the trace
    follows that order. *)
Fixpoint stage_of (tick : Z) (tr : list Action) : option Stage :=
  match tr with
  | [] => Some Idle
  | a :: tr' =>
      match stage_of tick tr' with
      | Some st => stage_step tick st a
      | None => None
      end
  end.

(** The tickers created and not yet stopped, counted along a trace. *)
Fixpoint open_tickers (tr : list Action) : Z :=
  match tr with
  | [] => 0
  | ActNewTicker _ :: tr' => open_tickers tr' + 1
  | ActStop :: tr' => open_tickers tr' - 1
  | _ :: tr' => open_tickers tr'
  end.
(** The events of a phase of [duration] started at the clock's reading
    number [n], in session [s]: the [j]th is built from reading [n + 1 + j]. *)
Definition phase_event (env : Env) (s : Session) (duration : Z) (n j : nat) : TimerEvent.t :=
  event_at s duration (clock_now env n) (clock_now env (S n + j)).
(** A consumer that is ready at every [select] and a context that nobody
    cancels. *)
Definition ready_consumer (env : Env) : Prop :=
  forall n, cancel_now (select_at env n) = false /\ comm_ready (select_at env n) = true.

(** A clock whose readings increase. *)
Definition ticking_clock (env : Env) : Prop :=
  forall n, clock_now env n < clock_now env (S n).

(** The durations of a configuration are [time.Duration]s. *)
Definition durations_in_range (cfg : Config) : Prop :=
  GoInt.in_range (WorkDuration cfg) /\ GoInt.in_range (ShortBreakDuration cfg)
  /\ GoInt.in_range (LongBreakDuration cfg).
(** No running ticker is due before the clock's current instant. *)
Definition ahead (m : MockClock) : Prop :=
  Forall (fun t => stopped t = false -> current m <= nextTick t) (tickers m).

(** No pending tick carries an instant later than the clock's current one. *)
Definition ticks_from_past (m : MockClock) : Prop :=
  Forall (fun t => Forall (fun v => v <= current m) (ch t)) (tickers m).

(** The calls a test makes on a mock clock and its tickers.  [DoReceive i] is
    [<-t.C()] for the ticker at position [i], which does not return while
    no tick is pending. *)
Inductive ClockOp : Set :=
| DoNewTicker (d : Z)
| DoStop (i : nat)
| DoReceive (i : nat)
| DoAdvance (fuel : nat) (d : Z)
| DoSleep (fuel : nat) (d : Z).

Definition clock_step (o : ClockOp) (m : MockClock) : option MockClock :=
  match o with
  | DoNewTicker d => Some (snd (MockClock.NewTicker d m))
  | DoStop i => Some (MockClock.Stop i m)
  | DoReceive i =>
      match MockClock.Receive i m with
      | Some (_, m') => Some m'
      | None => None
      end
  | DoAdvance fuel d => MockClock.Advance fuel d m
  | DoSleep fuel d => MockClock.Sleep fuel d m
  end.

(** A sequence of calls, each of which returns. *)
Fixpoint clock_run (ops : list ClockOp) (m : MockClock) : option MockClock :=
  match ops with
  | [] => Some m
  | o :: ops' =>
      match clock_step o m with
      | Some m' => clock_run ops' m'
      | None => None
      end
  end.

(** Every ticker is created with a positive interval, as [time.NewTicker]
    demands. *)
Definition positive_tickers (ops : list ClockOp) : Prop :=
  Forall (fun o => match o with DoNewTicker d => 0 < d | _ => True end) ops.
(** A clock started at [start] with one ticker of interval [i]. *)
Definition single_ticker (start i : Z) : MockClock :=
  snd (MockClock.NewTicker i (MockClock.NewMockClock start)).
(** ** time.Duration *)

Module Duration.

Definition Millisecond : Z := 1000000.
Definition Second : Z := 1000000000.
Definition Minute : Z := 60000000000.

(** [uint64(x)+uint64(x) < uint64(y)]. *)
Definition lessThanHalf (x y : Z) : bool :=
  (x mod GoInt.modulus + x mod GoInt.modulus) mod GoInt.modulus <? y mod GoInt.modulus.

(** [d.Round(m)]: [d] rounded to the nearest multiple of [m], halfway values
    away from zero; the largest or smallest duration when the result does not
    fit, and [d] itself when [m <= 0]. *)
Definition Round (d m : Z) : Z :=
  if m <=? 0 then d
  else
    let r := GoInt.rem d m in
    if d <? 0 then
      let r := GoInt.sub 0 r in
      if lessThanHalf r m then GoInt.add d r
      else
        let d1 := GoInt.add (GoInt.sub d m) r in
        if d1 <? d then d1 else GoInt.min_int
    else
      if lessThanHalf r m then GoInt.sub d r
      else
        let d1 := GoInt.sub (GoInt.add d m) r in
        if d <? d1 then d1 else GoInt.max_int.

End Duration.

(** ** ui/progress.go *)

Module UI.

Import Stdlib.Strings.String Stdlib.Strings.Ascii Stdlib.Numbers.DecimalString.

(** [fmt.Sprintf] with the verb [%d], and with [%02d]: at least two
    characters, padded with zeros on the left, the sign counting as one. *)
Definition fmt_d (n : Z) : string := NilZero.string_of_int (Z.to_int n).

Definition fmt_02d (n : Z) : string :=
  if (0 <=? n) && (n <? 10) then ("0" ++ fmt_d n)%string else fmt_d n.

Definition formatDuration (d : Z) : string :=
  let d := Duration.Round d Duration.Second in
  let m := GoInt.div d Duration.Minute in
  let s := GoInt.div (GoInt.rem d Duration.Minute) Duration.Second in
  (fmt_02d m ++ ":" ++ fmt_02d s)%string.

(** [Phase.String]; its default branch is for integers other than the four
    constants, which [Phase] does not have. *)
Definition Phase_String (p : Phase) : string :=
  match p with
  | PhaseWork => "Work"
  | PhaseShortBreak => "Short Break"
  | PhaseLongBreak => "Long Break"
  | PhaseDone => "Done"
  end%string.

(** The colours of the display. *)
Inductive Color : Set :=
| workColor
| shortColor
| longColor
| overallColor
| dimColor.

Section WithColor.

(** [c.Sprint(s)], of package [color]: the text [s] in colour [c] for the
    terminal at hand. *)
Variable Sprint : Color -> string -> string.

Definition formatPhaseName (e : TimerEvent.t) : string :=
  let name := Phase_String (TimerEvent.Phase e) in
  let c :=
    match TimerEvent.Phase e with
    | PhaseWork => workColor
    | PhaseShortBreak => shortColor
    | PhaseLongBreak => longColor
    | PhaseDone => overallColor
    end in
  if 0 <? TimerEvent.TotalCycles e then
    let cycleNum := TimerEvent.CycleNum e in
    let cycleNum :=
      if Phase_eqb (TimerEvent.Phase e) PhaseWork then cycleNum
      else GoInt.sub (TimerEvent.CycleNum e) 1 in
    Sprint c (name ++ " (" ++ fmt_d cycleNum ++ "/" ++ fmt_d (TimerEvent.TotalCycles e)
              ++ ")")%string
  else Sprint c name.

End WithColor.

(** The colour and the text of the label of a phase. *)
Definition phase_color (p : Phase) : Color :=
  match p with
  | PhaseWork => workColor
  | PhaseShortBreak => shortColor
  | PhaseLongBreak => longColor
  | PhaseDone => overallColor
  end.

Definition cycle_label (p : Phase) (n total : Z) : string :=
  (Phase_String p ++ " (" ++ fmt_d n ++ "/" ++ fmt_d total ++ ")")%string.

(** The two decimal digits of a number below one hundred. *)
Definition digit (n : Z) : ascii := ascii_of_nat (48 + Z.to_nat n).
Definition two_digits (n : Z) : string :=
  String (digit (n / 10)) (String (digit (n mod 10)) EmptyString).

End UI.
(** ** cmd/start.go *)

(** [time.Duration(n) * time.Minute]. *)
Definition minutes (n : Z) : Z := GoInt.wrap (n * Duration.Minute).

(** The configuration [runStart] builds from the flags [--pomodoro],
    [--short], [--long], [--long-every] and [--cycles], and the timer it
    creates from it. *)
Definition runStart_config
    (workMinutes shortBreakMinutes longBreakMinutes longBreakEvery cycles : Z) : Config :=
  mkConfig (minutes workMinutes) (minutes shortBreakMinutes) (minutes longBreakMinutes)
    longBreakEvery cycles.

Definition runStart_timer
    (workMinutes shortBreakMinutes longBreakMinutes longBreakEvery cycles : Z) : Timer :=
  Timer.NewTimer
    (runStart_config workMinutes shortBreakMinutes longBreakMinutes longBreakEvery cycles).

(** The largest number of minutes that is a [time.Duration]. *)
Definition max_minutes : Z := 153722867.

(** A session with no bound on its cycles and no duration at all. *)
Definition cfg_all_zero : Config := mkConfig 0 0 0 4 0.
(** A channel that has only been received from since it held [c]. *)
Definition drained_from (c c' : list Z) : Prop := exists taken, c = taken ++ c'.
(** ** ui/progress.go: the progress display *)

Module Progress.

(** The calls for which the display relies on package [mpb]: on the
    container, [New] (which makes a bar of the given total; bars are numbered
    in the order of their creation) and [Wait]; on a bar, [SetCurrent],
    [EnableTriggerComplete] and [Increment]. *)
Inductive BarCall : Set :=
| SetCurrent (n : Z)
| EnableTriggerComplete
| Increment.

Inductive Call : Set :=
| New (total : Z)
| OnBar (bar : nat) (c : BarCall)
| ContainerWait.

(** A [*Progress].  [container] lists the calls made so far, latest first;
    a bar is named by its number and [None] is the [nil] bar; [lastPhase] is
    [None] for [engine.Phase(-1)], which is no phase. *)
Record t : Set := mk {
  container : list Call;
  bars : nat;
  phaseBar : option nat;
  overallBar : option nat;
  showOverall : bool;
  totalPhases : Z;
  phaseTotal : Z;
  lastPhase : option Phase
}.

Definition call (c : Call) (p : t) : t :=
  mk (c :: container p) (bars p) (phaseBar p) (overallBar p) (showOverall p)
     (totalPhases p) (phaseTotal p) (lastPhase p).

(** [p.container.New(total, ...)]: the call and the new bar. *)
Definition new_bar (total : Z) (p : t) : nat * t :=
  (bars p,
   mk (New total :: container p) (S (bars p)) (phaseBar p) (overallBar p) (showOverall p)
      (totalPhases p) (phaseTotal p) (lastPhase p)).

Definition set_phaseBar (b : option nat) (p : t) : t :=
  mk (container p) (bars p) b (overallBar p) (showOverall p)
     (totalPhases p) (phaseTotal p) (lastPhase p).
Definition set_overallBar (b : option nat) (p : t) : t :=
  mk (container p) (bars p) (phaseBar p) b (showOverall p)
     (totalPhases p) (phaseTotal p) (lastPhase p).
Definition set_phaseTotal (n : Z) (p : t) : t :=
  mk (container p) (bars p) (phaseBar p) (overallBar p) (showOverall p)
     (totalPhases p) n (lastPhase p).
Definition set_lastPhase (ph : option Phase) (p : t) : t :=
  mk (container p) (bars p) (phaseBar p) (overallBar p) (showOverall p)
     (totalPhases p) (phaseTotal p) ph.

Definition NewProgress (totalPhases : Z) : t :=
  let p := mk [] 0 None None (0 <? totalPhases) totalPhases 0 None in
  if showOverall p then
    let (b, p) := new_bar totalPhases p in
    set_overallBar (Some b) p
  else p.

Definition same_phase (ph : Phase) (last : option Phase) : bool :=
  match last with
  | Some q => Phase_eqb ph q
  | None => false
  end.

Definition Update (e : TimerEvent.t) (p : t) : t :=
  let p :=
    if match phaseBar p with None => true | Some _ => false end
       || negb (same_phase (TimerEvent.Phase e) (lastPhase p))
    then
      let p :=
        match phaseBar p with
        | Some b => call (OnBar b EnableTriggerComplete) (call (OnBar b (SetCurrent (phaseTotal p))) p)
        | None => p
        end in
      let p := set_lastPhase (Some (TimerEvent.Phase e)) p in
      let p := set_phaseTotal (GoInt.div (TimerEvent.Total e) Duration.Millisecond) p in
      let (b, p) := new_bar (phaseTotal p) p in
      set_phaseBar (Some b) p
    else p in
  let elapsed := GoInt.div (TimerEvent.Elapsed e) Duration.Millisecond in
  let p :=
    match phaseBar p with
    | Some b => call (OnBar b (SetCurrent elapsed)) p
    | None => p
    end in
  if TimerEvent.PhaseComplete e && showOverall p
     && match overallBar p with Some _ => true | None => false end
  then
    match overallBar p with
    | Some b => call (OnBar b Increment) p
    | None => p
    end
  else p.

Definition Wait (p : t) : t :=
  let p :=
    match phaseBar p with
    | Some b => call (OnBar b EnableTriggerComplete) (call (OnBar b (SetCurrent (phaseTotal p))) p)
    | None => p
    end in
  call ContainerWait p.

End Progress.

(** What [runStart] does with the events of a run, listed oldest first: a
    display for the session's total of phases, an [Update] for each event,
    and [Wait] when the channel is closed. *)
Definition runStart_display (t : Timer) (events : list TimerEvent.t) : Progress.t :=
  let total := fst (Session.TotalPhases (session t)) in
  Progress.Wait (fold_left (fun p e => Progress.Update e p) events (Progress.NewProgress total)).

(** The number of [Increment]s of bar [b] among calls. *)
Fixpoint increments (b : nat) (cs : list Progress.Call) : Z :=
  match cs with
  | [] => 0
  | Progress.OnBar b' Progress.Increment :: cs' =>
      if Nat.eqb b' b then increments b cs' + 1 else increments b cs'
  | _ :: cs' => increments b cs'
  end.

(** The events flagged complete in a list. *)
Fixpoint completions (evs : list TimerEvent.t) : Z :=
  match evs with
  | [] => 0
  | e :: evs' => (if TimerEvent.PhaseComplete e then 1 else 0) + completions evs'
  end.

(** The phases of non-zero duration among the [n] phases of a session that
    follow its [j]th call of [NextPhase]. *)
Fixpoint ran_phases (cfg : Config) (j n : nat) : Z :=
  match n with
  | O => 0
  | S n' =>
      (if fst (Session.PhaseDuration (Session.NextPhase_n j (Session.NewSession cfg))) =? 0
       then 0 else 1)
      + ran_phases cfg (S j) n'
  end.

(** The durations of a configuration are positive. *)
Definition positive_durations (cfg : Config) : Prop :=
  0 < WorkDuration cfg /\ 0 < ShortBreakDuration cfg /\ 0 < LongBreakDuration cfg.

(* ===================================================================== *)
(** * Part II: properties                                                 *)
(* ===================================================================== *)

(** ** Machine integers *)

Lemma wrap_in_range z : GoInt.in_range z -> GoInt.wrap z = z.
Proof.
  unfold GoInt.in_range, GoInt.wrap, GoInt.min_int, GoInt.max_int, GoInt.modulus.
  intros H. rewrite Z.mod_small by lia. lia.
Qed.

Lemma wrap_range z : GoInt.in_range (GoInt.wrap z).
Proof.
  unfold GoInt.in_range, GoInt.wrap, GoInt.min_int, GoInt.max_int, GoInt.modulus.
  pose proof (Z.mod_pos_bound (z - -9223372036854775808) 18446744073709551616).
  lia.
Qed.

Lemma wrap_congr a b k : a = b + k * GoInt.modulus -> GoInt.wrap a = GoInt.wrap b.
Proof.
  intros ->. unfold GoInt.wrap.
  replace (b + k * GoInt.modulus - GoInt.min_int)
    with (b - GoInt.min_int + k * GoInt.modulus) by lia.
  now rewrite Z.mod_add by (unfold GoInt.modulus; lia).
Qed.

Lemma wrap_eq a b : a = b -> GoInt.wrap a = GoInt.wrap b.
Proof. now intros ->. Qed.

Lemma wrap_decomp z : exists k, GoInt.wrap z = z + k * GoInt.modulus.
Proof.
  unfold GoInt.wrap.
  exists (- ((z - GoInt.min_int) / GoInt.modulus)).
  pose proof (Z.div_mod (z - GoInt.min_int) GoInt.modulus).
  unfold GoInt.modulus in *. lia.
Qed.

Lemma wrap_add_l a b : GoInt.wrap (GoInt.wrap a + b) = GoInt.wrap (a + b).
Proof.
  destruct (wrap_decomp a) as [k ->].
  apply (wrap_congr _ _ k). lia.
Qed.

Lemma wrap_add_r a b : GoInt.wrap (a + GoInt.wrap b) = GoInt.wrap (a + b).
Proof. rewrite (Z.add_comm a), wrap_add_l. apply wrap_eq. lia. Qed.

Lemma wrap_sub_l a b : GoInt.wrap (GoInt.wrap a - b) = GoInt.wrap (a - b).
Proof.
  destruct (wrap_decomp a) as [k ->].
  apply (wrap_congr _ _ k). lia.
Qed.

Lemma wrap_sub_r a b : GoInt.wrap (a - GoInt.wrap b) = GoInt.wrap (a - b).
Proof.
  destruct (wrap_decomp b) as [k ->].
  apply (wrap_congr _ _ (- k)). lia.
Qed.

(** ** The phase state machine *)

(** Scenario of the specification: four cycles, a long break every second. *)
Example total_phases_4_2 :
  totalPhases (Session.NewSession cfg_4_2) = 7
  /\ spec_longBreaks 4 2 = 1 /\ spec_shortBreaks 4 2 = 2.
Proof. repeat split; reflexivity. Qed.

Example total_phases_2_0 : totalPhases (Session.NewSession cfg_2_0) = 3.
Proof. reflexivity. Qed.

Lemma calculateTotalPhases_wrap s :
  fst (Session.calculateTotalPhases s)
  = GoInt.wrap (spec_totalPhases (TotalCycles (config s)) (LongBreakEvery (config s))).
Proof.
  unfold Session.calculateTotalPhases, spec_totalPhases, spec_shortBreaks,
    spec_longBreaks, Session.bind, Session.gets, Session.ret.
  destruct (TotalCycles (config s) =? 0) eqn:HC; [reflexivity|].
  destruct (0 <? LongBreakEvery (config s)); cbn [fst];
    unfold GoInt.add, GoInt.sub, GoInt.div.
  - set (C := TotalCycles (config s)).
    set (q := GoInt.wrap (Z.quot _ _)). clearbody q.
    rewrite wrap_add_r, Z.add_assoc, wrap_add_r.
    replace (C + q + (GoInt.wrap (C - 1) - q)) with (GoInt.wrap (C - 1) + C) by lia.
    rewrite wrap_add_l. apply wrap_eq. lia.
  - rewrite wrap_add_r. apply wrap_eq. lia.
Qed.

Lemma calculateTotalPhases_frame s : snd (Session.calculateTotalPhases s) = s.
Proof.
  unfold Session.calculateTotalPhases, Session.bind, Session.gets, Session.ret.
  destruct (TotalCycles (config s) =? 0); [reflexivity|].
  destruct (0 <? LongBreakEvery (config s)); reflexivity.
Qed.

Lemma NewSession_eq cfg :
  Session.NewSession cfg
  = mkSession cfg PhaseWork 0
      (GoInt.wrap (spec_totalPhases (TotalCycles cfg) (LongBreakEvery cfg))) 0.
Proof.
  unfold Session.NewSession.
  pose proof (calculateTotalPhases_wrap (mkSession cfg PhaseWork 0 0 0)) as H1.
  pose proof (calculateTotalPhases_frame (mkSession cfg PhaseWork 0 0 0)) as H2.
  destruct (Session.calculateTotalPhases _) as [n s']. cbn in *. subst. reflexivity.
Qed.

(** C1. The total-phase count computed by [NewSession] is the count of the
    specification, [0] for [C = 0] and [C + longBreaks + shortBreaks]
    otherwise, as a Go [int]; whenever that count fits an [int] it is the
    count itself. *)
Theorem C1_total_phase_count (cfg : Config) :
  let C := TotalCycles cfg in
  let F := LongBreakEvery cfg in
  fst (Session.TotalPhases (Session.NewSession cfg)) = GoInt.wrap (spec_totalPhases C F)
  /\ (C = 0 -> fst (Session.TotalPhases (Session.NewSession cfg)) = 0)
  /\ (GoInt.in_range (spec_totalPhases C F) ->
      fst (Session.TotalPhases (Session.NewSession cfg)) = spec_totalPhases C F).
Proof.
  cbn zeta. rewrite NewSession_eq. cbn. repeat split.
  - intros ->. reflexivity.
  - apply wrap_in_range.
Qed.

Lemma C1_total_phase_count_witness :
  GoInt.in_range (spec_totalPhases 4 2)
  /\ fst (Session.TotalPhases (Session.NewSession cfg_4_2)) = 7.
Proof.
  assert (H : GoInt.in_range (spec_totalPhases 4 2))
    by (vm_compute; split; discriminate).
  split; [exact H|].
  exact (proj2 (proj2 (C1_total_phase_count cfg_4_2)) H).
Defined.

Lemma add_small a b :
  GoInt.in_range (a + b) -> GoInt.add a b = a + b.
Proof. apply wrap_in_range. Qed.

Lemma NextPhase_unfold s : Session.NextPhase s = NextPhase_spec s.
Proof.
  destruct s as [cfg p c t n].
  unfold Session.NextPhase, NextPhase_spec, Session.bind, Session.gets,
    Session.modify, Session.ret.
  destruct p; cbn [currentPhase Phase_eqb config cyclesComplete phasesComplete
                   totalPhases Session.set_phasesComplete
                   Session.set_cyclesComplete]; try reflexivity.
  destruct ((0 <? TotalCycles cfg) && (TotalCycles cfg <=? GoInt.add c 1));
    [reflexivity|].
  destruct ((0 <? LongBreakEvery cfg)
            && (GoInt.rem (GoInt.add c 1) (LongBreakEvery cfg) =? 0)); reflexivity.
Qed.

Lemma NextPhase_n_add a b s :
  Session.NextPhase_n (a + b) s = Session.NextPhase_n b (Session.NextPhase_n a s).
Proof. revert s. induction a as [|a IH]; intros s; cbn; [reflexivity|apply IH]. Qed.

Lemma NextPhase_work s :
  currentPhase s = PhaseWork ->
  let c' := GoInt.add (cyclesComplete s) 1 in
  let C := TotalCycles (config s) in
  let F := LongBreakEvery (config s) in
  let p' := fst (Session.NextPhase s) in
  let s' := snd (Session.NextPhase s) in
  cyclesComplete s' = c' /\ currentPhase s' = p' /\ config s' = config s
  /\ (0 < C /\ C <= c' -> p' = PhaseDone)
  /\ (~ (0 < C /\ C <= c') ->
      ((0 < F /\ (F | c')) -> p' = PhaseLongBreak)
      /\ (~ (0 < F /\ (F | c')) -> p' = PhaseShortBreak)
      /\ (p' = PhaseShortBreak \/ p' = PhaseLongBreak)).
Proof.
  intros Hp. rewrite NextPhase_unfold. unfold NextPhase_spec. rewrite Hp.
  cbn [fst snd cyclesComplete currentPhase config].
  repeat split.
  4:{ destruct ((0 <? TotalCycles _) && (_ <=? _)) eqn:E.
      - apply andb_true_iff in E as [E1 E2].
        apply Z.ltb_lt in E1. apply Z.leb_le in E2. tauto.
      - destruct ((0 <? LongBreakEvery _) && _); auto. }
  - intros [H1 H2].
    apply Z.ltb_lt in H1. apply Z.leb_le in H2. now rewrite H1, H2.
  - intros [HF Hd].
    destruct ((0 <? _) && (_ <=? _)) eqn:E.
    + apply andb_true_iff in E as [E1 E2].
      apply Z.ltb_lt in E1. apply Z.leb_le in E2. tauto.
    + apply Z.ltb_lt in HF as HF'. rewrite HF'.
      apply Z.rem_divide in Hd; [|lia]. unfold GoInt.rem. rewrite Hd. reflexivity.
  - intros HnF.
    destruct ((0 <? TotalCycles _) && (_ <=? _)) eqn:E.
    + apply andb_true_iff in E as [E1 E2].
      apply Z.ltb_lt in E1. apply Z.leb_le in E2. tauto.
    + destruct ((0 <? LongBreakEvery _) && _) eqn:E'; [|reflexivity].
      apply andb_true_iff in E' as [E1 E2].
      apply Z.ltb_lt in E1. apply Z.eqb_eq in E2.
      exfalso. apply HnF. split; [assumption|].
      apply Z.rem_divide; [lia|exact E2].
Qed.

Lemma NextPhase_break s :
  currentPhase s = PhaseShortBreak \/ currentPhase s = PhaseLongBreak ->
  Session.NextPhase s
  = (PhaseWork, mkSession (config s) PhaseWork (cyclesComplete s) (totalPhases s)
                  (GoInt.add (phasesComplete s) 1)).
Proof.
  intros [Hp|Hp]; rewrite NextPhase_unfold; unfold NextPhase_spec; now rewrite Hp.
Qed.

Lemma NextPhase_done s :
  currentPhase s = PhaseDone -> Session.NextPhase s = (PhaseDone, s).
Proof. intros Hp. rewrite NextPhase_unfold. unfold NextPhase_spec. now rewrite Hp. Qed.

Lemma NextPhase_phasesComplete s :
  currentPhase s <> PhaseDone ->
  phasesComplete (snd (Session.NextPhase s)) = GoInt.add (phasesComplete s) 1.
Proof.
  intros Hp. rewrite NextPhase_unfold. unfold NextPhase_spec.
  destruct (currentPhase s); try reflexivity. congruence.
Qed.

Lemma NextPhase_returns_current s :
  fst (Session.NextPhase s) = currentPhase (snd (Session.NextPhase s)).
Proof.
  rewrite NextPhase_unfold. unfold NextPhase_spec.
  destruct (currentPhase s) eqn:E; cbn; congruence.
Qed.

(** A bounded session alternates work and breaks: after [2 k] calls,
    [k < C], it is working on cycle [k + 1]. *)
Lemma bounded_run_invariant cfg (k : nat) :
  0 < TotalCycles cfg <= GoInt.max_int ->
  Z.of_nat k < TotalCycles cfg ->
  let s := Session.NextPhase_n (2 * k) (Session.NewSession cfg) in
  currentPhase s = PhaseWork /\ cyclesComplete s = Z.of_nat k /\ config s = cfg.
Proof.
  intros HC. induction k as [|k IH]; intros Hk.
  - rewrite NewSession_eq. cbn. auto.
  - replace (2 * S k)%nat with (2 * k + 2)%nat by lia.
    rewrite NextPhase_n_add. cbn zeta.
    destruct IH as (Hp & Hc & Hcfg); [lia|].
    set (s := Session.NextPhase_n (2 * k) _) in *.
    cbn [Session.NextPhase_n].
    destruct (NextPhase_work s Hp) as (Hc' & Hp' & Hcfg' & _ & Hbreak).
    assert (Hadd : GoInt.add (cyclesComplete s) 1 = Z.of_nat (S k)).
    { rewrite add_small; unfold GoInt.in_range, GoInt.min_int, GoInt.max_int in *; lia. }
    rewrite Hadd, Hcfg in *.
    destruct Hbreak as (_ & _ & Hb); [lia|].
    set (s1 := snd (Session.NextPhase s)) in *.
    rewrite <- Hp' in Hb.
    rewrite (NextPhase_break s1 Hb). cbn. auto.
Qed.

(** C2. [NextPhase] from Work counts one more completed cycle, then yields
    Done when a bound [C > 0] is set and reached, else LongBreak exactly when
    [F > 0] divides the new count, else ShortBreak; from a break it yields
    Work; from any phase but Done it counts one more completed phase.  In a
    session bounded by [C > 0] the completion of work cycle [C], and no
    earlier one, yields Done. *)
Theorem C2_next_phase :
  (forall s : Session,
      let C := TotalCycles (config s) in
      let F := LongBreakEvery (config s) in
      let p' := fst (Session.NextPhase s) in
      let s' := snd (Session.NextPhase s) in
      currentPhase s' = p'
      /\ (currentPhase s = PhaseWork ->
          cyclesComplete s' = GoInt.add (cyclesComplete s) 1
          /\ (cyclesComplete s < GoInt.max_int -> GoInt.min_int <= cyclesComplete s ->
              cyclesComplete s' = cyclesComplete s + 1)
          /\ (0 < C /\ C <= cyclesComplete s' -> p' = PhaseDone)
          /\ (~ (0 < C /\ C <= cyclesComplete s') ->
              (p' = PhaseLongBreak <-> 0 < F /\ (F | cyclesComplete s'))
              /\ (p' = PhaseShortBreak <-> ~ (0 < F /\ (F | cyclesComplete s')))))
      /\ (currentPhase s = PhaseShortBreak \/ currentPhase s = PhaseLongBreak ->
          p' = PhaseWork /\ cyclesComplete s' = cyclesComplete s)
      /\ (currentPhase s <> PhaseDone ->
          phasesComplete s' = GoInt.add (phasesComplete s) 1
          /\ (phasesComplete s < GoInt.max_int -> GoInt.min_int <= phasesComplete s ->
              phasesComplete s' = phasesComplete s + 1)))
  /\ (forall (cfg : Config) (k : nat),
        0 < TotalCycles cfg <= GoInt.max_int ->
        Z.of_nat k < TotalCycles cfg ->
        let s := Session.NextPhase_n (2 * k) (Session.NewSession cfg) in
        currentPhase s = PhaseWork
        /\ cyclesComplete s = Z.of_nat k
        /\ (Z.of_nat k + 1 = TotalCycles cfg -> fst (Session.NextPhase s) = PhaseDone)
        /\ (Z.of_nat k + 1 < TotalCycles cfg ->
            fst (Session.NextPhase s) = PhaseShortBreak
            \/ fst (Session.NextPhase s) = PhaseLongBreak)).
Proof.
  split.
  - intros s. cbn zeta. split; [symmetry; apply NextPhase_returns_current|].
    split; [|split].
    + intros Hp.
      destruct (NextPhase_work s Hp) as (Hc & _ & _ & Hdone & Hbreak).
      cbn zeta in *. rewrite Hc.
      split; [reflexivity|]. split.
      { intros. apply add_small.
        unfold GoInt.in_range, GoInt.min_int, GoInt.max_int in *. lia. }
      split; [exact Hdone|].
      intros Hn. destruct (Hbreak Hn) as (HL & HS & Hor).
      split; split; intros H.
      * destruct (Z_lt_dec 0 (LongBreakEvery (config s))) as [HF|HF].
        -- destruct (Z.eqb_spec
                       (Z.rem (GoInt.add (cyclesComplete s) 1) (LongBreakEvery (config s))) 0)
             as [E|E].
           ++ split; [exact HF|]. apply Z.rem_divide; [lia|exact E].
           ++ rewrite HS in H; [discriminate|].
              intros [_ Hd]. apply E. apply Z.rem_divide; [lia|exact Hd].
        -- rewrite HS in H; [discriminate|tauto].
      * apply HL, H.
      * intros Hd. rewrite (HL Hd) in H. discriminate.
      * apply HS, H.
    + intros Hb. now rewrite (NextPhase_break s Hb).
    + intros Hp. rewrite (NextPhase_phasesComplete s Hp).
      split; [reflexivity|].
      intros. apply add_small.
      unfold GoInt.in_range, GoInt.min_int, GoInt.max_int in *. lia.
  - intros cfg k HC Hk.
    destruct (bounded_run_invariant cfg k HC Hk) as (Hp & Hc & Hcfg).
    cbn zeta in *. set (s := Session.NextPhase_n (2 * k) _) in *.
    split; [exact Hp|]. split; [exact Hc|].
    destruct (NextPhase_work s Hp) as (_ & _ & _ & Hdone & Hbreak).
    cbn zeta in *.
    assert (Hadd : GoInt.add (cyclesComplete s) 1 = Z.of_nat k + 1).
    { rewrite Hc. apply add_small.
      unfold GoInt.in_range, GoInt.min_int, GoInt.max_int in *. lia. }
    rewrite Hadd, Hcfg in *.
    split; intros H.
    + apply Hdone. lia.
    + apply Hbreak. lia.
Qed.

Lemma C2_next_phase_witness :
  fst (Session.NextPhase (Session.NewSession cfg_4_2)) = PhaseShortBreak
  /\ fst (Session.NextPhase (Session.NextPhase_n 6 (Session.NewSession cfg_4_2)))
     = PhaseDone.
Proof.
  split.
  - destruct (proj1 C2_next_phase (Session.NewSession cfg_4_2))
      as (_ & Hwork & _).
    destruct (Hwork eq_refl) as (_ & _ & _ & Hbreak).
    apply Hbreak.
    + vm_compute. intros [_ H]. apply H. reflexivity.
    + intros [_ [z H]].
      replace (cyclesComplete _) with 1 in H by (vm_compute; reflexivity).
      change (LongBreakEvery _) with 2 in H. lia.
  - refine (proj1 (proj2 (proj2
      (proj2 C2_next_phase cfg_4_2 3%nat _ _))) _).
    + vm_compute. split; [reflexivity|discriminate].
    + vm_compute. reflexivity.
    + reflexivity.
Defined.

(** C6. From Done, [NextPhase] returns Done and leaves the session as it
    was: the current phase and the three counters are unchanged, and calling
    it again changes nothing either. *)
Theorem C6_done_is_terminal (s : Session) :
  currentPhase s = PhaseDone ->
  Session.NextPhase s = (PhaseDone, s)
  /\ forall n, Session.NextPhase_n n s = s.
Proof.
  intros Hp. split; [apply NextPhase_done, Hp|].
  induction n as [|n IH]; cbn [Session.NextPhase_n]; [reflexivity|].
  now rewrite (NextPhase_done s Hp).
Qed.

Lemma C6_done_is_terminal_witness :
  let s := Session.NextPhase_n 7 (Session.NewSession cfg_4_2) in
  currentPhase s = PhaseDone /\ Session.NextPhase s = (PhaseDone, s).
Proof.
  cbn zeta.
  assert (H : currentPhase (Session.NextPhase_n 7 (Session.NewSession cfg_4_2))
              = PhaseDone) by (vm_compute; reflexivity).
  split; [exact H|].
  exact (proj1 (C6_done_is_terminal _ H)).
Defined.

Lemma NextPhase_frame s :
  config (snd (Session.NextPhase s)) = config s
  /\ totalPhases (snd (Session.NextPhase s)) = totalPhases s.
Proof.
  rewrite NextPhase_unfold. unfold NextPhase_spec.
  destruct (currentPhase s); cbn; auto.
Qed.

Lemma getters_frame s o :
  o <> Session.OpNextPhase -> Session.exec o s = s.
Proof.
  destruct o; intros H; try reflexivity; [|congruence].
  unfold Session.exec, Session.PhaseDuration, Session.bind, Session.gets, Session.ret.
  destruct (currentPhase s); reflexivity.
Qed.

(** C7. Whatever operations are called on a session after [NewSession], its
    configuration and its total-phase count stay what [NewSession] made
    them; [NextPhase] keeps both, and every other operation returns the
    session unchanged. *)
Theorem C7_config_and_total_frame :
  (forall (cfg : Config) (ops : list Session.Op),
      let s := Session.exec_all ops (Session.NewSession cfg) in
      config s = cfg /\ totalPhases s = totalPhases (Session.NewSession cfg))
  /\ (forall s : Session,
        config (snd (Session.NextPhase s)) = config s
        /\ totalPhases (snd (Session.NextPhase s)) = totalPhases s)
  /\ (forall s : Session,
        snd (Session.PhaseDuration s) = s
        /\ snd (Session.CurrentPhase s) = s
        /\ snd (Session.CyclesComplete s) = s
        /\ snd (Session.TotalCycles s) = s
        /\ snd (Session.TotalPhases s) = s
        /\ snd (Session.PhasesComplete s) = s).
Proof.
  split; [|split].
  - intros cfg ops. cbn zeta.
    assert (G : forall s, config (Session.exec_all ops s) = config s
                          /\ totalPhases (Session.exec_all ops s) = totalPhases s).
    { induction ops as [|o ops IH]; intros s; [now cbn|].
      unfold Session.exec_all in *. cbn [fold_left].
      destruct (IH (Session.exec o s)) as [H1 H2]. rewrite H1, H2.
      destruct o; try (rewrite getters_frame by discriminate; auto).
      apply NextPhase_frame. }
    destruct (G (Session.NewSession cfg)) as [H1 H2].
    rewrite H1, H2, NewSession_eq. auto.
  - apply NextPhase_frame.
  - intros s. repeat split.
    apply (getters_frame s Session.OpPhaseDuration). discriminate.
Qed.

(** ** The mock clock *)

Lemma earliest_from_ok ts : forall pre acc,
  earliest_of pre acc ->
  earliest_of (pre ++ ts) (MockClock.earliest_from ts (length pre) acc).
Proof.
  induction ts as [|t ts IH]; intros pre acc Hacc.
  - now rewrite app_nil_r.
  - cbn [MockClock.earliest_from].
    replace (pre ++ t :: ts) with ((pre ++ [t]) ++ ts) by now rewrite <- app_assoc.
    replace (S (length pre)) with (length (pre ++ [t])) by (rewrite length_app; cbn; lia).
    assert (Hsnoc : forall j x, (pre ++ [t]) !! j = Some x ->
                     pre !! j = Some x \/ (j = length pre /\ x = t)).
    { intros j x Hj. apply lookup_app_Some in Hj as [Hj|[Hlen Hj]]; [now left|right].
      apply list_lookup_singleton_Some in Hj as [Hj ->]. split; [lia|reflexivity]. }
    destruct (stopped t) eqn:Hst.
    + apply IH. destruct acc as [[k e]|]; cbn in *.
      * destruct Hacc as (Hk & He & Hmin). repeat split; [|assumption|].
        -- now apply lookup_app_l_Some.
        -- intros j x Hj Hx. destruct (Hsnoc j x Hj) as [Hj'|[_ ->]]; [eauto|congruence].
      * intros j x Hj. destruct (Hsnoc j x Hj) as [Hj'|[_ ->]]; eauto.
    + assert (Hnew : pre !! length pre = None -> (pre ++ [t]) !! length pre = Some t).
      { intros _. rewrite lookup_app_r by lia. now rewrite Nat.sub_diag. }
      destruct acc as [[k e]|]; cbn in Hacc.
      * destruct Hacc as (Hk & He & Hmin).
        destruct (Z.ltb_spec (nextTick t) (nextTick e)) as [Hlt|Hge]; apply IH; cbn.
        -- repeat split; [apply Hnew, lookup_ge_None_2; lia|assumption|].
           intros j x Hj Hx. destruct (Hsnoc j x Hj) as [Hj'|[_ ->]]; [|lia].
           specialize (Hmin j x Hj' Hx). lia.
        -- repeat split; [now apply lookup_app_l_Some|assumption|].
           intros j x Hj Hx. destruct (Hsnoc j x Hj) as [Hj'|[_ ->]]; [eauto|lia].
      * apply IH. cbn.
        repeat split; [apply Hnew, lookup_ge_None_2; lia|assumption|].
        intros j x Hj Hx. destruct (Hsnoc j x Hj) as [Hj'|[_ ->]]; [|lia].
        specialize (Hacc j x Hj'). congruence.
Qed.

Lemma find_earliest_ok m : earliest_of (tickers m) (MockClock.find_earliest m).
Proof.
  unfold MockClock.find_earliest.
  apply (earliest_from_ok (tickers m) [] None). intros j t Hj. discriminate.
Qed.

(** The three ways a turn of the loop can go. *)
Lemma Advance_body_cases target m :
  (MockClock.find_earliest m = None
   /\ MockClock.Advance_body target m = MockClock.Break (MockClock.set_current target m))
  \/ (exists i e, MockClock.find_earliest m = Some (i, e) /\ target < nextTick e
      /\ MockClock.Advance_body target m = MockClock.Break (MockClock.set_current target m))
  \/ (exists i e, MockClock.find_earliest m = Some (i, e) /\ nextTick e <= target
      /\ MockClock.Advance_body target m
         = MockClock.Again i (nextTick e) (MockClock.fire i e m)).
Proof.
  unfold MockClock.Advance_body.
  destruct (MockClock.find_earliest m) as [[i e]|]; [|now left].
  right. destruct (Z.ltb_spec target (nextTick e)); [left|right]; eauto.
Qed.

Lemma fire_current i e m : current (MockClock.fire i e m) = nextTick e.
Proof. reflexivity. Qed.

Lemma fire_tickers i e m :
  tickers (MockClock.fire i e m)
  = <[i := mkTicker (interval e) (MockClock.try_send (nextTick e) (ch e))
            (nextTick e + interval e) (stopped e)]> (tickers m).
Proof. reflexivity. Qed.

Lemma owed_total_cons target t ts :
  MockClock.owed_total target (t :: ts)
  = (MockClock.owed target t + MockClock.owed_total target ts)%nat.
Proof. reflexivity. Qed.

Lemma owed_total_insert target ts : forall i e e',
  ts !! i = Some e ->
  (MockClock.owed_total target (<[i := e']> ts) + MockClock.owed target e
   = MockClock.owed_total target ts + MockClock.owed target e')%nat.
Proof.
  induction ts as [|t ts IH]; intros [|i] e e' Hi; try discriminate.
  - injection Hi as ->.
    change (<[0%nat := e']> (e :: ts)) with (e' :: ts).
    rewrite !owed_total_cons. lia.
  - change (<[S i := e']> (t :: ts)) with (t :: <[i := e']> ts).
    rewrite !owed_total_cons.
    specialize (IH i e e' Hi). lia.
Qed.

Lemma fire_positive_intervals i e m :
  tickers m !! i = Some e -> positive_intervals m ->
  positive_intervals (MockClock.fire i e m).
Proof.
  unfold positive_intervals. intros Hi Hpos. rewrite fire_tickers.
  apply Forall_insert; [assumption|]. cbn.
  exact (proj1 (Forall_lookup _ _) Hpos i e Hi).
Qed.

(** A tick moves its ticker's next instant forward, and takes one off what
    the running tickers owe. *)
Lemma fire_progress target i e m :
  tickers m !! i = Some e -> stopped e = false -> nextTick e <= target ->
  0 < interval e ->
  (exists e', tickers (MockClock.fire i e m) !! i = Some e'
              /\ nextTick e' = nextTick e + interval e /\ nextTick e < nextTick e')
  /\ (MockClock.owed_total target (tickers (MockClock.fire i e m))
      < MockClock.owed_total target (tickers m))%nat.
Proof.
  intros Hi Hst Hdue Hpos. rewrite fire_tickers. split.
  - eexists. split; [apply list_lookup_insert_eq; apply lookup_lt_Some in Hi; lia|].
    cbn. lia.
  - pose proof (owed_total_insert target (tickers m) i e
      (mkTicker (interval e) (MockClock.try_send (nextTick e) (ch e))
         (nextTick e + interval e) (stopped e)) Hi) as H.
    set (a := MockClock.owed_total target (<[i := _]> (tickers m))) in *.
    set (b := MockClock.owed_total target (tickers m)) in *.
    unfold MockClock.owed in H. cbn [stopped nextTick] in H. rewrite Hst in H.
    lia.
Qed.

Lemma Advance_loop_terminates target : forall n m,
  positive_intervals m ->
  (MockClock.owed_total target (tickers m) <= n)%nat ->
  exists m', MockClock.Advance_loop (S n) target m = Some m'.
Proof.
  induction n as [|n IH]; intros m Hpos Hn; cbn [MockClock.Advance_loop];
    destruct (current m <? target); eauto;
    destruct (Advance_body_cases target m)
      as [[_ ->]|[(i & e & _ & _ & ->)|(i & e & Hf & Hdue & ->)]]; eauto;
    pose proof (find_earliest_ok m) as Hok; rewrite Hf in Hok;
    destruct Hok as (Hi & Hst & _);
    assert (Hint : 0 < interval e)
      by (exact (proj1 (Forall_lookup _ _) Hpos i e Hi Hst));
    destruct (fire_progress target i e m Hi Hst Hdue Hint) as [_ Hlt].
  - lia.
  - apply IH; [now apply fire_positive_intervals|lia].
Qed.

Lemma Advance_loop_more_fuel target : forall n m m',
  MockClock.Advance_loop n target m = Some m' ->
  forall k, (n <= k)%nat -> MockClock.Advance_loop k target m = Some m'.
Proof.
  induction n as [|n IH]; intros m m' H [|k] Hk; cbn [MockClock.Advance_loop] in *;
    destruct (current m <? target); try discriminate; try assumption; try lia.
  destruct (MockClock.Advance_body target m); [assumption|].
  apply (IH _ _ H). lia.
Qed.

Lemma firings_bounded target : forall n m,
  positive_intervals m ->
  (length (MockClock.firings n target m) <= MockClock.owed_total target (tickers m))%nat.
Proof.
  induction n as [|n IH]; intros m Hpos; cbn [MockClock.firings];
    destruct (current m <? target); cbn [length]; try lia.
  destruct (Advance_body_cases target m)
    as [[_ ->]|[(i & e & _ & _ & ->)|(i & e & Hf & Hdue & ->)]]; cbn [length]; try lia.
  pose proof (find_earliest_ok m) as Hok. rewrite Hf in Hok.
  destruct Hok as (Hi & Hst & _).
  assert (Hint : 0 < interval e)
    by (exact (proj1 (Forall_lookup _ _) Hpos i e Hi Hst)).
  destruct (fire_progress target i e m Hi Hst Hdue Hint) as [_ Hlt].
  specialize (IH (MockClock.fire i e m) (fire_positive_intervals i e m Hi Hpos)).
  lia.
Qed.

(** C10. When every running ticker has a positive interval, [Advance]
    returns for every amount [d]: as many turns of its loop as the running
    tickers owe ticks up to the target are enough, more turns change nothing,
    no more ticks than that are fired, and each tick moves its ticker's next
    instant strictly forward. *)
Theorem C10_advance_terminates (m : MockClock) (d : Z) :
  positive_intervals m ->
  let target := current m + d in
  let fuel := S (MockClock.owed_total target (tickers m)) in
  (exists m', MockClock.Advance fuel d m = Some m'
              /\ forall k, (fuel <= k)%nat -> MockClock.Advance k d m = Some m')
  /\ (forall n, (length (MockClock.firings n target m) < fuel)%nat)
  /\ (forall i a m1, MockClock.Advance_body target m = MockClock.Again i a m1 ->
        exists e e', tickers m !! i = Some e /\ tickers m1 !! i = Some e'
                     /\ nextTick e < nextTick e').
Proof.
  intros Hpos target fuel. split; [|split].
  - destruct (Advance_loop_terminates target _ m Hpos (Nat.le_refl _)) as [m' Hm'].
    exists m'. split; [exact Hm'|].
    intros k Hk. exact (Advance_loop_more_fuel target _ m m' Hm' k Hk).
  - intros n. pose proof (firings_bounded target n m Hpos). unfold fuel. lia.
  - intros i a m1 Hb.
    destruct (Advance_body_cases target m)
      as [[_ E]|[(i' & e & _ & _ & E)|(i' & e & Hf & Hdue & E)]];
      rewrite E in Hb; try discriminate.
    injection Hb as <- <- <-.
    pose proof (find_earliest_ok m) as Hok. rewrite Hf in Hok.
    destruct Hok as (Hi & Hst & _).
    assert (Hint : 0 < interval e)
      by (exact (proj1 (Forall_lookup _ _) Hpos i' e Hi Hst)).
    destruct (fire_progress target i' e m Hi Hst Hdue Hint) as [(e' & He' & _ & Hlt) _].
    eauto.
Qed.

Lemma C10_advance_terminates_witness :
  positive_intervals clock_3_5
  /\ exists m', MockClock.Advance 35 20 clock_3_5 = Some m' /\ current m' = 20.
Proof.
  assert (Hpos : positive_intervals clock_3_5).
  { unfold positive_intervals. cbn. repeat constructor. }
  split; [exact Hpos|].
  destruct (proj1 (C10_advance_terminates clock_3_5 20 Hpos)) as (m' & _ & Hk).
  exists m'. split.
  - apply Hk. vm_compute. lia.
  - specialize (Hk 35%nat). vm_compute in Hk.
    assert (E : Some (mkClock 20 [mkTicker 3 [3] 21 false; mkTicker 5 [5] 25 false]) = Some m')
      by (apply Hk; lia).
    injection E as <-. reflexivity.
Defined.

Lemma firings_head target fuel m i a rest :
  MockClock.firings fuel target m = (i, a) :: rest ->
  current m < target
  /\ exists e, MockClock.find_earliest m = Some (i, e) /\ a = nextTick e.
Proof.
  destruct fuel as [|fuel]; cbn [MockClock.firings];
    destruct (Z.ltb_spec (current m) target); try discriminate.
  destruct (Advance_body_cases target m)
    as [[_ ->]|[(i' & e & _ & _ & ->)|(i' & e & Hf & _ & ->)]]; try discriminate.
  intros Heq. injection Heq as <- <- _. eauto.
Qed.

Lemma stuck_never_returns target : forall fuel m,
  stuck_ticker target m -> MockClock.Advance_loop fuel target m = None.
Proof.
  induction fuel as [|fuel IH]; intros m (Hcur & j & t & Hj & Hst & Hint & Hdue);
    cbn [MockClock.Advance_loop]; apply Z.ltb_lt in Hcur as Hcur'; rewrite Hcur';
    [reflexivity|].
  pose proof (find_earliest_ok m) as Hok.
  destruct (Advance_body_cases target m)
    as [[Hf ->]|[(i & e & Hf & Hnot & ->)|(i & e & Hf & He & ->)]]; rewrite Hf in Hok.
  - cbn in Hok. specialize (Hok j t Hj). congruence.
  - destruct Hok as (_ & _ & Hmin). specialize (Hmin j t Hj Hst). lia.
  - destruct Hok as (Hi & Hsti & Hmin). specialize (Hmin j t Hj Hst).
    apply IH. split; [rewrite fire_current; lia|].
    rewrite fire_tickers.
    destruct (Nat.eq_dec i j) as [->|Hne].
    + assert (t = e) by congruence. subst t.
      eexists j, _. split; [apply list_lookup_insert_eq; apply lookup_lt_Some in Hj; lia|].
      cbn. repeat split; [assumption|lia|lia].
    + exists j, t. rewrite list_lookup_insert_ne by assumption. auto.
Qed.

(** The ticks of one call come in chronological order. *)
Lemma firings_sorted target : forall fuel m m',
  MockClock.Advance_loop fuel target m = Some m' ->
  Sorted Z.le (map snd (MockClock.firings fuel target m)).
Proof.
  induction fuel as [|fuel IH]; intros m m' H;
    cbn [MockClock.firings MockClock.Advance_loop] in *;
    destruct (Z.ltb_spec (current m) target) as [Hcur|Hcur]; try constructor.
  pose proof (find_earliest_ok m) as Hok.
  destruct (Advance_body_cases target m)
    as [[_ E]|[(i & e & _ & _ & E)|(i & e & Hf & He & E)]]; rewrite E in *;
    try constructor.
  - exact (IH _ _ H).
  - rewrite Hf in Hok. destruct Hok as (Hi & Hsti & Hmin).
    destruct (MockClock.firings fuel target (MockClock.fire i e m))
      as [|[i1 a1] rest] eqn:Hlog; constructor.
    apply firings_head in Hlog as (Hcur1 & e1 & Hf1 & ->).
    rewrite fire_current in Hcur1.
    cbn [snd].
    pose proof (find_earliest_ok (MockClock.fire i e m)) as Hok1.
    rewrite Hf1 in Hok1. destruct Hok1 as (Hi1 & Hst1 & _).
    rewrite fire_tickers in Hi1.
    destruct (Nat.eq_dec i i1) as [<-|Hne].
    + rewrite list_lookup_insert_eq in Hi1 by (apply lookup_lt_Some in Hi; lia).
      injection Hi1 as <-. cbn [nextTick].
      destruct (Z_le_gt_dec 0 (interval e)) as [Hpos|Hneg]; [lia|].
      exfalso.
      assert (Hstuck : stuck_ticker target (MockClock.fire i e m)).
      { split; [rewrite fire_current; lia|].
        eexists i, _. rewrite fire_tickers.
        split; [apply list_lookup_insert_eq; apply lookup_lt_Some in Hi; lia|].
        cbn. repeat split; [assumption|lia|lia]. }
      rewrite (stuck_never_returns target fuel _ Hstuck) in H. discriminate.
    + rewrite list_lookup_insert_ne in Hi1 by assumption.
      exact (Hmin i1 e1 Hi1 Hst1).
Qed.

Lemma firings_before_target target : forall fuel m,
  Forall (fun x => snd x <= target) (MockClock.firings fuel target m).
Proof.
  induction fuel as [|fuel IH]; intros m; cbn [MockClock.firings];
    destruct (current m <? target); try constructor.
  destruct (Advance_body_cases target m)
    as [[_ ->]|[(i & e & _ & _ & ->)|(i & e & _ & He & ->)]]; constructor;
    [exact He|apply IH].
Qed.

(** A call that goes round the loop at all leaves the clock at [target]. *)
Lemma Advance_loop_reaches_target target : forall fuel m m',
  MockClock.Advance_loop fuel target m = Some m' ->
  current m < target -> current m' = target.
Proof.
  induction fuel as [|fuel IH]; intros m m' H Hcur;
    cbn [MockClock.Advance_loop] in H; apply Z.ltb_lt in Hcur as Hcur';
    rewrite Hcur' in H; [discriminate|].
  destruct (Advance_body_cases target m)
    as [[_ E]|[(i & e & _ & _ & E)|(i & e & _ & He & E)]]; rewrite E in H.
  - now injection H as <-.
  - now injection H as <-.
  - destruct (Z_lt_dec (nextTick e) target) as [Hlt|Hge].
    + apply (IH _ _ H). now rewrite fire_current.
    + destruct fuel; cbn [MockClock.Advance_loop] in H; rewrite fire_current in H;
        (destruct (Z.ltb_spec (nextTick e) target); [lia|]);
        injection H as <-; rewrite fire_current; lia.
Qed.

(** With nothing to advance to, the loop is not entered. *)
Lemma Advance_loop_noop target fuel m :
  target <= current m ->
  MockClock.Advance_loop fuel target m = Some m
  /\ MockClock.firings fuel target m = [].
Proof.
  intros H. destruct fuel; cbn [MockClock.Advance_loop MockClock.firings];
    destruct (Z.ltb_spec (current m) target); auto; lia.
Qed.

(** A running ticker due before [target] ticks at least once. *)
Lemma due_before_target_fires target : forall fuel m m',
  MockClock.Advance_loop fuel target m = Some m' ->
  current m < target ->
  forall j t, tickers m !! j = Some t -> stopped t = false -> nextTick t < target ->
  (0 < ticks_of j (MockClock.firings fuel target m))%nat.
Proof.
  induction fuel as [|fuel IH]; intros m m' H Hcur j t Hj Hst Hdue;
    cbn [MockClock.Advance_loop MockClock.firings] in *;
    apply Z.ltb_lt in Hcur as Hcur'; rewrite Hcur' in *; [discriminate|].
  pose proof (find_earliest_ok m) as Hok.
  destruct (Advance_body_cases target m)
    as [[Hf E]|[(i & e & Hf & Hnot & E)|(i & e & Hf & He & E)]];
    rewrite E in *; rewrite Hf in Hok.
  - cbn in Hok. specialize (Hok j t Hj). congruence.
  - destruct Hok as (_ & _ & Hmin). specialize (Hmin j t Hj Hst). lia.
  - destruct Hok as (Hi & Hsti & Hmin). specialize (Hmin j t Hj Hst).
    cbn [ticks_of]. destruct (Nat.eqb_spec i j) as [->|Hne]; [lia|].
    apply (IH _ _ H) with (t := t); [rewrite fire_current; lia| |exact Hst|exact Hdue].
    rewrite fire_tickers, list_lookup_insert_ne by assumption. exact Hj.
Qed.

Lemma try_send_empty v : MockClock.try_send v [] = [v].
Proof. reflexivity. Qed.

Lemma try_send_pending v c : c <> [] -> MockClock.try_send v c = c.
Proof. destruct c; [congruence|reflexivity]. Qed.

Lemma try_send_length v c :
  (length c <= MockClock.chan_cap)%nat ->
  (length (MockClock.try_send v c) <= MockClock.chan_cap)%nat.
Proof.
  unfold MockClock.try_send, MockClock.chan_cap.
  destruct (Nat.ltb_spec (length c) 1); [|auto].
  rewrite length_app. cbn. lia.
Qed.

(** What one call does to each ticker: as many reschedulings by its interval
    as it ticked, a stopped ticker never ticks, and a tick is delivered only
    into an empty channel. *)
Lemma Advance_loop_tickers target : forall fuel m m',
  MockClock.Advance_loop fuel target m = Some m' ->
  length (tickers m') = length (tickers m)
  /\ forall j t, tickers m !! j = Some t ->
     let n := ticks_of j (MockClock.firings fuel target m) in
     exists t', tickers m' !! j = Some t'
       /\ interval t' = interval t /\ stopped t' = stopped t
       /\ nextTick t' = nextTick t + Z.of_nat n * interval t
       /\ (stopped t = true -> n = O)
       /\ (n = O -> t' = t)
       /\ (ch t <> [] -> ch t' = ch t)
       /\ (ch t = [] -> (0 < n)%nat -> exists a, ch t' = [a] /\ a <= target).
Proof.
  assert (Hsame : forall m j t, tickers m !! j = Some t ->
    exists t', tickers m !! j = Some t'
      /\ interval t' = interval t /\ stopped t' = stopped t
      /\ nextTick t' = nextTick t + Z.of_nat 0 * interval t
      /\ (stopped t = true -> O = O) /\ (O = O -> t' = t)
      /\ (ch t <> [] -> ch t' = ch t)
      /\ (ch t = [] -> (0 < 0)%nat -> exists a, ch t' = [a] /\ a <= target)).
  { intros m j t Hj. exists t. repeat split; auto; try lia. }
  induction fuel as [|fuel IH]; intros m m' H;
    cbn [MockClock.Advance_loop MockClock.firings] in *;
    destruct (current m <? target); try discriminate;
    try (injection H as <-; split; [reflexivity|]; intros j t Hj; cbn; now apply Hsame).
  pose proof (find_earliest_ok m) as Hok.
  destruct (Advance_body_cases target m)
    as [[_ E]|[(i & e & _ & _ & E)|(i & e & Hf & He & E)]]; rewrite E in *;
    try (injection H as <-; split; [reflexivity|]; intros j t Hj; cbn;
         now apply (Hsame m)).
  rewrite Hf in Hok. destruct Hok as (Hi & Hsti & _).
  destruct (IH _ _ H) as [Hlen Hall]. rewrite fire_tickers in Hlen, Hall.
  rewrite length_insert in Hlen. split; [exact Hlen|].
  intros j t Hj. cbn [ticks_of]. cbn zeta.
  destruct (Nat.eqb_spec i j) as [->|Hne].
  - assert (t = e) by congruence. subst t.
    edestruct (Hall j) as (t' & Hj' & Hint & Hst & Hnext & Hstop & Hzero & Hfull & Hempty).
    { apply list_lookup_insert_eq. apply lookup_lt_Some in Hj. lia. }
    cbn [interval stopped nextTick ch] in *.
    exists t'. repeat split; try assumption; try congruence; try lia.
    + intros Hc. rewrite try_send_pending in Hfull by assumption.
      apply Hfull, Hc.
    + intros Hc _. rewrite Hc, try_send_empty in Hfull.
      exists (nextTick e). split; [apply Hfull; discriminate|exact He].
  - apply Hall. now rewrite list_lookup_insert_ne.
Qed.

Lemma Advance_loop_one_pending target fuel m m' :
  MockClock.Advance_loop fuel target m = Some m' ->
  one_pending m -> one_pending m'.
Proof.
  intros H Hone. destruct (Advance_loop_tickers target fuel m m' H) as [Hlen Hall].
  unfold one_pending in *. apply Forall_lookup. intros j t' Hj'.
  destruct (tickers m !! j) as [t|] eqn:Hj.
  - destruct (Hall j t Hj) as (t'' & Hj'' & _ & _ & _ & _ & Hzero & Hfull & Hempty).
    assert (t'' = t') by congruence. subst t''.
    pose proof (proj1 (Forall_lookup _ _) Hone j t Hj) as Ht. cbn beta in Ht.
    destruct (ch t) as [|v c] eqn:Hc.
    + destruct (ticks_of j (MockClock.firings fuel target m)) eqn:Hn.
      * rewrite (Hzero eq_refl), Hc. exact Ht.
      * destruct Hempty as (a & -> & _); [reflexivity|lia|]. cbn. unfold MockClock.chan_cap. lia.
    + rewrite Hfull by discriminate. exact Ht.
  - apply lookup_ge_None in Hj. apply lookup_lt_Some in Hj'. lia.
Qed.

Lemma NewTicker_one_pending d m :
  one_pending m -> one_pending (snd (MockClock.NewTicker d m)).
Proof.
  unfold one_pending. cbn. intros H. apply Forall_app. split; [exact H|].
  constructor; [cbn; unfold MockClock.chan_cap; lia|constructor].
Qed.

Lemma Stop_one_pending i m : one_pending m -> one_pending (MockClock.Stop i m).
Proof.
  unfold one_pending. cbn. intros H. apply Forall_alter; [exact H|].
  intros t _ Ht. exact Ht.
Qed.

Lemma Receive_one_pending i m v m' :
  MockClock.Receive i m = Some (v, m') -> one_pending m -> one_pending m'.
Proof.
  unfold MockClock.Receive, one_pending.
  destruct (tickers m !! i) as [t|] eqn:Hi; [|discriminate].
  destruct (ch t) as [|w c] eqn:Hc; [discriminate|]. cbn.
  intros H Hone. injection H as <- <-. cbn.
  apply Forall_insert; [exact Hone|]. cbn.
  pose proof (proj1 (Forall_lookup _ _) Hone i t Hi) as Ht. cbn beta in Ht.
  rewrite Hc in Ht. cbn in Ht. lia.
Qed.

(** With no running ticker due at or before [target], the clock jumps there
    and no tick is fired. *)
Lemma Advance_loop_jump target fuel m m' :
  MockClock.Advance_loop fuel target m = Some m' ->
  current m < target ->
  (forall j t, tickers m !! j = Some t -> stopped t = false -> target < nextTick t) ->
  m' = MockClock.set_current target m /\ MockClock.firings fuel target m = [].
Proof.
  intros H Hcur Hnone. apply Z.ltb_lt in Hcur as Hcur'.
  destruct fuel as [|fuel]; cbn [MockClock.Advance_loop MockClock.firings] in *;
    rewrite Hcur' in *; [discriminate|].
  pose proof (find_earliest_ok m) as Hok.
  destruct (Advance_body_cases target m)
    as [[_ E]|[(i & e & _ & _ & E)|(i & e & Hf & He & E)]]; rewrite E in *.
  - now injection H as <-.
  - now injection H as <-.
  - rewrite Hf in Hok. destruct Hok as (Hi & Hsti & _).
    specialize (Hnone i e Hi Hsti). lia.
Qed.

(** Two tickers due at the very target: the first ticks, the clock reaches
    the target, and the loop ends with the second still due. *)
Example advance_two_tickers :
  MockClock.Advance 5 10 clock_two_tickers
  = Some (mkClock 10 [mkTicker 10 [10] 20 false; mkTicker 10 [] 10 false])
  /\ MockClock.firings 5 10 clock_two_tickers = [(0%nat, 10)].
Proof. split; reflexivity. Qed.

(** A negative amount leaves the clock where it is. *)
Example advance_negative :
  MockClock.Advance 5 (-5) (MockClock.NewMockClock 100)
  = Some (MockClock.NewMockClock 100).
Proof. reflexivity. Qed.

Example advance_3_5 :
  MockClock.Advance 35 20 clock_3_5
  = Some (mkClock 20 [mkTicker 3 [3] 21 false; mkTicker 5 [5] 25 false])
  /\ MockClock.firings 35 20 clock_3_5
     = [(0%nat, 3); (1%nat, 5); (0%nat, 6); (0%nat, 9); (1%nat, 10); (0%nat, 12);
        (0%nat, 15); (1%nat, 15); (0%nat, 18); (1%nat, 20)].
Proof. split; reflexivity. Qed.

(** C8, as stated, fails: a negative amount does not move the clock to
    [current + d], and of two running tickers due exactly at the target only
    the first ticks. *)
Lemma C8_advance_counterexample :
  ~ advance_as_specified (MockClock.NewMockClock 100) (-5)
  /\ ~ advance_as_specified clock_two_tickers 10.
Proof.
  split; intros H.
  - destruct (H 5%nat (MockClock.NewMockClock 100) eq_refl) as [Hcur _].
    discriminate Hcur.
  - destruct (H 5%nat _ (proj1 advance_two_tickers)) as [_ Hall].
    specialize (Hall 1%nat (mkTicker 10 [] 10 false) eq_refl eq_refl).
    change (current clock_two_tickers + 10) with 10 in Hall.
    rewrite (proj2 advance_two_tickers) in Hall.
    change (ticks_of 1 [(0%nat, 10)]) with O in Hall.
    cbn [nextTick] in Hall. lia.
Qed.

(** C8, amended. For a call of [Advance] that returns: for [d > 0] the clock
    ends at [current + d], for [d <= 0] nothing changes; the ticks are fired
    one per turn, in chronological order and none after the target, each by
    the earliest running ticker at its next instant; every running ticker
    due strictly before the target ticks; each tick reschedules its ticker
    by its interval and a stopped ticker never ticks; when no running ticker
    is due at or before the target the clock jumps there without a tick; a
    tick is dropped when one is pending, so no channel holds more than one. *)
Theorem C8_advance_amended (m : MockClock) (d : Z) (fuel : nat) (m' : MockClock) :
  MockClock.Advance fuel d m = Some m' ->
  let target := current m + d in
  let log := MockClock.firings fuel target m in
  (0 < d -> current m' = target)
  /\ (d <= 0 -> m' = m /\ log = [])
  /\ Sorted Z.le (map snd log)
  /\ Forall (fun x => snd x <= target) log
  /\ (forall i a rest, log = (i, a) :: rest ->
        exists e, MockClock.find_earliest m = Some (i, e) /\ a = nextTick e
                  /\ earliest_of (tickers m) (Some (i, e)))
  /\ (0 < d -> forall j t, tickers m !! j = Some t -> stopped t = false ->
        nextTick t < target -> (0 < ticks_of j log)%nat)
  /\ (0 < d ->
      (forall j t, tickers m !! j = Some t -> stopped t = false -> target < nextTick t) ->
      m' = MockClock.set_current target m /\ log = [])
  /\ (length (tickers m') = length (tickers m)
      /\ forall j t, tickers m !! j = Some t ->
         exists t', tickers m' !! j = Some t'
           /\ interval t' = interval t /\ stopped t' = stopped t
           /\ nextTick t' = nextTick t + Z.of_nat (ticks_of j log) * interval t
           /\ (stopped t = true -> ticks_of j log = O)
           /\ (ticks_of j log = O -> t' = t)
           /\ (ch t <> [] -> ch t' = ch t)
           /\ (ch t = [] -> (0 < ticks_of j log)%nat ->
               exists a, ch t' = [a] /\ a <= target))
  /\ (forall v c, c <> [] -> MockClock.try_send v c = c)
  /\ (one_pending m -> one_pending m').
Proof.
  unfold MockClock.Advance. intros H. cbn zeta.
  set (target := current m + d) in *.
  repeat apply conj.
  - intros Hd. apply (Advance_loop_reaches_target target fuel m m' H). lia.
  - intros Hd.
    destruct (Advance_loop_noop target fuel m) as [E1 E2]; [lia|].
    split; [congruence|exact E2].
  - exact (firings_sorted target fuel m m' H).
  - apply firings_before_target.
  - intros i a rest Hlog.
    apply firings_head in Hlog as (_ & e & Hf & ->).
    exists e. repeat split; try assumption.
    + pose proof (find_earliest_ok m) as Hok. rewrite Hf in Hok. apply Hok.
    + pose proof (find_earliest_ok m) as Hok. rewrite Hf in Hok. apply Hok.
    + pose proof (find_earliest_ok m) as Hok. rewrite Hf in Hok. apply Hok.
  - intros Hd. apply (due_before_target_fires target fuel m m' H). lia.
  - intros Hd. apply (Advance_loop_jump target fuel m m' H). lia.
  - apply (Advance_loop_tickers target fuel m m' H).
  - apply (Advance_loop_tickers target fuel m m' H).
  - apply try_send_pending.
  - apply (Advance_loop_one_pending target fuel m m' H).
Qed.

Lemma C8_advance_amended_witness :
  MockClock.Advance 35 20 clock_3_5
  = Some (mkClock 20 [mkTicker 3 [3] 21 false; mkTicker 5 [5] 25 false])
  /\ (0 < ticks_of 1 (MockClock.firings 35 (current clock_3_5 + 20) clock_3_5))%nat.
Proof.
  split; [exact (proj1 advance_3_5)|].
  destruct (C8_advance_amended clock_3_5 20 35 _ (proj1 advance_3_5))
    as (_ & _ & _ & _ & _ & Hdue & _).
  apply (Hdue ltac:(lia) 1%nat (mkTicker 5 [] 5 false)); [reflexivity|reflexivity|].
  cbn. lia.
Defined.

(** ** The timer loop *)

Lemma select_or_done_spec env a t w :
  let s := select_at env (select_calls w) in
  let c := ctx_cancelled w || cancel_now s in
  (Timer.select_or_done env a t w
   = Parked t (mkWorld (now_calls w) (select_calls w) c (trace w))
   /\ c = false /\ comm_ready s = false)
  \/ (Timer.select_or_done env a t w
      = Returned Proceed t (mkWorld (now_calls w) (S (select_calls w)) c (a :: trace w))
      /\ comm_ready s = true /\ (c = true -> prefer_ctx s = false))
  \/ (Timer.select_or_done env a t w
      = Returned CtxDone t
          (mkWorld (now_calls w) (S (select_calls w)) c (ActCtxDone :: trace w))
      /\ c = true /\ (comm_ready s = true -> prefer_ctx s = true)).
Proof.
  cbn zeta. unfold Timer.select_or_done, select.
  destruct (ctx_cancelled w || cancel_now (select_at env (select_calls w)));
    destruct (comm_ready (select_at env (select_calls w)));
    try destruct (prefer_ctx (select_at env (select_calls w))); auto 10.
Qed.

(** One turn of the loop of [runPhase]. *)
Lemma runPhase_loop_unfold env fuel duration start ti s w :
  Timer.runPhase_loop env (S fuel) duration start (mkTimer ti s) w
  = let ev := event_at s duration start (clock_now env (now_calls w)) in
    let w1 := mkWorld (S (now_calls w)) (select_calls w) (ctx_cancelled w) (trace w) in
    match Timer.select_or_done env (ActSend ev) (mkTimer ti s) w1 with
    | Returned Proceed t2 w2 =>
        if TimerEvent.PhaseComplete ev then Returned ErrNil t2 w2
        else
          match Timer.select_or_done env ActTick t2 w2 with
          | Returned Proceed t3 w3 => Timer.runPhase_loop env fuel duration start t3 w3
          | Returned CtxDone t3 w3 => Returned ErrCtx t3 w3
          | Parked t3 w3 => Parked t3 w3
          | OutOfFuel t3 w3 => OutOfFuel t3 w3
          end
    | Returned CtxDone t2 w2 => Returned ErrCtx t2 w2
    | Parked t2 w2 => Parked t2 w2
    | OutOfFuel t2 w2 => OutOfFuel t2 w2
    end.
Proof.
  cbn [Timer.runPhase_loop]. unfold Timer.bind at 1. unfold Timer.Now at 1.
  unfold Timer.bind at 1. unfold Timer.liftS at 1. cbn [Session.CurrentPhase Session.gets session tickInterval].
  unfold Timer.bind at 1. unfold Timer.liftS at 1. cbn [Session.CyclesComplete Session.gets session tickInterval].
  unfold Timer.bind at 1. unfold Timer.liftS at 1. cbn [Session.TotalCycles Session.gets session tickInterval].
  unfold Timer.bind at 1. unfold Timer.liftS at 1. cbn [Session.PhasesComplete Session.gets session tickInterval].
  unfold Timer.bind at 1. unfold Timer.liftS at 1. cbn [Session.TotalPhases Session.gets session tickInterval].
  cbn zeta. fold (event_at s duration start (clock_now env (now_calls w))).
  unfold Timer.bind at 1.
  destruct (Timer.select_or_done env _ _ _) as [[|] t2 w2|t2 w2|t2 w2]; try reflexivity.
  destruct (TimerEvent.PhaseComplete _); [reflexivity|].
  unfold Timer.bind at 1.
  destruct (Timer.select_or_done env _ _ _) as [[|] t3 w3|t3 w3|t3 w3]; reflexivity.
Qed.

Lemma events_of_app tr1 tr2 : events_of (tr1 ++ tr2) = events_of tr1 ++ events_of tr2.
Proof.
  induction tr1 as [|a tr1 IH]; [reflexivity|].
  destruct a; cbn; rewrite ?IH; reflexivity.
Qed.

Lemma events_of_In ev tr : In ev (events_of tr) <-> In (ActSend ev) tr.
Proof.
  induction tr as [|a tr IH]; [reflexivity|].
  destruct a; cbn; rewrite IH; split; intros H;
    try (now right); try (destruct H as [H|H]; [discriminate|assumption]).
  - destruct H as [->|H]; auto.
  - destruct H as [H|H]; [injection H as ->|]; auto.
Qed.

(** What the loop of [runPhase] does from a world [w]: it keeps the timer,
    adds sends, ticks and at most one sight of the cancelled context, all its
    events are built from later readings of the clock, it returns [nil] right
    after sending an event flagged complete and [ctx.Err()] right after seeing
    the context done. *)
Lemma runPhase_loop_spec env duration start ti s : forall fuel w,
  let r := Timer.runPhase_loop env fuel duration start (mkTimer ti s) w in
  result_timer r = mkTimer ti s
  /\ exists new,
       trace (result_world r) = new ++ trace w
       /\ Forall loop_action new
       /\ Forall (fun ev => exists j, (now_calls w <= j)%nat
                    /\ ev = event_at s duration start (clock_now env j))
            (events_of new)
       /\ (now_calls w <= now_calls (result_world r))%nat
       /\ (ctx_cancelled w = true -> ctx_cancelled (result_world r) = true)
       /\ match r with
          | Returned ErrNil _ _ =>
              (exists ev rest, new = ActSend ev :: rest
                               /\ TimerEvent.PhaseComplete ev = true)
              /\ ~ In ActCtxDone new
          | Returned ErrCtx _ w' =>
              (exists rest, new = ActCtxDone :: rest /\ ~ In ActCtxDone rest)
              /\ ctx_cancelled w' = true
          | _ => ~ In ActCtxDone new
          end.
Proof.
  induction fuel as [|fuel IH]; intros w.
  { cbn. split; [reflexivity|]. exists []. repeat split; auto. }
  cbn zeta. rewrite runPhase_loop_unfold. cbn zeta.
  set (ev := event_at s duration start (clock_now env (now_calls w))).
  set (w1 := mkWorld (S (now_calls w)) (select_calls w) (ctx_cancelled w) (trace w)).
  assert (Hev : exists j, (now_calls w <= j)%nat
                          /\ ev = event_at s duration start (clock_now env j))
    by (exists (now_calls w); auto).
  destruct (select_or_done_spec env (ActSend ev) (mkTimer ti s) w1)
    as [(-> & Hc & _)|[(-> & _ & _)|(-> & Hc & _)]].
  - (* parked at the send *)
    cbn. split; [reflexivity|]. exists []. repeat split; auto.
    intros Hw. cbn in Hc. rewrite Hw in Hc. discriminate.
  - set (w2 := mkWorld _ _ _ _).
    destruct (TimerEvent.PhaseComplete ev) eqn:Hdone.
    + (* the phase is complete *)
      cbn. split; [reflexivity|]. exists [ActSend ev].
      repeat split; auto; try (repeat constructor; assumption).
      * intros ->. reflexivity.
      * eauto.
      * intros [H|[]]. discriminate.
    + destruct (select_or_done_spec env ActTick (mkTimer ti s) w2)
        as [(-> & Hc & _)|[(-> & _ & _)|(-> & Hc & _)]].
      * (* parked at the tick *)
        cbn. split; [reflexivity|]. exists [ActSend ev].
        repeat split; auto; try (repeat constructor; assumption).
        -- intros Hw. cbn in Hc. rewrite Hw in Hc. discriminate.
        -- intros [H|[]]. discriminate.
      * (* round again *)
        set (w3 := mkWorld _ _ _ _).
        destruct (IH w3) as (Ht & new & Htr & Hact & Hevs & Hnow & Hctx & Hres).
        split; [exact Ht|]. exists (new ++ [ActTick; ActSend ev]).
        rewrite Htr. cbn [trace w3 w2 w1 app]. rewrite <- app_assoc. cbn [app].
        split; [reflexivity|]. split.
        { apply Forall_app. split; [assumption|repeat constructor]. }
        split.
        { rewrite events_of_app. apply Forall_app. split.
          - eapply Forall_impl; [exact Hevs|].
            intros e (j & Hj & ->). cbn in Hj. exists j. split; [lia|reflexivity].
          - cbn. repeat constructor. assumption. }
        split; [cbn in Hnow; lia|]. split.
        { intros Hw. apply Hctx. cbn. rewrite Hw. reflexivity. }
        destruct (Timer.runPhase_loop env fuel duration start (mkTimer ti s) w3)
          as [[|] t' w'|t' w'|t' w'].
        -- destruct Hres as [(e & rest & -> & He) Hno]. split.
           ++ exists e, (rest ++ [ActTick; ActSend ev]). auto.
           ++ intros H. apply in_app_or in H as [H|[H|[H|[]]]]; try discriminate. auto.
        -- destruct Hres as [(rest & -> & Hno) Hc]. split; [|assumption].
           exists (rest ++ [ActTick; ActSend ev]). split; [reflexivity|].
           intros H. apply in_app_or in H as [H|[H|[H|[]]]]; try discriminate. auto.
        -- intros H. apply in_app_or in H as [H|[H|[H|[]]]]; try discriminate. auto.
        -- intros H. apply in_app_or in H as [H|[H|[H|[]]]]; try discriminate. auto.
      * (* cancelled at the tick *)
        cbn. split; [reflexivity|]. exists [ActCtxDone; ActSend ev].
        repeat split; auto; try (repeat constructor; assumption).
        -- exists [ActSend ev]. split; [reflexivity|]. intros [H|[]]. discriminate.
  - (* cancelled at the send *)
    cbn. split; [reflexivity|]. exists [ActCtxDone].
    repeat split; auto; try (repeat constructor; assumption).
    exists []. auto.
Qed.

Lemma PhaseDuration_frame s : snd (Session.PhaseDuration s) = s.
Proof.
  unfold Session.PhaseDuration, Session.bind, Session.gets, Session.ret.
  destruct (currentPhase s); reflexivity.
Qed.

Lemma PhaseDuration_done s :
  currentPhase s = PhaseDone -> fst (Session.PhaseDuration s) = 0.
Proof.
  unfold Session.PhaseDuration, Session.bind, Session.gets, Session.ret.
  now intros ->.
Qed.

Lemma runPhase_unfold env fuel ti s w :
  Timer.runPhase env fuel (mkTimer ti s) w
  = let d := fst (Session.PhaseDuration s) in
    if d =? 0 then Returned ErrNil (mkTimer ti s) w
    else
      match Timer.runPhase_loop env fuel d (clock_now env (now_calls w)) (mkTimer ti s)
              (mkWorld (S (now_calls w)) (select_calls w) (ctx_cancelled w)
                 (ActNewTicker ti :: trace w)) with
      | Returned e t' w' =>
          Returned e t'
            (mkWorld (now_calls w') (select_calls w') (ctx_cancelled w')
               (ActStop :: trace w'))
      | Parked t' w' => Parked t' w'
      | OutOfFuel t' w' => OutOfFuel t' w'
      end.
Proof.
  unfold Timer.runPhase. unfold Timer.bind at 1. unfold Timer.liftS at 1.
  cbn [session tickInterval].
  pose proof (PhaseDuration_frame s) as Hs.
  destruct (Session.PhaseDuration s) as [d s']. cbn in Hs. subst s'. cbn [fst].
  destruct (d =? 0); [reflexivity|].
  unfold Timer.bind at 1. unfold Timer.Now at 1.
  unfold Timer.bind at 1. unfold Timer.bind at 1. unfold Timer.log at 1.
  cbn [tickInterval now_calls select_calls ctx_cancelled trace].
  unfold Timer.bind at 1.
  destruct (Timer.runPhase_loop env fuel d _ _ _) as [e t' w'|t' w'|t' w']; reflexivity.
Qed.

Lemma stops_follow_completion_app new tr :
  Forall loop_action new -> stops_follow_completion tr ->
  stops_follow_completion (new ++ tr).
Proof.
  induction 1 as [|a new Ha _ IH]; intros Htr; [assumption|].
  destruct a; cbn in *; try contradiction; auto.
Qed.

Lemma loop_action_not_close new : Forall loop_action new -> ~ In ActClose new.
Proof.
  induction 1 as [|a new Ha _ IH]; [auto|].
  intros [->|H]; [exact Ha|auto].
Qed.

Lemma runPhase_spec env s0 fuel ti s w :
  run_invariant env s0 (mkTimer ti s) w ->
  let r := Timer.runPhase env fuel (mkTimer ti s) w in
  result_timer r = mkTimer ti s
  /\ events_from env s0 (trace (result_world r))
  /\ stops_follow_completion (trace (result_world r))
  /\ ~ In ActClose (trace (result_world r))
  /\ (ctx_cancelled w = true -> ctx_cancelled (result_world r) = true)
  /\ match r with
     | Returned ErrNil _ w' =>
         ~ In ActCtxDone (trace w')
         /\ (fst (Session.PhaseDuration s) = 0 -> w' = w)
         /\ (fst (Session.PhaseDuration s) <> 0 ->
             exists ev rest, trace w' = ActStop :: ActSend ev :: rest
                             /\ TimerEvent.PhaseComplete ev = true)
     | Returned ErrCtx _ w' =>
         (exists tr', trace w' = ActStop :: ActCtxDone :: tr' /\ ~ In ActCtxDone tr')
         /\ ctx_cancelled w' = true
     | _ => True
     end.
Proof.
  intros ([k Hk] & Hnc & Hncl & Hst & Hev). cbn [session] in Hk.
  cbn zeta. rewrite runPhase_unfold. cbn zeta.
  destruct (Z.eqb_spec (fst (Session.PhaseDuration s)) 0) as [Hd|Hd].
  { cbn. repeat split; auto. intros H. contradiction. }
  set (d := fst (Session.PhaseDuration s)) in *.
  set (w1 := mkWorld _ _ _ _).
  destruct (runPhase_loop_spec env d (clock_now env (now_calls w)) ti s fuel w1)
    as (Ht & new & Htr & Hact & Hevs & _ & Hctx & Hres).
  cbn [trace w1 ctx_cancelled now_calls] in Htr, Hctx, Hevs.
  assert (Hev' : events_from env s0 (new ++ ActNewTicker ti :: trace w)).
  { unfold events_from. rewrite events_of_app. apply Forall_app. split; [|exact Hev].
    eapply Forall_impl; [exact Hevs|].
    intros e (j & Hj & ->). exists k, (now_calls w), j. split; [lia|].
    cbn zeta. rewrite <- Hk. split; [exact Hd|reflexivity]. }
  assert (Hst' : stops_follow_completion (new ++ ActNewTicker ti :: trace w))
    by (apply stops_follow_completion_app; assumption).
  assert (Hncl' : ~ In ActClose (new ++ ActNewTicker ti :: trace w)).
  { intros H. apply in_app_or in H as [H|[H|H]]; [|discriminate|auto].
    exact (loop_action_not_close new Hact H). }
  destruct (Timer.runPhase_loop env fuel d _ (mkTimer ti s) w1)
    as [[|] t' w'|t' w'|t' w']; cbn [result_timer result_world trace ctx_cancelled] in *;
    rewrite Htr; (split; [exact Ht|]).
  - destruct Hres as [(ev & rest & -> & Hdone) Hno].
    repeat split; auto.
    + intros [H|H]; [discriminate|auto].
    + intros [H|H]; [discriminate|].
      apply in_app_or in H as [H|[H|H]]; [auto|discriminate|auto].
    + intros H. contradiction.
    + intros _. eauto.
  - destruct Hres as [(rest & -> & Hno) Hc].
    repeat split; auto.
    + intros [H|H]; [discriminate|auto].
    + eexists. split; [reflexivity|].
      intros H. apply in_app_or in H as [H|[H|H]]; [auto|discriminate|auto].
  - repeat split; auto.
  - repeat split; auto.
Qed.

Lemma Phase_eqb_eq p q : Phase_eqb p q = true <-> p = q.
Proof. destruct p, q; cbn; split; congruence. Qed.

Lemma Run_loop_unfold env fuel ti s w :
  Timer.Run_loop env (S fuel) (mkTimer ti s) w
  = if Phase_eqb (currentPhase s) PhaseDone then Returned ErrNil (mkTimer ti s) w
    else
      match Timer.runPhase env fuel (mkTimer ti s) w with
      | Returned ErrNil t' w' =>
          Timer.Run_loop env fuel
            (mkTimer (tickInterval t') (snd (Session.NextPhase (session t')))) w'
      | Returned ErrCtx t' w' => Returned ErrCtx t' w'
      | Parked t' w' => Parked t' w'
      | OutOfFuel t' w' => OutOfFuel t' w'
      end.
Proof.
  cbn [Timer.Run_loop]. unfold Timer.bind at 1. unfold Timer.liftS at 1.
  cbn [Session.CurrentPhase Session.gets session tickInterval].
  destruct (Phase_eqb (currentPhase s) PhaseDone); [reflexivity|].
  unfold Timer.bind at 1.
  destruct (Timer.runPhase env fuel (mkTimer ti s) w) as [[|] t' w'|t' w'|t' w'];
    try reflexivity.
  unfold Timer.bind at 1. unfold Timer.liftS at 1.
  destruct (Session.NextPhase (session t')); reflexivity.
Qed.

Lemma NextPhase_n_succ k s0 :
  Session.NextPhase_n (S k) s0 = snd (Session.NextPhase (Session.NextPhase_n k s0)).
Proof.
  replace (S k) with (k + 1)%nat by lia. now rewrite NextPhase_n_add.
Qed.

(** The loop of [Run], from a state where its invariant holds. *)
Lemma Run_loop_spec env s0 : forall fuel t w,
  run_invariant env s0 t w ->
  let r := Timer.Run_loop env fuel t w in
  tickInterval (result_timer r) = tickInterval t
  /\ (exists k, session (result_timer r) = Session.NextPhase_n k s0)
  /\ events_from env s0 (trace (result_world r))
  /\ stops_follow_completion (trace (result_world r))
  /\ ~ In ActClose (trace (result_world r))
  /\ (ctx_cancelled w = true -> ctx_cancelled (result_world r) = true)
  /\ match r with
     | Returned ErrNil t' w' =>
         currentPhase (session t') = PhaseDone /\ ~ In ActCtxDone (trace w')
     | Returned ErrCtx t' w' =>
         (exists tr', trace w' = ActStop :: ActCtxDone :: tr' /\ ~ In ActCtxDone tr')
         /\ ctx_cancelled w' = true
     | _ => True
     end.
Proof.
  induction fuel as [|fuel IH]; intros [ti s] w Hinv.
  { destruct Hinv as (Hk & Hnc & Hncl & Hst & Hev). cbn. repeat split; auto. }
  cbn zeta. rewrite Run_loop_unfold.
  destruct (Phase_eqb (currentPhase s) PhaseDone) eqn:Hp.
  { apply Phase_eqb_eq in Hp.
    destruct Hinv as (Hk & Hnc & Hncl & Hst & Hev). cbn. repeat split; auto. }
  pose proof (runPhase_spec env s0 fuel ti s w Hinv)
    as (Ht & Hev & Hst & Hncl & Hctx & Hres).
  cbn zeta in *.
  destruct (Timer.runPhase env fuel (mkTimer ti s) w) as [[|] t' w'|t' w'|t' w'];
    cbn [result_timer result_world] in *; subst t'.
  - destruct Hres as (Hnc & _ & _).
    destruct Hinv as ([k Hk] & _). cbn [session tickInterval] in *.
    assert (Hinv' : run_invariant env s0 (mkTimer ti (snd (Session.NextPhase s))) w').
    { repeat split; auto. exists (S k). cbn [session]. now rewrite NextPhase_n_succ, <- Hk. }
    specialize (IH _ w' Hinv'). cbn zeta in IH.
    destruct IH as (H1 & H2 & H3 & H4 & H5 & H6 & H7).
    repeat split; auto.
  - destruct Hinv as (Hk & _). repeat split; auto; apply Hres.
  - destruct Hinv as (Hk & _). repeat split; auto.
  - destruct Hinv as (Hk & _). repeat split; auto.
Qed.

Lemma start_invariant env cfg tick cancelled :
  run_invariant env (Session.NewSession cfg)
    (Timer.NewTimerWithClock cfg tick) (Timer.start_world cancelled).
Proof.
  repeat split; cbn; auto.
  - now exists O.
  - constructor.
Qed.

Lemma Run_unfold env fuel t w :
  Timer.Run env fuel t w
  = match Timer.Run_loop env fuel t w with
    | Returned e t' w' =>
        Returned e t'
          (mkWorld (now_calls w') (select_calls w') (ctx_cancelled w')
             (ActClose :: trace w'))
    | Parked t' w' => Parked t' w'
    | OutOfFuel t' w' => OutOfFuel t' w'
    end.
Proof.
  unfold Timer.Run. unfold Timer.bind at 1.
  destruct (Timer.Run_loop env fuel t w); reflexivity.
Qed.

(** A session of no duration runs to Done without a [select]: a context
    cancelled beforehand goes unseen and [Run] reports success. *)
Example run_instant_cancelled :
  exists t w,
    Timer.Run env_minutes 3 (Timer.NewTimerWithClock cfg_instant DefaultTickInterval)
      (Timer.start_world true)
    = Returned ErrNil t w
    /\ currentPhase (session t) = PhaseDone
    /\ ctx_cancelled w = true
    /\ trace w = [ActClose].
Proof. eexists _, _. split; [vm_compute; reflexivity|]. repeat split. Qed.

(** A [select] at which both cases can proceed may send the event: the run
    goes on past a cancelled context and reports success. *)
Example run_cancel_lost :
  exists t w,
    Timer.Run env_cancel_lost 3 (Timer.NewTimerWithClock cfg_one_minute DefaultTickInterval)
      (Timer.start_world false)
    = Returned ErrNil t w
    /\ ctx_cancelled w = true
    /\ length (events_of (trace w)) = 1%nat.
Proof. eexists _, _. split; [vm_compute; reflexivity|]. repeat split. Qed.

(** C3, as stated, fails: with a context cancelled before a session of no
    duration is run, [Run] returns success. *)
Lemma C3_run_counterexample :
  ~ run_as_specified env_minutes cfg_instant DefaultTickInterval true.
Proof.
  intros H. destruct run_instant_cancelled as (t & w & Hrun & _ & Hc & _).
  destruct (H 3%nat ErrNil t w Hrun) as (_ & _ & Hctx).
  specialize (Hctx Hc). discriminate.
Qed.

Lemma stops_follow_completion_uncancelled tr :
  stops_follow_completion tr -> ~ In ActCtxDone tr ->
  forall pre post, tr = pre ++ ActStop :: post ->
  exists ev rest, post = ActSend ev :: rest /\ TimerEvent.PhaseComplete ev = true.
Proof.
  intros Hst Hnc pre. revert tr Hst Hnc.
  induction pre as [|a pre IH]; intros tr Hst Hnc post ->.
  - cbn in Hst. destruct Hst as [Hhd _].
    destruct post as [|[] post]; try contradiction; eauto.
    exfalso. apply Hnc. cbn. auto.
  - apply (IH (pre ++ ActStop :: post)); [| |reflexivity].
    + destruct a; cbn in Hst; try assumption. apply Hst.
    + intros H. apply Hnc. now right.
Qed.

(** C3, amended. When [Run] returns, the event stream has just been closed,
    whatever the outcome.  It returns success exactly when the session is
    Done and no [select] took the case of the cancelled context, and the
    cancellation outcome exactly when one did: the context was cancelled
    then, and nothing happened after that [select] but the stop of the
    ticker and the closing of the stream.  A [select] takes that case
    whenever the context is cancelled and its communication cannot
    proceed. *)
Theorem C3_run_outcome (env : Env) (cfg : Config) (tick : Z) (cancelled : bool)
    (fuel : nat) (e : error) (t : Timer) (w : World) :
  Timer.Run env fuel (Timer.NewTimerWithClock cfg tick) (Timer.start_world cancelled)
  = Returned e t w ->
  (exists tr, trace w = ActClose :: tr /\ ~ In ActClose tr)
  /\ (e = ErrNil <-> currentPhase (session t) = PhaseDone /\ ~ In ActCtxDone (trace w))
  /\ (e = ErrCtx <-> In ActCtxDone (trace w))
  /\ (e = ErrCtx ->
      ctx_cancelled w = true
      /\ exists tr, trace w = ActClose :: ActStop :: ActCtxDone :: tr
                    /\ ~ In ActCtxDone tr)
  /\ (forall a t0 w0,
        ctx_cancelled w0 || cancel_now (select_at env (select_calls w0)) = true ->
        comm_ready (select_at env (select_calls w0)) = false ->
        exists w1, Timer.select_or_done env a t0 w0 = Returned CtxDone t0 w1
                   /\ trace w1 = ActCtxDone :: trace w0).
Proof.
  intros Hrun. rewrite Run_unfold in Hrun.
  pose proof (Run_loop_spec env (Session.NewSession cfg) fuel _ _
                (start_invariant env cfg tick cancelled))
    as (_ & _ & _ & _ & Hncl & _ & Hres).
  cbn zeta in *.
  destruct (Timer.Run_loop env fuel _ _) as [e' t' w'|t' w'|t' w']; try discriminate.
  injection Hrun as -> -> <-. cbn [trace ctx_cancelled result_world] in *.
  assert (Hsel : forall a t0 w0,
    ctx_cancelled w0 || cancel_now (select_at env (select_calls w0)) = true ->
    comm_ready (select_at env (select_calls w0)) = false ->
    exists w1, Timer.select_or_done env a t0 w0 = Returned CtxDone t0 w1
               /\ trace w1 = ActCtxDone :: trace w0).
  { intros a t0 w0 Hc Hr.
    destruct (select_or_done_spec env a t0 w0)
      as [(_ & Hc' & _)|[(_ & Hr' & _)|(-> & _ & _)]]; cbn zeta in *;
      try congruence.
    eexists. split; reflexivity. }
  split; [eauto|].
  destruct e.
  - destruct Hres as [Hdone Hnc].
    assert (Hnc' : ~ In ActCtxDone (ActClose :: trace w'))
      by (intros [H|H]; [discriminate|auto]).
    repeat split; auto; try discriminate; intros H; contradiction.
  - destruct Hres as [(tr' & Htr & Hnc) Hc].
    assert (Hin : In ActCtxDone (ActClose :: trace w'))
      by (rewrite Htr; cbn; auto).
    repeat split; auto; try discriminate.
    + intros [_ H]. contradiction.
    + rewrite Htr. eauto.
Qed.

Lemma C3_run_outcome_witness :
  exists t w,
    Timer.Run env_cancel_seen 3 (Timer.NewTimerWithClock cfg_one_minute DefaultTickInterval)
      (Timer.start_world false)
    = Returned ErrCtx t w
    /\ ctx_cancelled w = true /\ events_of (trace w) = [].
Proof.
  eexists _, _. split; [vm_compute; reflexivity|].
  split.
  - refine (proj1 (proj1 (proj2 (proj2 (proj2 (C3_run_outcome env_cancel_seen
      cfg_one_minute DefaultTickInterval false 3 ErrCtx _ _ _)))) eq_refl)).
    vm_compute. reflexivity.
  - reflexivity.
Defined.

(** The fields of an event other than its fraction. *)
Lemma event_at_fields s duration start now :
  let ev := event_at s duration start now in
  TimerEvent.Phase ev = currentPhase s
  /\ TimerEvent.Elapsed ev = Time_Sub now start
  /\ TimerEvent.Remaining ev
     = (if GoInt.sub duration (Time_Sub now start) <? 0 then 0
        else GoInt.sub duration (Time_Sub now start))
  /\ TimerEvent.Total ev = duration
  /\ TimerEvent.PhaseComplete ev = (duration <=? Time_Sub now start)
  /\ TimerEvent.CycleNum ev = GoInt.add (cyclesComplete s) 1
  /\ TimerEvent.TotalCycles ev = TotalCycles (config s)
  /\ TimerEvent.PhaseNum ev = GoInt.add (phasesComplete s) 1
  /\ TimerEvent.TotalPhases ev = totalPhases s.
Proof.
  cbn zeta. unfold event_at.
  destruct (Float64.ltb Float64.one _); repeat split.
Qed.

Lemma NextPhase_n_frame k s0 :
  config (Session.NextPhase_n k s0) = config s0
  /\ totalPhases (Session.NextPhase_n k s0) = totalPhases s0.
Proof.
  revert s0. induction k as [|k IH]; intros s0; [now cbn|].
  cbn [Session.NextPhase_n]. destruct (IH (snd (Session.NextPhase s0))) as [-> ->].
  apply NextPhase_frame.
Qed.

(** The events of a run and the stops of its tickers, however far it got. *)
Lemma Run_trace env cfg tick cancelled fuel :
  let r := Timer.Run env fuel (Timer.NewTimerWithClock cfg tick)
             (Timer.start_world cancelled) in
  events_from env (Session.NewSession cfg) (trace (result_world r))
  /\ stops_follow_completion (trace (result_world r)).
Proof.
  cbn zeta. rewrite Run_unfold.
  pose proof (Run_loop_spec env (Session.NewSession cfg) fuel _ _
                (start_invariant env cfg tick cancelled))
    as (_ & _ & Hev & Hst & _).
  cbn zeta in *.
  destruct (Timer.Run_loop env fuel _ _) as [e' t' w'|t' w'|t' w']; cbn in *; auto.
Qed.

(** The events [runPhase] adds to the trace are built in the session it was
    called with, which it leaves as it was. *)
Lemma runPhase_events env fuel ti s w :
  let r := Timer.runPhase env fuel (mkTimer ti s) w in
  result_timer r = mkTimer ti s
  /\ exists new,
       trace (result_world r) = new ++ trace w
       /\ (fst (Session.PhaseDuration s) = 0 -> new = [])
       /\ forall ev, In (ActSend ev) new ->
            exists now, ev = event_at s (fst (Session.PhaseDuration s))
                               (clock_now env (now_calls w)) now.
Proof.
  cbn zeta. rewrite runPhase_unfold. cbn zeta.
  destruct (Z.eqb_spec (fst (Session.PhaseDuration s)) 0) as [Hd|Hd].
  { cbn. split; [reflexivity|]. exists []. repeat split. intros ev []. }
  set (d := fst (Session.PhaseDuration s)) in *.
  set (w1 := mkWorld _ _ _ _).
  destruct (runPhase_loop_spec env d (clock_now env (now_calls w)) ti s fuel w1)
    as (Ht & new & Htr & _ & Hevs & _).
  cbn [trace w1] in Htr.
  assert (Hnew : forall l ev,
    In (ActSend ev) (l ++ new ++ [ActNewTicker ti]) -> (forall e, ~ In (ActSend e) l) ->
    exists now, ev = event_at s d (clock_now env (now_calls w)) now).
  { intros l ev H Hl. apply in_app_or in H as [H|H]; [now apply Hl in H|].
    apply in_app_or in H as [H|[H|[]]]; [|discriminate].
    apply events_of_In in H.
    destruct (proj1 (List.Forall_forall _ _) Hevs ev H) as (j & _ & ->). eauto. }
  destruct (Timer.runPhase_loop env fuel d _ (mkTimer ti s) w1)
    as [e t' w'|t' w'|t' w']; cbn [result_timer result_world trace] in *;
    (split; [exact Ht|]).
  - exists (ActStop :: new ++ [ActNewTicker ti]). rewrite Htr.
    split; [cbn; now rewrite <- app_assoc|]. split; [intros H; contradiction|].
    intros ev H. apply (Hnew [ActStop] ev H). intros e0 [H0|[]]. discriminate.
  - exists (new ++ [ActNewTicker ti]). rewrite Htr.
    split; [now rewrite <- app_assoc|]. split; [intros H; contradiction|].
    intros ev H. apply (Hnew [] ev H). intros e0 [].
  - exists (new ++ [ActNewTicker ti]). rewrite Htr.
    split; [now rewrite <- app_assoc|]. split; [intros H; contradiction|].
    intros ev H. apply (Hnew [] ev H). intros e0 [].
Qed.

(** Scenario of the specification: no event for the short breaks of no
    duration, which are counted all the same. *)
Example run_no_short_break :
  exists t w,
    Timer.Run env_minutes 9 (Timer.NewTimerWithClock cfg_no_short_break DefaultTickInterval)
      (Timer.start_world false)
    = Returned ErrNil t w
    /\ phasesComplete (session t) = 5
    /\ cyclesComplete (session t) = 3
    /\ map TimerEvent.Phase (events_of (trace w)) = [PhaseWork; PhaseWork; PhaseWork].
Proof. eexists _, _. split; [vm_compute; reflexivity|]. repeat split. Qed.

(** C9. An event carries the session's count of completed cycles plus one
    and its count of completed phases plus one, as they are when [runPhase]
    emits it; in a run these are the counts after some number of calls of
    [NextPhase].  So the events of the break that follows the completion of
    work cycle [k] carry cycle number [k + 1]. *)
Theorem C9_event_numbers :
  (forall (env : Env) (fuel : nat) (ti : Z) (s : Session) (w : World) (ev : TimerEvent.t),
      let r := Timer.runPhase env fuel (mkTimer ti s) w in
      In (ActSend ev) (trace (result_world r)) ->
      ~ In (ActSend ev) (trace w) ->
      session (result_timer r) = s
      /\ TimerEvent.CycleNum ev = GoInt.add (cyclesComplete s) 1
      /\ TimerEvent.PhaseNum ev = GoInt.add (phasesComplete s) 1
      /\ TimerEvent.Phase ev = currentPhase s)
  /\ (forall (env : Env) (cfg : Config) (tick : Z) (cancelled : bool) (fuel : nat)
        (ev : TimerEvent.t),
        let r := Timer.Run env fuel (Timer.NewTimerWithClock cfg tick)
                   (Timer.start_world cancelled) in
        In (ActSend ev) (trace (result_world r)) ->
        exists k, let s := Session.NextPhase_n k (Session.NewSession cfg) in
                  TimerEvent.CycleNum ev = GoInt.add (cyclesComplete s) 1
                  /\ TimerEvent.PhaseNum ev = GoInt.add (phasesComplete s) 1
                  /\ TimerEvent.Phase ev = currentPhase s
                  /\ TimerEvent.TotalCycles ev = TotalCycles cfg
                  /\ TimerEvent.TotalPhases ev = totalPhases (Session.NewSession cfg))
  /\ (forall (env : Env) (fuel : nat) (ti : Z) (s : Session) (w : World)
        (ev : TimerEvent.t) (k : Z),
        currentPhase s = PhaseWork ->
        let s' := snd (Session.NextPhase s) in
        currentPhase s' = PhaseShortBreak \/ currentPhase s' = PhaseLongBreak ->
        cyclesComplete s' = k ->
        k < GoInt.max_int ->
        let r := Timer.runPhase env fuel (mkTimer ti s') w in
        In (ActSend ev) (trace (result_world r)) ->
        ~ In (ActSend ev) (trace w) ->
        TimerEvent.CycleNum ev = k + 1
        /\ TimerEvent.Phase ev = currentPhase s').
Proof.
  assert (Hphase : forall env fuel ti s w ev,
    let r := Timer.runPhase env fuel (mkTimer ti s) w in
    In (ActSend ev) (trace (result_world r)) ->
    ~ In (ActSend ev) (trace w) ->
    session (result_timer r) = s
    /\ TimerEvent.CycleNum ev = GoInt.add (cyclesComplete s) 1
    /\ TimerEvent.PhaseNum ev = GoInt.add (phasesComplete s) 1
    /\ TimerEvent.Phase ev = currentPhase s).
  { intros env fuel ti s w ev r Hin Hold.
    destruct (runPhase_events env fuel ti s w) as (Ht & new & Htr & _ & Hnew).
    fold r in Ht, Htr. rewrite Htr in Hin. rewrite Ht.
    apply in_app_or in Hin as [Hin|Hin]; [|contradiction].
    destruct (Hnew ev Hin) as (now & ->).
    destruct (event_at_fields s (fst (Session.PhaseDuration s))
                (clock_now env (now_calls w)) now)
      as (Hph & _ & _ & _ & _ & Hcn & _ & Hpn & _).
    cbn zeta in *. auto. }
  split; [exact Hphase|]. split.
  - intros env cfg tick cancelled fuel ev r Hin.
    destruct (Run_trace env cfg tick cancelled fuel) as [Hev _].
    apply events_of_In in Hin.
    destruct (proj1 (List.Forall_forall _ _) Hev ev Hin) as (k & i & j & _ & _ & ->).
    destruct (event_at_fields (Session.NextPhase_n k (Session.NewSession cfg))
                (fst (Session.PhaseDuration (Session.NextPhase_n k (Session.NewSession cfg))))
                (clock_now env i) (clock_now env j))
      as (Hph & _ & _ & _ & _ & Hcn & Htc & Hpn & Htp).
    destruct (NextPhase_n_frame k (Session.NewSession cfg)) as [Hcfg Htot].
    assert (Hc0 : config (Session.NewSession cfg) = cfg)
      by (rewrite NewSession_eq; reflexivity).
    cbn zeta in *. exists k. rewrite Htc, Htp, Hcfg, Htot, Hc0.
    repeat split; assumption.
  - intros env fuel ti s w ev k Hw s' Hbreak Hk Hmax r Hin Hold.
    destruct (Hphase env fuel ti s' w ev Hin Hold) as (_ & Hcn & _ & Hph).
    split; [|exact Hph].
    rewrite Hcn, Hk. apply add_small.
    destruct (NextPhase_work s Hw) as (Hc & _). fold s' in Hc.
    pose proof (wrap_range (cyclesComplete s + 1)) as Hr.
    unfold GoInt.add in Hc. rewrite <- Hc, Hk in Hr.
    unfold GoInt.in_range, GoInt.min_int, GoInt.max_int in *. lia.
Qed.

Lemma C9_event_numbers_witness :
  exists ev,
    In (ActSend ev)
      (trace (result_world
         (Timer.Run env_minutes 9 (Timer.NewTimerWithClock cfg_2_0 DefaultTickInterval)
            (Timer.start_world false))))
    /\ exists k, TimerEvent.PhaseNum ev
                 = GoInt.add (phasesComplete
                     (Session.NextPhase_n k (Session.NewSession cfg_2_0))) 1.
Proof.
  eexists. split.
  - vm_compute. right. right. left. reflexivity.
  - match goal with
    | |- context [TimerEvent.PhaseNum ?e] =>
        destruct (proj1 (proj2 C9_event_numbers) env_minutes cfg_2_0 DefaultTickInterval
                    false 9%nat e) as (k & _ & Hpn & _)
    end.
    + vm_compute. right. right. left. reflexivity.
    + exists k. exact Hpn.
Defined.

(** ** float64: conversion of integers, division and comparison *)

Lemma shr_1_m mrs : 0 <= shr_m mrs -> shr_m (shr_1 mrs) = shr_m mrs / 2.
Proof.
  destruct mrs as [m r s]. cbn [shr_m]. intros Hm.
  destruct m as [|p|p]; [reflexivity| |lia].
  destruct p as [p|p|]; cbn [shr_1 shr_m].
  - rewrite Pos2Z.inj_xI. apply (Z.div_unique _ _ _ 1); lia.
  - rewrite Pos2Z.inj_xO. apply (Z.div_unique _ _ _ 0); lia.
  - reflexivity.
Qed.

Lemma iter_shr_1_m k : forall mrs,
  0 <= shr_m mrs -> shr_m (SpecFloat.iter_pos shr_1 k mrs) = shr_m mrs / 2 ^ Zpos k.
Proof.
  induction k as [k IH|k IH|]; intros mrs Hm; cbn [SpecFloat.iter_pos].
  - assert (H1 : 0 <= shr_m (shr_1 mrs)) by (rewrite shr_1_m by assumption; apply Z.div_pos; lia).
    assert (H2 : 0 <= shr_m (SpecFloat.iter_pos shr_1 k (shr_1 mrs)))
      by (rewrite IH by assumption; apply Z.div_pos; [assumption|apply Z.pow_pos_nonneg; lia]).
    rewrite IH, IH, shr_1_m by assumption.
    rewrite !Z.div_div by (try apply Z.pow_pos_nonneg; lia).
    f_equal. rewrite Pos2Z.inj_xI.
    rewrite <- Z.pow_add_r, <- (Z.pow_1_r 2) at 1 by lia.
    rewrite <- Z.pow_add_r by lia. f_equal. lia.
  - assert (H2 : 0 <= shr_m (SpecFloat.iter_pos shr_1 k mrs))
      by (rewrite IH by assumption; apply Z.div_pos; [assumption|apply Z.pow_pos_nonneg; lia]).
    rewrite IH, IH by assumption.
    rewrite !Z.div_div by (try apply Z.pow_pos_nonneg; lia).
    f_equal. rewrite Pos2Z.inj_xO, <- Z.pow_add_r by lia. f_equal. lia.
  - rewrite shr_1_m by assumption. reflexivity.
Qed.

Lemma digits2_pos_size p : digits2_pos p = Pos.size p.
Proof. induction p as [p IH|p IH|]; cbn; now rewrite ?IH. Qed.

Lemma Zdigits2_log2 x : 0 < x -> Zdigits2 x = Z.log2 x + 1.
Proof.
  destruct x as [|p|p]; try lia. intros _. cbn [Zdigits2].
  rewrite digits2_pos_size.
  destruct p as [p|p|]; cbn [Z.log2 Pos.size]; try reflexivity;
    now rewrite Pos2Z.inj_succ.
Qed.

Lemma Zdigits2_bounds x : 0 < x -> 2 ^ (Zdigits2 x - 1) <= x < 2 ^ Zdigits2 x.
Proof.
  intros Hx. rewrite Zdigits2_log2 by assumption.
  replace (Z.log2 x + 1 - 1) with (Z.log2 x) by lia.
  replace (Z.log2 x + 1) with (Z.succ (Z.log2 x)) by lia.
  now apply Z.log2_spec.
Qed.

Lemma Zdigits2_unique x d : 0 < d -> 2 ^ (d - 1) <= x < 2 ^ d -> Zdigits2 x = d.
Proof.
  intros Hd Hx.
  assert (0 < x) by (pose proof (Z.pow_pos_nonneg 2 (d - 1)); lia).
  rewrite Zdigits2_log2 by assumption.
  rewrite (Z.log2_unique x (d - 1)); [lia|lia|].
  now replace (Z.succ (d - 1)) with d by lia.
Qed.

Lemma round_nearest_even_bounds m l :
  m <= round_nearest_even m l <= m + 1.
Proof.
  unfold round_nearest_even.
  destruct l as [|[]]; try destruct (Z.even m); lia.
Qed.

Lemma fexp_normal e : -1021 <= e -> fexp 53 1024 e = e - 53.
Proof. intros H. unfold fexp, emin. lia. Qed.

Lemma shr_fexp_exact_small m e :
  0 < m -> -1021 <= Zdigits2 m + e -> Zdigits2 m <= 53 ->
  shr_fexp 53 1024 m e loc_Exact = (Build_shr_record m false false, e).
Proof.
  intros Hm He Hd. unfold shr_fexp. rewrite fexp_normal by assumption.
  cbn [shr_record_of_loc]. unfold shr.
  destruct (Zdigits2 m + e - 53 - e) eqn:E; try reflexivity. lia.
Qed.

Lemma shr_fexp_exact_large m e :
  0 < m -> -1021 <= Zdigits2 m + e -> 53 < Zdigits2 m ->
  exists mrs, shr_fexp 53 1024 m e loc_Exact = (mrs, e + (Zdigits2 m - 53))
              /\ shr_m mrs = m / 2 ^ (Zdigits2 m - 53).
Proof.
  intros Hm He Hd. unfold shr_fexp. rewrite fexp_normal by assumption.
  cbn [shr_record_of_loc]. unfold shr.
  replace (Zdigits2 m + e - 53 - e) with (Zdigits2 m - 53) by lia.
  destruct (Zdigits2 m - 53) as [|k|k] eqn:E; try lia.
  eexists. split; [reflexivity|].
  rewrite iter_shr_1_m; cbn [shr_m]; [reflexivity|lia].
Qed.

Lemma round_aux_pos s m e :
  -1021 <= Zpos (digits2_pos m) + e ->
  exists m' e',
    e' <= e + Z.max 0 (Zpos (digits2_pos m) - 53) + 1
    /\ binary_round_aux 53 1024 s (Zpos m) e loc_Exact
       = if e' <=? 971 then S754_finite s m' e' else S754_infinity s.
Proof.
  intros He. unfold binary_round_aux.
  change (Zpos (digits2_pos m)) with (Zdigits2 (Zpos m)) in *.
  set (x := Zpos m) in *. assert (Hx : 0 < x) by (unfold x; lia).
  destruct (Z_le_gt_dec (Zdigits2 x) 53) as [Hd|Hd].
  - rewrite shr_fexp_exact_small by assumption.
    cbn [shr_m loc_of_shr_record round_nearest_even].
    rewrite shr_fexp_exact_small by assumption. cbn [shr_m]. unfold x.
    exists m, e. split; [lia|reflexivity].
  - destruct (shr_fexp_exact_large x e Hx He ltac:(lia)) as (mrs & -> & Hm1).
    pose proof (Zdigits2_bounds x Hx) as Hb.
    set (D := Zdigits2 x) in *.
    assert (Hpow : 2 ^ D = 2 ^ 53 * 2 ^ (D - 53))
      by (rewrite <- Z.pow_add_r by lia; f_equal; lia).
    assert (Hpow' : 2 ^ (D - 1) = 2 ^ 52 * 2 ^ (D - 53))
      by (rewrite <- Z.pow_add_r by lia; f_equal; lia).
    assert (Hk : 0 < 2 ^ (D - 53)) by (apply Z.pow_pos_nonneg; lia).
    assert (Hm1b : 2 ^ 52 <= shr_m mrs < 2 ^ 53).
    { rewrite Hm1. split.
      - apply Z.div_le_lower_bound; [assumption|]. lia.
      - apply Z.div_lt_upper_bound; [assumption|]. lia. }
    pose proof (round_nearest_even_bounds (shr_m mrs) (loc_of_shr_record mrs)) as Hr.
    set (mr := round_nearest_even _ _) in *.
    destruct (Z_lt_ge_dec mr (2 ^ 53)) as [Hlt|Hge].
    + assert (Hdr : Zdigits2 mr = 53) by (apply Zdigits2_unique; [lia|]; cbn in *; lia).
      rewrite shr_fexp_exact_small; [|lia|lia|lia].
      cbn [shr_m]. destruct mr as [|q|q]; try (cbn in *; lia).
      exists q, (e + (D - 53)). split; [lia|reflexivity].
    + assert (Hmr : mr = 2 ^ 53) by lia.
      assert (Hdr : Zdigits2 mr = 54) by (rewrite Hmr; reflexivity).
      destruct (shr_fexp_exact_large mr (e + (D - 53))) as (mrs2 & -> & Hm2); try lia.
      rewrite Hdr, Hmr in Hm2. change (2 ^ 53 / 2 ^ (54 - 53)) with (Zpos 4503599627370496) in Hm2.
      rewrite Hm2, Hdr.
      exists 4503599627370496%positive, (e + (D - 53) + (54 - 53)). split; [lia|reflexivity].
Qed.

Lemma digits2_pos_iter_xO p d :
  Zpos (digits2_pos (Pos.iter xO p d)) = Zpos (digits2_pos p) + Zpos d.
Proof.
  induction d as [|d IH] using Pos.peano_ind.
  - cbn. lia.
  - rewrite Pos.iter_succ. cbn [digits2_pos]. rewrite Pos2Z.inj_succ, IH. lia.
Qed.

Lemma binary_round_int s p :
  exists m e,
    e <= Z.max 0 (Zpos (digits2_pos p) - 53) + 1
    /\ binary_round 53 1024 s p 0
       = if e <=? 971 then S754_finite s m e else S754_infinity s.
Proof.
  unfold binary_round. rewrite fexp_normal by lia.
  unfold shl_align.
  destruct (Zpos (digits2_pos p) + 0 - 53 - 0) as [|k|k] eqn:E.
  - destruct (round_aux_pos s p 0) as (m & e & He & ->); [lia|]. exists m, e. split; [lia|reflexivity].
  - destruct (round_aux_pos s p 0) as (m & e & He & ->); [lia|]. exists m, e. split; [lia|reflexivity].
  - pose proof (digits2_pos_iter_xO p k) as Hd.
    destruct (round_aux_pos s (Pos.iter xO p k) (Zpos (digits2_pos p) + 0 - 53))
      as (m & e & He & ->); [lia|].
    exists m, e. split; [lia|reflexivity].
Qed.

Lemma Float64_of_int_cases z :
  z <> 0 ->
  exists m e,
    e <= Z.max 0 (Zdigits2 z - 53) + 1
    /\ Float64.of_int z = if e <=? 971 then S754_finite (z <? 0) m e else S754_infinity (z <? 0).
Proof.
  intros Hz. unfold Float64.of_int, Float64.prec, Float64.emax, binary_normalize.
  destruct z as [|p|p]; [congruence| |]; apply binary_round_int.
Qed.

Lemma Float64_of_int_bounded z :
  z <> 0 -> - 2 ^ 64 < z < 2 ^ 64 ->
  exists m e, Float64.of_int z = S754_finite (z <? 0) m e.
Proof.
  intros Hz Hb. destruct (Float64_of_int_cases z Hz) as (m & e & He & ->).
  assert (Hd : Zdigits2 z <= 64).
  { assert (Habs : Zdigits2 z = Zdigits2 (Z.abs z)) by (destruct z; reflexivity).
    rewrite Habs. pose proof (Zdigits2_bounds (Z.abs z) ltac:(lia)) as [H1 _].
    destruct (Z_le_gt_dec (Zdigits2 (Z.abs z)) 64) as [|Hgt]; [assumption|].
    assert (2 ^ 64 <= 2 ^ (Zdigits2 (Z.abs z) - 1)) by (apply Z.pow_le_mono_r; lia).
    lia. }
  destruct (Z.leb_spec e 971); [eauto|lia].
Qed.

Lemma Float64_of_int_zero : Float64.of_int 0 = S754_zero false.
Proof. reflexivity. Qed.

Lemma shr_1_nonneg mrs : 0 <= shr_m mrs -> 0 <= shr_m (shr_1 mrs).
Proof. intros H. rewrite shr_1_m by assumption. apply Z.div_pos; lia. Qed.

Lemma iter_shr_1_nonneg k mrs : 0 <= shr_m mrs -> 0 <= shr_m (SpecFloat.iter_pos shr_1 k mrs).
Proof.
  intros H. rewrite iter_shr_1_m by assumption.
  apply Z.div_pos; [assumption|apply Z.pow_pos_nonneg; lia].
Qed.

Lemma shr_fexp_nonneg m e l : 0 <= m -> 0 <= shr_m (fst (shr_fexp 53 1024 m e l)).
Proof.
  intros Hm. unfold shr_fexp, shr.
  assert (H0 : 0 <= shr_m (shr_record_of_loc m l)) by (destruct l as [|[]]; exact Hm).
  destruct (fexp 53 1024 (Zdigits2 m + e) - e); cbn [fst]; try assumption.
  now apply iter_shr_1_nonneg.
Qed.

(** Rounding a non-negative mantissa gives a zero, a finite number or an
    infinity of the sign asked for. *)
Lemma round_aux_sign s m e l :
  0 <= m ->
  let r := binary_round_aux 53 1024 s m e l in
  r = S754_zero s \/ r = S754_infinity s \/ exists m' e', r = S754_finite s m' e'.
Proof.
  intros Hm. cbn zeta. unfold binary_round_aux.
  pose proof (shr_fexp_nonneg m e l Hm) as H1.
  destruct (shr_fexp 53 1024 m e l) as [mrs1 e1]. cbn [fst] in H1.
  pose proof (round_nearest_even_bounds (shr_m mrs1) (loc_of_shr_record mrs1)) as Hr.
  pose proof (shr_fexp_nonneg (round_nearest_even (shr_m mrs1) (loc_of_shr_record mrs1))
                e1 loc_Exact ltac:(lia)) as H2.
  destruct (shr_fexp 53 1024 _ e1 loc_Exact) as [mrs2 e2]. cbn [fst] in H2.
  destruct (shr_m mrs2) as [|q|q]; [auto| |lia].
  destruct (e2 <=? 1024 - 53); eauto.
Qed.

Lemma div_sign x y sx sy :
  (x = S754_zero sx \/ exists m e, x = S754_finite sx m e) ->
  (y = S754_infinity sy \/ exists m e, y = S754_finite sy m e) ->
  let r := Float64.div x y in
  r = S754_zero (xorb sx sy) \/ r = S754_infinity (xorb sx sy)
  \/ exists m e, r = S754_finite (xorb sx sy) m e.
Proof.
  unfold Float64.div, Float64.prec, Float64.emax.
  intros [->|(mx & ex & ->)] [->|(my & ey & ->)]; cbn zeta; cbn [SFdiv]; auto.
  unfold SFdiv_core_binary.
  set (e' := Z.min _ _). set (m' := match _ with Z0 => _ | _ => _ end).
  assert (Hm' : 0 <= m').
  { unfold m'. destruct (ex - ey - e'); try lia. apply Z.shiftl_nonneg. lia. }
  pose proof (Z_div_mod m' (Zpos my) ltac:(lia)) as Hdm.
  destruct (Z.div_eucl m' (Zpos my)) as [q r]. destruct Hdm as [Hq Hr].
  apply round_aux_sign. nia.
Qed.

Lemma clamp_le_one f s :
  f = S754_zero s \/ f = S754_infinity s \/ (exists m e, f = S754_finite s m e) ->
  Float64.leb (if Float64.ltb Float64.one f then Float64.one else f) Float64.one = true.
Proof.
  intros [->|[->|(m & e & ->)]]; try (destruct s; reflexivity).
  destruct s; [reflexivity|].
  unfold Float64.leb, Float64.ltb.
  destruct (SFltb Float64.one (S754_finite false m e)) eqn:Hlt; [reflexivity|].
  unfold SFltb, SFleb, Float64.one in *. cbn [SFcompare] in *.
  pose proof (Z.compare_antisym e (-52)) as Ha.
  pose proof (Pos.compare_cont_antisym 4503599627370496 m Eq) as Hb.
  cbn [CompOpp] in Hb.
  set (a := -52 ?= e) in *. set (b := e ?= -52) in *.
  set (x := Pos.compare_cont Eq 4503599627370496 m) in *.
  set (y := Pos.compare_cont Eq m 4503599627370496) in *.
  clearbody a b x y.
  destruct a, b, x, y; cbn in *; try discriminate; reflexivity.
Qed.

Lemma clamp_nonneg f :
  f = S754_zero false \/ f = S754_zero true \/ f = S754_infinity false
  \/ (exists m e, f = S754_finite false m e) ->
  Float64.leb Float64.zero (if Float64.ltb Float64.one f then Float64.one else f) = true.
Proof.
  intros [->|[->|[->|(m & e & ->)]]]; try reflexivity.
  unfold Float64.ltb. destruct (SFltb Float64.one _); reflexivity.
Qed.

(** ** The fields of an event *)

Lemma Time_Sub_range t u : GoInt.in_range (Time_Sub t u).
Proof.
  unfold Time_Sub, GoInt.in_range, GoInt.min_int, GoInt.max_int.
  destruct (Z.ltb_spec (t - u) (-9223372036854775808)); [lia|].
  destruct (Z.ltb_spec 9223372036854775807 (t - u)); lia.
Qed.

Lemma Time_Sub_nonneg t u : u <= t -> 0 <= Time_Sub t u.
Proof.
  unfold Time_Sub, GoInt.min_int, GoInt.max_int. intros H.
  destruct (Z.ltb_spec (t - u) (-9223372036854775808)); [lia|].
  destruct (Z.ltb_spec 9223372036854775807 (t - u)); lia.
Qed.

Lemma event_at_fraction s duration start now :
  TimerEvent.Fraction (event_at s duration start now)
  = let f := Float64.div (Float64.of_int (Time_Sub now start)) (Float64.of_int duration) in
    if Float64.ltb Float64.one f then Float64.one else f.
Proof.
  unfold event_at. cbn [TimerEvent.Fraction].
  destruct (Float64.ltb Float64.one _); reflexivity.
Qed.

(** The quotient of an elapsed time by a duration other than zero is a
    number: a zero, a finite number or an infinity, of the sign of the
    quotient. *)
Lemma fraction_cases elapsed duration :
  GoInt.in_range elapsed -> duration <> 0 ->
  let f := Float64.div (Float64.of_int elapsed) (Float64.of_int duration) in
  let s := xorb (elapsed <? 0) (duration <? 0) in
  f = S754_zero s \/ f = S754_infinity s \/ exists m e, f = S754_finite s m e.
Proof.
  intros He Hd. cbn zeta. apply div_sign.
  - destruct (Z.eq_dec elapsed 0) as [->|Hne]; [left; reflexivity|right].
    apply Float64_of_int_bounded; [assumption|].
    unfold GoInt.in_range, GoInt.min_int, GoInt.max_int in He. lia.
  - destruct (Float64_of_int_cases duration Hd) as (m & e & _ & ->).
    destruct (e <=? 971); eauto.
Qed.

Lemma event_at_bounds s duration start now :
  duration <> 0 ->
  let ev := event_at s duration start now in
  Float64.leb (TimerEvent.Fraction ev) Float64.one = true
  /\ 0 <= TimerEvent.Remaining ev
  /\ (start <= now ->
      0 <= TimerEvent.Elapsed ev
      /\ (0 < duration -> Float64.leb Float64.zero (TimerEvent.Fraction ev) = true)).
Proof.
  intros Hd. cbn zeta.
  destruct (event_at_fields s duration start now) as (_ & Hel & Hrem & _).
  cbn zeta in *. rewrite Hel, Hrem, event_at_fraction. cbn zeta.
  pose proof (fraction_cases (Time_Sub now start) duration (Time_Sub_range now start) Hd)
    as Hf. cbn zeta in Hf.
  split; [eapply clamp_le_one; exact Hf|]. split.
  - destruct (Z.ltb_spec (GoInt.sub duration (Time_Sub now start)) 0); lia.
  - intros Hmono. pose proof (Time_Sub_nonneg now start Hmono) as Hpos.
    split; [exact Hpos|]. intros Hdpos. apply clamp_nonneg.
    replace (Time_Sub now start <? 0) with false in Hf by (symmetry; apply Z.ltb_ge; lia).
    replace (duration <? 0) with false in Hf by (symmetry; apply Z.ltb_ge; lia).
    cbn [xorb] in Hf. tauto.
Qed.

Lemma PhaseDuration_cases s :
  let d := fst (Session.PhaseDuration s) in
  d = WorkDuration (config s) \/ d = ShortBreakDuration (config s)
  \/ d = LongBreakDuration (config s) \/ d = 0.
Proof.
  cbn zeta. unfold Session.PhaseDuration, Session.bind, Session.gets, Session.ret.
  destruct (currentPhase s); cbn; auto.
Qed.

(** A negative duration gives a negative fraction. *)
Example run_negative_duration :
  exists ev,
    In (ActSend ev)
      (trace (result_world
         (Timer.Run env_nanoseconds 3
            (Timer.NewTimerWithClock cfg_negative_work DefaultTickInterval)
            (Timer.start_world false))))
    /\ TimerEvent.Elapsed ev = 1
    /\ TimerEvent.Total ev = - minute
    /\ Float64.leb Float64.zero (TimerEvent.Fraction ev) = false.
Proof.
  eexists. split; [vm_compute; right; right; left; reflexivity|].
  repeat split.
Qed.

(** C4, as stated, fails: with a negative work duration and a clock that
    never goes backwards the one event of the run has a negative fraction. *)
Lemma C4_event_counterexample :
  ~ events_as_specified env_nanoseconds cfg_negative_work DefaultTickInterval false.
Proof.
  intros H. destruct run_negative_duration as (ev & Hin & _ & _ & Hneg).
  destruct (H 3%nat ev Hin) as (Hpos & _). congruence.
Qed.

(** C4, amended. Every event of a run has a fraction of at most one and a
    remaining time that is not negative; when the clock never goes backwards
    its elapsed time is not negative, and neither is its fraction when the
    duration of its phase is positive, as every duration other than zero of a
    configuration without negative durations is.  A ticker is only stopped
    right after the send of an event flagged complete or right after the
    context was seen done: in a run that never saw it done, the last event of
    every phase that was not skipped is flagged complete. *)
Theorem C4_event_bounds (env : Env) (cfg : Config) (tick : Z) (cancelled : bool)
    (fuel : nat) :
  let r := Timer.Run env fuel (Timer.NewTimerWithClock cfg tick)
             (Timer.start_world cancelled) in
  (forall ev, In (ActSend ev) (trace (result_world r)) ->
     Float64.leb (TimerEvent.Fraction ev) Float64.one = true
     /\ 0 <= TimerEvent.Remaining ev
     /\ (monotone_clock env ->
         0 <= TimerEvent.Elapsed ev
         /\ (0 < TimerEvent.Total ev ->
             Float64.leb Float64.zero (TimerEvent.Fraction ev) = true))
     /\ (nonneg_durations cfg -> 0 < TimerEvent.Total ev))
  /\ stops_follow_completion (trace (result_world r))
  /\ (~ In ActCtxDone (trace (result_world r)) ->
      forall pre post, trace (result_world r) = pre ++ ActStop :: post ->
      exists ev rest, post = ActSend ev :: rest /\ TimerEvent.PhaseComplete ev = true).
Proof.
  intros r. destruct (Run_trace env cfg tick cancelled fuel) as [Hev Hst]. fold r in Hev, Hst.
  split; [|split; [exact Hst|]].
  - intros ev Hin. apply events_of_In in Hin.
    destruct (proj1 (List.Forall_forall _ _) Hev ev Hin) as (k & i & j & Hij & Hd & ->).
    set (s := Session.NextPhase_n k (Session.NewSession cfg)) in *.
    set (d := fst (Session.PhaseDuration s)) in *.
    destruct (event_at_bounds s d (clock_now env i) (clock_now env j) Hd)
      as (Hle & Hrem & Hmono).
    destruct (event_at_fields s d (clock_now env i) (clock_now env j))
      as (_ & _ & _ & Htot & _).
    cbn zeta in *. rewrite Htot.
    split; [exact Hle|]. split; [exact Hrem|]. split.
    + intros Hclock. apply Hmono, Hclock. lia.
    + intros (Hw & Hsb & Hlb).
      destruct (NextPhase_n_frame k (Session.NewSession cfg)) as [Hcfg _].
      assert (Hc0 : config (Session.NewSession cfg) = cfg)
        by (rewrite NewSession_eq; reflexivity).
      fold s in Hcfg. rewrite Hc0 in Hcfg.
      destruct (PhaseDuration_cases s) as [H|[H|[H|H]]]; cbn zeta in H; fold d in H;
        try rewrite Hcfg in H; lia.
  - intros Hnc. now apply stops_follow_completion_uncancelled.
Qed.

Lemma env_minutes_monotone : monotone_clock env_minutes.
Proof. intros i j Hij. cbn. unfold minute. lia. Qed.

Lemma C4_event_bounds_witness :
  exists ev,
    In (ActSend ev)
      (trace (result_world
         (Timer.Run env_minutes 9 (Timer.NewTimerWithClock cfg_2_0 DefaultTickInterval)
            (Timer.start_world false))))
    /\ Float64.leb Float64.zero (TimerEvent.Fraction ev) = true
    /\ Float64.leb (TimerEvent.Fraction ev) Float64.one = true.
Proof.
  eexists. split; [vm_compute; right; right; left; reflexivity|].
  match goal with
  | |- context [TimerEvent.Fraction ?e] =>
      destruct (proj1 (C4_event_bounds env_minutes cfg_2_0 DefaultTickInterval false 9) e)
        as (Hle & _ & Hmono & Hdur)
  end.
  - vm_compute. right. right. left. reflexivity.
  - split; [|exact Hle].
    apply (proj2 (Hmono env_minutes_monotone)).
    apply Hdur. vm_compute. repeat split; discriminate.
Defined.

(** ** Sessions without a bound, and the end of a bounded session *)

Lemma NextPhase_unbounded s :
  TotalCycles (config s) <= 0 -> currentPhase s <> PhaseDone ->
  currentPhase (snd (Session.NextPhase s)) <> PhaseDone.
Proof.
  intros HC Hp. rewrite NextPhase_unfold. unfold NextPhase_spec.
  replace (0 <? TotalCycles (config s)) with false by (symmetry; apply Z.ltb_ge; lia).
  cbn [andb].
  destruct (currentPhase s); try congruence; cbn; try discriminate.
  destruct (_ && _); cbn; discriminate.
Qed.

Lemma NextPhase_n_unbounded k s :
  TotalCycles (config s) <= 0 -> currentPhase s <> PhaseDone ->
  currentPhase (Session.NextPhase_n k s) <> PhaseDone.
Proof.
  intros HC Hp. induction k as [|k IH]; [exact Hp|].
  rewrite NextPhase_n_succ. apply NextPhase_unbounded; [|exact IH].
  now rewrite (proj1 (NextPhase_n_frame k s)).
Qed.

Lemma NewSession_fields cfg :
  config (Session.NewSession cfg) = cfg
  /\ currentPhase (Session.NewSession cfg) = PhaseWork
  /\ cyclesComplete (Session.NewSession cfg) = 0
  /\ phasesComplete (Session.NewSession cfg) = 0.
Proof. rewrite NewSession_eq. repeat split. Qed.

(** X1. With [TotalCycles <= 0] no number of calls of [NextPhase] brings the
    session to Done: it is at Work after an even number of calls and at a
    break after an odd number, and [Run] never returns [nil]. *)
Theorem unbounded_session_never_done (cfg : Config) :
  TotalCycles cfg <= 0 ->
  (forall k, currentPhase (Session.NextPhase_n k (Session.NewSession cfg)) <> PhaseDone)
  /\ (forall k, currentPhase (Session.NextPhase_n (2 * k) (Session.NewSession cfg))
                = PhaseWork)
  /\ (forall env tick cancelled fuel t w,
        Timer.Run env fuel (Timer.NewTimerWithClock cfg tick) (Timer.start_world cancelled)
        <> Returned ErrNil t w).
Proof.
  intros HC. destruct (NewSession_fields cfg) as (Hcfg & Hp0 & _ & _).
  assert (Hnd : forall k,
             currentPhase (Session.NextPhase_n k (Session.NewSession cfg)) <> PhaseDone).
  { intros k. apply NextPhase_n_unbounded; [now rewrite Hcfg|]. rewrite Hp0. discriminate. }
  split; [exact Hnd|]. split.
  - induction k as [|k IH]; [exact Hp0|].
    replace (2 * S k)%nat with (S (S (2 * k))) by lia.
    rewrite !NextPhase_n_succ.
    set (s := Session.NextPhase_n (2 * k) (Session.NewSession cfg)) in *.
    pose proof (Hnd (S (2 * k))) as Hb. rewrite NextPhase_n_succ in Hb. fold s in Hb.
    set (s1 := snd (Session.NextPhase s)) in *.
    assert (Hbreak : currentPhase s1 = PhaseShortBreak \/ currentPhase s1 = PhaseLongBreak).
    { destruct (NextPhase_work s IH) as (_ & Hcur & _ & _ & Hrest). cbn zeta in *.
      fold s1 in Hcur.
      assert (Hn : ~ (0 < TotalCycles (config s)
                      /\ TotalCycles (config s) <= GoInt.add (cyclesComplete s) 1)).
      { unfold s. rewrite (proj1 (NextPhase_n_frame _ _)), Hcfg. lia. }
      destruct (Hrest Hn) as (_ & _ & Hor). rewrite Hcur. exact Hor. }
    now rewrite (NextPhase_break s1 Hbreak).
  - intros env tick cancelled fuel t w Hrun.
    rewrite Run_unfold in Hrun.
    pose proof (Run_loop_spec env (Session.NewSession cfg) fuel _ _
                  (start_invariant env cfg tick cancelled)) as Hspec.
    cbn zeta in Hspec.
    destruct (Timer.Run_loop env fuel _ _) as [e t' w'| |] eqn:E; try discriminate.
    injection Hrun as -> -> _.
    destruct Hspec as (_ & (k & Hk) & _ & _ & _ & _ & Hdone).
    cbn [result_timer] in Hk. destruct Hdone as [Hdone _].
    apply (Hnd k). now rewrite <- Hk.
Qed.

Lemma unbounded_session_never_done_witness :
  currentPhase (Session.NextPhase_n 9 (Session.NewSession cfg_unbounded)) <> PhaseDone.
Proof.
  apply (proj1 (unbounded_session_never_done cfg_unbounded ltac:(cbn; lia))).
Defined.

Lemma spec_totalPhases_closed C F : C <> 0 -> spec_totalPhases C F = 2 * C - 1.
Proof.
  intros HC. unfold spec_totalPhases, spec_shortBreaks, spec_longBreaks.
  destruct (Z.eqb_spec C 0); [contradiction|]. lia.
Qed.

(** The count of completed phases as long as the session has not reached
    Done. *)
Lemma phasesComplete_run cfg : forall n,
  (forall j, (j < n)%nat ->
     currentPhase (Session.NextPhase_n j (Session.NewSession cfg)) <> PhaseDone) ->
  phasesComplete (Session.NextPhase_n n (Session.NewSession cfg)) = GoInt.wrap (Z.of_nat n).
Proof.
  induction n as [|n IH]; intros Hnd.
  - cbn [Session.NextPhase_n]. now rewrite (proj2 (proj2 (proj2 (NewSession_fields cfg)))).
  - rewrite NextPhase_n_succ, NextPhase_phasesComplete by (apply Hnd; lia).
    rewrite IH by (intros j Hj; apply Hnd; lia).
    unfold GoInt.add. rewrite wrap_add_l. apply wrap_eq. lia.
Qed.

Lemma bounded_run_odd cfg (k : nat) :
  0 < TotalCycles cfg <= GoInt.max_int ->
  Z.of_nat k < TotalCycles cfg ->
  let s := Session.NextPhase_n (S (2 * k)) (Session.NewSession cfg) in
  cyclesComplete s = Z.of_nat k + 1
  /\ (Z.of_nat k + 1 = TotalCycles cfg -> currentPhase s = PhaseDone)
  /\ (Z.of_nat k + 1 < TotalCycles cfg ->
      currentPhase s = PhaseShortBreak \/ currentPhase s = PhaseLongBreak).
Proof.
  intros HC Hk. cbn zeta. rewrite NextPhase_n_succ.
  destruct (bounded_run_invariant cfg k HC Hk) as (Hw & Hc & Hcfg). cbn zeta in *.
  set (s := Session.NextPhase_n (2 * k) (Session.NewSession cfg)) in *.
  destruct (NextPhase_work s Hw) as (Hc' & Hcur & _ & Hdone & Hrest). cbn zeta in *.
  assert (Hadd : GoInt.add (cyclesComplete s) 1 = Z.of_nat k + 1).
  { rewrite Hc. apply add_small. unfold GoInt.in_range, GoInt.min_int, GoInt.max_int in *. lia. }
  rewrite Hadd, Hcfg in *. rewrite Hcur.
  split; [exact Hc'|]. split.
  - intros E. apply Hdone. lia.
  - intros E. apply Hrest. lia.
Qed.

Lemma bounded_run_not_done cfg :
  0 < TotalCycles cfg <= GoInt.max_int ->
  forall j, (j < Z.to_nat (2 * TotalCycles cfg - 1))%nat ->
    currentPhase (Session.NextPhase_n j (Session.NewSession cfg)) <> PhaseDone.
Proof.
  intros HC j Hj. destruct (Nat.Even_or_Odd j) as [[k ->]|[k ->]].
  - destruct (bounded_run_invariant cfg k HC ltac:(lia)) as (Hw & _).
    cbn zeta in Hw. rewrite Hw. discriminate.
  - replace (2 * k + 1)%nat with (S (2 * k)) by lia.
    destruct (bounded_run_odd cfg k HC ltac:(lia)) as (_ & _ & Hb).
    cbn zeta in Hb. destruct Hb as [Hb|Hb]; [lia| |]; rewrite Hb; discriminate.
Qed.

Lemma bounded_run_done cfg :
  0 < TotalCycles cfg <= GoInt.max_int ->
  let s := Session.NextPhase_n (Z.to_nat (2 * TotalCycles cfg - 1)) (Session.NewSession cfg) in
  currentPhase s = PhaseDone
  /\ cyclesComplete s = TotalCycles cfg
  /\ phasesComplete s = totalPhases s
  /\ totalPhases s = GoInt.wrap (2 * TotalCycles cfg - 1).
Proof.
  intros HC. cbn zeta.
  set (C := TotalCycles cfg) in *.
  set (n := Z.to_nat (2 * C - 1)).
  assert (Hn : n = S (2 * Z.to_nat (C - 1))) by lia.
  destruct (bounded_run_odd cfg (Z.to_nat (C - 1)) HC ltac:(fold C; lia)) as (Hc & Hd & _).
  cbn zeta in Hc, Hd. rewrite <- Hn in Hc, Hd.
  assert (Htot : totalPhases (Session.NextPhase_n n (Session.NewSession cfg))
                 = GoInt.wrap (2 * C - 1)).
  { rewrite (proj2 (NextPhase_n_frame _ _)), NewSession_eq. cbn [totalPhases].
    fold C. rewrite spec_totalPhases_closed by lia. reflexivity. }
  split; [apply Hd; fold C; lia|]. split; [rewrite Hc; lia|]. split; [|exact Htot].
  rewrite Htot, (phasesComplete_run cfg n (bounded_run_not_done cfg HC)).
  apply wrap_eq. lia.
Qed.

(** X2. A session of [C > 0] cycles reaches Done at the call of [NextPhase]
    numbered [2 C - 1] and at none before; it then counts [C] completed
    cycles and as many completed phases as [TotalPhases] announced. *)
Theorem bounded_session_completes (cfg : Config) :
  0 < TotalCycles cfg <= GoInt.max_int ->
  let C := TotalCycles cfg in
  let n := Z.to_nat (2 * C - 1) in
  let s := Session.NextPhase_n n (Session.NewSession cfg) in
  currentPhase s = PhaseDone
  /\ fst (Session.CyclesComplete s) = C
  /\ fst (Session.PhasesComplete s) = fst (Session.TotalPhases s)
  /\ (forall j, (j < n)%nat ->
        currentPhase (Session.NextPhase_n j (Session.NewSession cfg)) <> PhaseDone)
  /\ (2 * C - 1 <= GoInt.max_int ->
      fst (Session.TotalPhases s) = 2 * C - 1
      /\ forall j, (j <= n)%nat ->
           phasesComplete (Session.NextPhase_n j (Session.NewSession cfg)) = Z.of_nat j).
Proof.
  intros HC. cbn zeta.
  destruct (bounded_run_done cfg HC) as (Hd & Hc & Hp & Htot). cbn zeta in *.
  pose proof (bounded_run_not_done cfg HC) as Hnd.
  split; [exact Hd|]. split; [exact Hc|]. split; [exact Hp|]. split; [exact Hnd|].
  intros Hsmall. split.
  - cbn. rewrite Htot. apply wrap_in_range.
    unfold GoInt.in_range, GoInt.min_int, GoInt.max_int in *. lia.
  - intros j Hj. rewrite phasesComplete_run by (intros i Hi; apply Hnd; lia).
    apply wrap_in_range. unfold GoInt.in_range, GoInt.min_int, GoInt.max_int in *. lia.
Qed.

Lemma bounded_session_completes_witness :
  let s := Session.NextPhase_n 9 (Session.NewSession cfg_5_2) in
  currentPhase s = PhaseDone /\ fst (Session.PhasesComplete s) = fst (Session.TotalPhases s).
Proof.
  destruct (bounded_session_completes cfg_5_2) as (Hd & _ & Hp & _).
  - vm_compute. split; [reflexivity|discriminate].
  - split; [exact Hd|exact Hp].
Defined.

Lemma NextPhase_n_done m s :
  currentPhase s = PhaseDone -> Session.NextPhase_n m s = s.
Proof.
  intros E. induction m as [|m IH]; [reflexivity|].
  cbn [Session.NextPhase_n]. now rewrite (NextPhase_done s E).
Qed.

(** The phases of a bounded session that are not Done, and the cycles they
    count. *)
Lemma bounded_run_cycles cfg k :
  0 < TotalCycles cfg <= GoInt.max_int ->
  let s := Session.NextPhase_n k (Session.NewSession cfg) in
  currentPhase s <> PhaseDone ->
  (currentPhase s = PhaseWork /\ 0 <= cyclesComplete s < TotalCycles cfg)
  \/ ((currentPhase s = PhaseShortBreak \/ currentPhase s = PhaseLongBreak)
      /\ 1 <= cyclesComplete s < TotalCycles cfg).
Proof.
  intros HC. cbn zeta. intros Hnd.
  set (n := Z.to_nat (2 * TotalCycles cfg - 1)).
  destruct (Nat.lt_ge_cases k n) as [Hlt|Hge].
  - destruct (Nat.Even_or_Odd k) as [[j ->]|[j ->]].
    + destruct (bounded_run_invariant cfg j HC ltac:(lia)) as (Hw & Hc & _).
      cbn zeta in Hw, Hc. left. split; [exact Hw|]. rewrite Hc. lia.
    + replace (2 * j + 1)%nat with (S (2 * j)) in * by lia.
      destruct (bounded_run_odd cfg j HC ltac:(lia)) as (Hc & _ & Hb).
      cbn zeta in Hc, Hb. right. split; [apply Hb; lia|]. rewrite Hc. lia.
  - exfalso. apply Hnd.
    replace k with (n + (k - n))%nat by lia. rewrite NextPhase_n_add.
    destruct (bounded_run_done cfg HC) as (Hd & _). cbn zeta in Hd. fold n in Hd.
    now rewrite (NextPhase_n_done _ _ Hd).
Qed.


(** ** The order of the actions of a run *)

Lemma runPhase_loop_stage env tick duration start : forall fuel ti s w,
  stage_of tick (trace w) = Some NeedSend ->
  let r := Timer.runPhase_loop env fuel duration start (mkTimer ti s) w in
  match r with
  | Returned ErrNil _ w' => stage_of tick (trace w') = Some (MustStop false)
  | Returned ErrCtx _ w' => stage_of tick (trace w') = Some (MustStop true)
  | Parked _ w' =>
      stage_of tick (trace w') = Some NeedSend \/ stage_of tick (trace w') = Some NeedTick
  | OutOfFuel _ w' => stage_of tick (trace w') = Some NeedSend
  end.
Proof.
  induction fuel as [|fuel IH]; intros ti s w Hst; cbn zeta.
  - exact Hst.
  - rewrite runPhase_loop_unfold. cbn zeta.
    set (ev := event_at s duration start (clock_now env (now_calls w))).
    set (w1 := mkWorld (S (now_calls w)) (select_calls w) (ctx_cancelled w) (trace w)).
    destruct (select_or_done_spec env (ActSend ev) (mkTimer ti s) w1)
      as [[-> _]|[[-> _]|[-> _]]]; cbn zeta.
    + left. exact Hst.
    + destruct (TimerEvent.PhaseComplete ev) eqn:Ec.
      * cbn [trace stage_of]. unfold w1. cbn [trace]. rewrite Hst. cbn. now rewrite Ec.
      * set (w2 := mkWorld _ _ _ (ActSend ev :: trace w1)).
        assert (Hst2 : stage_of tick (trace w2) = Some NeedTick).
        { unfold w2, w1. cbn [trace stage_of]. rewrite Hst. cbn. now rewrite Ec. }
        destruct (select_or_done_spec env ActTick (mkTimer ti s) w2)
          as [[-> _]|[[-> _]|[-> _]]]; cbn zeta.
        -- right. exact Hst2.
        -- apply IH. cbn [trace stage_of]. now rewrite Hst2.
        -- cbn [trace stage_of]. now rewrite Hst2.
    + cbn [trace stage_of]. unfold w1. cbn [trace]. now rewrite Hst.
Qed.

Lemma runPhase_stage env fuel ti s w :
  stage_of ti (trace w) = Some Idle ->
  let r := Timer.runPhase env fuel (mkTimer ti s) w in
  result_timer r = mkTimer ti s
  /\ match r with
     | Returned ErrNil _ w' => stage_of ti (trace w') = Some Idle
     | Returned ErrCtx _ w' => stage_of ti (trace w') = Some MustClose
     | Parked _ w' =>
         stage_of ti (trace w') = Some NeedSend \/ stage_of ti (trace w') = Some NeedTick
     | OutOfFuel _ w' => stage_of ti (trace w') = Some NeedSend
     end.
Proof.
  intros Hst. cbn zeta. rewrite runPhase_unfold. cbn zeta.
  destruct (fst (Session.PhaseDuration s) =? 0); [split; [reflexivity|exact Hst]|].
  set (w1 := mkWorld _ _ _ (ActNewTicker ti :: trace w)).
  assert (Hst1 : stage_of ti (trace w1) = Some NeedSend).
  { unfold w1. cbn [trace stage_of]. rewrite Hst. cbn. now rewrite Z.eqb_refl. }
  pose proof (runPhase_loop_stage env ti (fst (Session.PhaseDuration s))
                (clock_now env (now_calls w)) fuel ti s w1 Hst1) as Hloop.
  destruct (runPhase_loop_spec env (fst (Session.PhaseDuration s))
              (clock_now env (now_calls w)) ti s fuel w1) as [Ht _].
  cbn zeta in Hloop, Ht.
  destruct (Timer.runPhase_loop env fuel _ _ _ w1) as [e t' w'|t' w'|t' w'];
    cbn [result_timer] in *; (split; [exact Ht|]); [|exact Hloop..].
  destruct e; cbn [trace stage_of]; now rewrite Hloop.
Qed.

Lemma Run_loop_stage env : forall fuel ti s w,
  stage_of ti (trace w) = Some Idle ->
  let r := Timer.Run_loop env fuel (mkTimer ti s) w in
  match r with
  | Returned ErrNil _ w' => stage_of ti (trace w') = Some Idle
  | Returned ErrCtx _ w' => stage_of ti (trace w') = Some MustClose
  | Parked _ w' =>
      stage_of ti (trace w') = Some NeedSend \/ stage_of ti (trace w') = Some NeedTick
  | OutOfFuel _ w' =>
      stage_of ti (trace w') = Some Idle \/ stage_of ti (trace w') = Some NeedSend
  end.
Proof.
  induction fuel as [|fuel IH]; intros ti s w Hst; cbn zeta.
  - left. exact Hst.
  - rewrite Run_loop_unfold.
    destruct (Phase_eqb (currentPhase s) PhaseDone); [exact Hst|].
    destruct (runPhase_stage env fuel ti s w Hst) as [Ht Hr]. cbn zeta in Ht, Hr.
    destruct (Timer.runPhase env fuel (mkTimer ti s) w) as [e t' w'|t' w'|t' w'];
      cbn [result_timer] in Ht; subst t'; [|exact Hr|right; exact Hr].
    destruct e; [|exact Hr]. cbn [tickInterval session]. apply IH, Hr.
Qed.

Lemma stage_open_tickers tick : forall tr st,
  stage_of tick tr = Some st ->
  open_tickers tr = match st with
                    | Idle | MustClose | Closed => 0
                    | _ => 1
                    end.
Proof.
  induction tr as [|a tr IH]; intros st Hst; cbn [stage_of] in Hst.
  - now injection Hst as <-.
  - destruct (stage_of tick tr) as [st0|]; [|discriminate].
    specialize (IH st0 eq_refl).
    destruct st0 as [| | |[|]| |], a; cbn in Hst; try discriminate;
      cbn [open_tickers]; rewrite IH.
    all: try (injection Hst as <-; reflexivity).
    + destruct (d =? tick); [|discriminate]. now injection Hst as <-.
    + injection Hst as <-. now destruct (TimerEvent.PhaseComplete ev).
Qed.

(** X3. The actions of a run come in one order, whatever the clock, the
    consumer and the context do: [stage_of] accepts the trace.  When [Run]
    returns the channel has just been closed, once, every ticker created has
    been stopped, and at no time were two tickers running; a run that is
    suspended is at the send of an event or at the wait for a tick. *)
Theorem run_follows_protocol (env : Env) (cfg : Config) (tick : Z) (cancelled : bool)
    (fuel : nat) :
  let r := Timer.Run env fuel (Timer.NewTimerWithClock cfg tick)
             (Timer.start_world cancelled) in
  exists st,
    stage_of tick (trace (result_world r)) = Some st
    /\ match r with
       | Returned _ _ _ => st = Closed /\ open_tickers (trace (result_world r)) = 0
       | Parked _ _ => st = NeedSend \/ st = NeedTick
       | OutOfFuel _ _ => st = Idle \/ st = NeedSend
       end
    /\ (forall pre post, trace (result_world r) = pre ++ post ->
          0 <= open_tickers post <= 1).
Proof.
  cbn zeta. rewrite Run_unfold.
  pose proof (Run_loop_stage env fuel tick (Session.NewSession cfg)
                (Timer.start_world cancelled) eq_refl) as Hloop.
  cbn zeta in Hloop. unfold Timer.NewTimerWithClock.
  assert (Hsuffix : forall tr st, stage_of tick tr = Some st ->
            forall pre post, tr = pre ++ post -> 0 <= open_tickers post <= 1).
  { intros tr st Hst pre. revert tr st Hst.
    induction pre as [|a pre IH]; intros tr st Hst post ->.
    - cbn [app] in Hst. rewrite (stage_open_tickers tick post st Hst).
      destruct st; lia.
    - cbn [app stage_of] in Hst.
      destruct (stage_of tick (pre ++ post)) as [st0|] eqn:E; [|discriminate].
      exact (IH _ st0 E post eq_refl). }
  destruct (Timer.Run_loop env fuel _ _) as [e t' w'|t' w'|t' w'];
    cbn [result_world trace] in *.
  - exists Closed.
    assert (Hst : stage_of tick (ActClose :: trace w') = Some Closed)
      by (cbn [stage_of]; destruct e; now rewrite Hloop).
    split; [exact Hst|]. split.
    + split; [reflexivity|]. now rewrite (stage_open_tickers tick _ _ Hst).
    + exact (Hsuffix _ _ Hst).
  - destruct Hloop as [H|H]; eexists; (split; [exact H|]);
      (split; [auto|exact (Hsuffix _ _ H)]).
  - destruct Hloop as [H|H]; eexists; (split; [exact H|]);
      (split; [auto|exact (Hsuffix _ _ H)]).
Qed.

(** ** How the fields of an event hang together *)

Lemma event_at_consistent s duration start now :
  duration <> 0 ->
  let ev := event_at s duration start now in
  TimerEvent.PhaseComplete ev = (TimerEvent.Total ev <=? TimerEvent.Elapsed ev)
  /\ TimerEvent.Fraction ev <> S754_nan
  /\ GoInt.in_range (TimerEvent.Elapsed ev)
  /\ (start <= now -> 0 < duration <= GoInt.max_int ->
      if TimerEvent.PhaseComplete ev
      then TimerEvent.Remaining ev = 0 /\ TimerEvent.Total ev <= TimerEvent.Elapsed ev
      else TimerEvent.Remaining ev = TimerEvent.Total ev - TimerEvent.Elapsed ev
           /\ 0 < TimerEvent.Remaining ev <= TimerEvent.Total ev).
Proof.
  intros Hd. cbn zeta.
  destruct (event_at_fields s duration start now) as (_ & Hel & Hrem & Htot & Hpc & _).
  cbn zeta in *. rewrite Hel, Hrem, Htot, Hpc, event_at_fraction. cbn zeta.
  pose proof (Time_Sub_range now start) as Hr.
  split; [reflexivity|]. split; [|split; [exact Hr|]].
  - destruct (fraction_cases (Time_Sub now start) duration Hr Hd) as [Hf|[Hf|(m & e & Hf)]];
      cbn zeta in Hf; rewrite Hf; destruct (Float64.ltb _ _); discriminate.
  - intros Hmono Hdur. pose proof (Time_Sub_nonneg now start Hmono) as Hpos.
    assert (Hsub : GoInt.sub duration (Time_Sub now start) = duration - Time_Sub now start).
    { apply wrap_in_range. unfold GoInt.in_range, GoInt.min_int, GoInt.max_int in *. lia. }
    rewrite Hsub.
    destruct (Z.leb_spec duration (Time_Sub now start));
      destruct (Z.ltb_spec (duration - Time_Sub now start) 0); lia.
Qed.

(** X4. In every event of a run the flag [PhaseComplete] says that the
    elapsed time has reached the total, and the fraction is a number (never
    NaN).  With a clock that never goes backwards and a positive duration,
    an event that is not flagged complete has [Remaining = Total - Elapsed],
    positive, and one that is flagged complete has [Remaining = 0]. *)
Theorem event_fields_consistent (env : Env) (cfg : Config) (tick : Z) (cancelled : bool)
    (fuel : nat) (ev : TimerEvent.t) :
  In (ActSend ev)
    (trace (result_world
       (Timer.Run env fuel (Timer.NewTimerWithClock cfg tick)
          (Timer.start_world cancelled)))) ->
  TimerEvent.PhaseComplete ev = (TimerEvent.Total ev <=? TimerEvent.Elapsed ev)
  /\ TimerEvent.Fraction ev <> S754_nan
  /\ GoInt.in_range (TimerEvent.Elapsed ev)
  /\ (monotone_clock env -> 0 < TimerEvent.Total ev <= GoInt.max_int ->
      if TimerEvent.PhaseComplete ev
      then TimerEvent.Remaining ev = 0 /\ TimerEvent.Total ev <= TimerEvent.Elapsed ev
      else TimerEvent.Remaining ev = TimerEvent.Total ev - TimerEvent.Elapsed ev
           /\ 0 < TimerEvent.Remaining ev <= TimerEvent.Total ev).
Proof.
  intros Hin. destruct (Run_trace env cfg tick cancelled fuel) as [Hev _].
  apply events_of_In in Hin.
  destruct (proj1 (List.Forall_forall _ _) Hev ev Hin) as (k & i & j & Hij & Hd & ->).
  set (s := Session.NextPhase_n k (Session.NewSession cfg)) in *.
  set (d := fst (Session.PhaseDuration s)) in *.
  destruct (event_at_consistent s d (clock_now env i) (clock_now env j) Hd)
    as (Hpc & Hnan & Hr & Hrem).
  destruct (event_at_fields s d (clock_now env i) (clock_now env j))
    as (_ & _ & _ & Htot & _).
  cbn zeta in *. split; [exact Hpc|]. split; [exact Hnan|]. split; [exact Hr|].
  intros Hmono Hdur. apply Hrem; [apply Hmono; lia|]. now rewrite <- Htot.
Qed.

Lemma event_fields_consistent_witness :
  exists ev,
    In (ActSend ev)
      (trace (result_world
         (Timer.Run env_minutes 9 (Timer.NewTimerWithClock cfg_2_0 DefaultTickInterval)
            (Timer.start_world false))))
    /\ TimerEvent.Fraction ev <> S754_nan
    /\ TimerEvent.Remaining ev = 0.
Proof.
  eexists. split; [vm_compute; right; right; left; reflexivity|].
  match goal with
  | |- context [TimerEvent.Remaining ?e] =>
      destruct (event_fields_consistent env_minutes cfg_2_0 DefaultTickInterval false 9 e)
        as (_ & Hnan & _ & _)
  end.
  - vm_compute. right. right. left. reflexivity.
  - split; [exact Hnan|reflexivity].
Defined.

(** ** The events of one phase *)

Lemma Time_Sub_mono t t' u : t <= t' -> Time_Sub t u <= Time_Sub t' u.
Proof.
  unfold Time_Sub, GoInt.min_int, GoInt.max_int. intros H.
  destruct (Z.ltb_spec (t - u) (-9223372036854775808));
    destruct (Z.ltb_spec (t' - u) (-9223372036854775808));
    destruct (Z.ltb_spec 9223372036854775807 (t - u));
    destruct (Z.ltb_spec 9223372036854775807 (t' - u)); lia.
Qed.

Lemma runPhase_loop_readings env d start ti s : forall fuel w (evt : nat -> TimerEvent.t),
  (forall j, evt j = event_at s d start (clock_now env (now_calls w + j))) ->
  let r := Timer.runPhase_loop env fuel d start (mkTimer ti s) w in
  exists m : nat,
    events_of (trace (result_world r)) = rev (map evt (seq 0 m)) ++ events_of (trace w)
    /\ (now_calls w + m <= now_calls (result_world r) <= now_calls w + m + 1)%nat
    /\ match r with
       | Returned ErrNil _ _ =>
           (0 < m)%nat /\ TimerEvent.PhaseComplete (evt (m - 1)%nat) = true
           /\ forall j, (S j < m)%nat -> TimerEvent.PhaseComplete (evt j) = false
       | _ => forall j, (j < m)%nat -> TimerEvent.PhaseComplete (evt j) = false
       end.
Proof.
  induction fuel as [|fuel IH]; intros w evt Hevt; cbn zeta.
  - exists O. cbn. split; [reflexivity|]. split; [lia|]. intros j Hj. lia.
  - rewrite runPhase_loop_unfold. cbn zeta.
    replace (event_at s d start (clock_now env (now_calls w))) with (evt O)
      by (rewrite Hevt; now rewrite Nat.add_0_r).
    set (w1 := mkWorld (S (now_calls w)) (select_calls w) (ctx_cancelled w) (trace w)).
    destruct (select_or_done_spec env (ActSend (evt O)) (mkTimer ti s) w1)
      as [[-> _]|[[-> _]|[-> _]]]; cbn zeta.
    + exists O. cbn. split; [reflexivity|]. split; [lia|]. intros j Hj. lia.
    + destruct (TimerEvent.PhaseComplete (evt O)) eqn:Ec.
      * exists 1%nat. cbn. split; [reflexivity|]. split; [lia|].
        split; [lia|]. split; [exact Ec|]. intros j Hj. lia.
      * set (w2 := mkWorld _ _ _ (ActSend (evt O) :: trace w1)).
        destruct (select_or_done_spec env ActTick (mkTimer ti s) w2)
          as [[-> _]|[[-> _]|[-> _]]]; cbn zeta.
        -- exists 1%nat. cbn. split; [reflexivity|]. split; [lia|].
           intros j Hj. replace j with O by lia. exact Ec.
        -- set (w3 := mkWorld _ _ _ (ActTick :: trace w2)).
           destruct (IH w3 (fun j => evt (S j))) as (m & Hevs & Hnow & Hres).
           { intros j. rewrite Hevt. unfold w3, w2, w1. cbn [now_calls].
             f_equal. f_equal. lia. }
           cbn zeta in Hevs, Hnow, Hres. exists (S m). split; [|split].
           ++ rewrite Hevs. unfold w3, w2, w1. cbn [trace events_of].
              cbn [seq map rev]. rewrite <- seq_shift, map_map, <- app_assoc.
              reflexivity.
           ++ change (now_calls w3) with (S (now_calls w)) in Hnow. lia.
           ++ destruct (Timer.runPhase_loop env fuel d start (mkTimer ti s) w3)
                as [e t' w'|t' w'|t' w'].
              ** destruct e.
                 --- destruct Hres as (Hm & Hlast & Hearly). split; [lia|]. split.
                     +++ replace (S m - 1)%nat with (S (m - 1)) by lia. exact Hlast.
                     +++ intros j Hj. destruct j as [|j]; [exact Ec|]. apply Hearly. lia.
                 --- intros j Hj. destruct j as [|j]; [exact Ec|]. apply Hres. lia.
              ** intros j Hj. destruct j as [|j]; [exact Ec|]. apply Hres. lia.
              ** intros j Hj. destruct j as [|j]; [exact Ec|]. apply Hres. lia.
        -- exists 1%nat. cbn. split; [reflexivity|]. split; [lia|].
           intros j Hj. replace j with O by lia. exact Ec.
    + exists O. cbn. split; [reflexivity|]. split; [lia|]. intros j Hj. lia.
Qed.

(** X5. A phase that is not skipped reads the clock once to start and then
    once for each event: its events are those of the consecutive readings
    that follow, in that order, and each but the last is not flagged
    complete.  When the phase ends normally its last event is the first one
    flagged complete, so a phase never ends before the elapsed time has
    reached its duration; with a clock that never goes backwards the elapsed
    times of its events never decrease. *)
Theorem phase_events_follow_readings (env : Env) (fuel : nat) (ti : Z) (s : Session)
    (w : World) :
  let d := fst (Session.PhaseDuration s) in
  d <> 0 ->
  let r := Timer.runPhase env fuel (mkTimer ti s) w in
  let evt := phase_event env s d (now_calls w) in
  exists m : nat,
    events_of (trace (result_world r)) = rev (map evt (seq 0 m)) ++ events_of (trace w)
    /\ (S (now_calls w) + m <= now_calls (result_world r) <= S (now_calls w) + m + 1)%nat
    /\ (forall j, (S j < m)%nat -> TimerEvent.PhaseComplete (evt j) = false)
    /\ match r with
       | Returned ErrNil _ _ =>
           (0 < m)%nat /\ TimerEvent.PhaseComplete (evt (m - 1)%nat) = true
           /\ d <= TimerEvent.Elapsed (evt (m - 1)%nat)
       | _ => forall j, (j < m)%nat -> TimerEvent.PhaseComplete (evt j) = false
       end
    /\ (monotone_clock env ->
        forall i j, (i <= j)%nat ->
          0 <= TimerEvent.Elapsed (evt i) <= TimerEvent.Elapsed (evt j)).
Proof.
  cbn zeta. intros Hd. rewrite runPhase_unfold. cbn zeta.
  destruct (Z.eqb_spec (fst (Session.PhaseDuration s)) 0) as [E|_]; [contradiction|].
  set (d := fst (Session.PhaseDuration s)) in *.
  set (w1 := mkWorld (S (now_calls w)) (select_calls w) (ctx_cancelled w)
               (ActNewTicker ti :: trace w)).
  destruct (runPhase_loop_readings env d (clock_now env (now_calls w)) ti s fuel w1
              (phase_event env s d (now_calls w)) ltac:(reflexivity))
    as (m & Hevs & Hnow & Hres).
  cbn zeta in Hevs, Hnow, Hres.
  change (now_calls w1) with (S (now_calls w)) in Hnow.
  change (events_of (trace w1)) with (events_of (trace w)) in Hevs.
  exists m.
  assert (Hmono : monotone_clock env ->
            forall i j, (i <= j)%nat ->
              0 <= TimerEvent.Elapsed (phase_event env s d (now_calls w) i)
              <= TimerEvent.Elapsed (phase_event env s d (now_calls w) j)).
  { intros Hc i j Hij. unfold phase_event.
    destruct (event_at_fields s d (clock_now env (now_calls w))
                (clock_now env (S (now_calls w) + i))) as (_ & -> & _).
    destruct (event_at_fields s d (clock_now env (now_calls w))
                (clock_now env (S (now_calls w) + j))) as (_ & -> & _).
    split; [apply Time_Sub_nonneg, Hc; lia|apply Time_Sub_mono, Hc; lia]. }
  assert (Hcomplete : forall j,
            TimerEvent.PhaseComplete (phase_event env s d (now_calls w) j) = true ->
            d <= TimerEvent.Elapsed (phase_event env s d (now_calls w) j)).
  { intros j Hj. unfold phase_event in *.
    destruct (event_at_fields s d (clock_now env (now_calls w))
                (clock_now env (S (now_calls w) + j))) as (_ & Hel & _ & _ & Hpc & _).
    rewrite Hel. rewrite Hpc in Hj. now apply Z.leb_le. }
  destruct (Timer.runPhase_loop env fuel d _ (mkTimer ti s) w1) as [e t' w'|t' w'|t' w'];
    cbn [result_world trace events_of now_calls] in *.
  - split; [exact Hevs|]. split; [exact Hnow|]. destruct e.
    + destruct Hres as (Hm & Hlast & Hearly).
      split; [exact Hearly|]. split; [|exact Hmono].
      split; [exact Hm|]. split; [exact Hlast|]. apply Hcomplete, Hlast.
    + split; [intros j Hj; apply Hres; lia|]. split; [exact Hres|exact Hmono].
  - split; [exact Hevs|]. split; [exact Hnow|].
    split; [intros j Hj; apply Hres; lia|]. split; [exact Hres|exact Hmono].
  - split; [exact Hevs|]. split; [exact Hnow|].
    split; [intros j Hj; apply Hres; lia|]. split; [exact Hres|exact Hmono].
Qed.

Lemma phase_events_follow_readings_witness :
  exists m : nat,
    events_of (trace (result_world
      (Timer.runPhase env_nanoseconds 9
         (mkTimer DefaultTickInterval (Session.NewSession (mkConfig 3 0 0 0 1)))
         (Timer.start_world false))))
    = rev (map (phase_event env_nanoseconds (Session.NewSession (mkConfig 3 0 0 0 1)) 3 0)
             (seq 0 m)) ++ [].
Proof.
  destruct (phase_events_follow_readings env_nanoseconds 9 DefaultTickInterval
              (Session.NewSession (mkConfig 3 0 0 0 1)) (Timer.start_world false))
    as (m & Hevs & _).
  - vm_compute. discriminate.
  - exists m. exact Hevs.
Defined.

(** ** A run with a ready consumer and a clock that advances *)

Lemma select_ready env a t w :
  ready_consumer env -> ctx_cancelled w = false ->
  Timer.select_or_done env a t w
  = Returned Proceed t (mkWorld (now_calls w) (S (select_calls w)) false (a :: trace w)).
Proof.
  intros Hr Hc. destruct (Hr (select_calls w)) as [Hn Hy].
  unfold Timer.select_or_done. now rewrite Hc, Hn, Hy.
Qed.

Lemma runPhase_loop_returns env d start ti s :
  ready_consumer env -> ticking_clock env -> d <= GoInt.max_int ->
  forall (k : nat) w,
    ctx_cancelled w = false ->
    start <= clock_now env (now_calls w) ->
    d - (clock_now env (now_calls w) - start) <= Z.of_nat k ->
    exists w',
      ctx_cancelled w' = false
      /\ forall fuel, (k < fuel)%nat ->
           Timer.runPhase_loop env fuel d start (mkTimer ti s) w
           = Returned ErrNil (mkTimer ti s) w'.
Proof.
  intros Hr Ht Hd. induction k as [|k IH]; intros w Hc Hs Hk.
  - eexists. split; [|intros fuel Hf; destruct fuel as [|fuel]; [lia|]].
    2:{ rewrite runPhase_loop_unfold. cbn zeta. rewrite select_ready by assumption.
        destruct (event_at_fields s d start (clock_now env (now_calls w)))
          as (_ & _ & _ & _ & -> & _).
        replace (d <=? Time_Sub (clock_now env (now_calls w)) start) with true; [reflexivity|].
        symmetry. apply Z.leb_le. unfold Time_Sub, GoInt.min_int, GoInt.max_int in *.
        destruct (Z.ltb_spec (clock_now env (now_calls w) - start) (-9223372036854775808));
          [lia|].
        destruct (Z.ltb_spec 9223372036854775807 (clock_now env (now_calls w) - start)); lia. }
    reflexivity.
  - destruct (Z.leb_spec d (Time_Sub (clock_now env (now_calls w)) start)) as [Hdone|Hnot].
    + eexists. split; [|intros fuel Hf; destruct fuel as [|fuel]; [lia|]].
      2:{ rewrite runPhase_loop_unfold. cbn zeta. rewrite select_ready by assumption.
          destruct (event_at_fields s d start (clock_now env (now_calls w)))
            as (_ & _ & _ & _ & -> & _).
          replace (d <=? Time_Sub (clock_now env (now_calls w)) start) with true
            by (symmetry; now apply Z.leb_le).
          reflexivity. }
      reflexivity.
    + set (ev := event_at s d start (clock_now env (now_calls w))).
      set (w3 := mkWorld (S (now_calls w)) (S (S (select_calls w))) false
                   (ActTick :: ActSend ev :: trace w)).
      destruct (IH w3) as (w' & Hc' & Hrun).
      * reflexivity.
      * cbn [now_calls w3]. pose proof (Ht (now_calls w)). lia.
      * cbn [now_calls w3]. pose proof (Ht (now_calls w)). lia.
      * exists w'. split; [exact Hc'|]. intros fuel Hf. destruct fuel as [|fuel]; [lia|].
        rewrite runPhase_loop_unfold. cbn zeta. rewrite select_ready by assumption.
        fold ev.
        destruct (event_at_fields s d start (clock_now env (now_calls w)))
          as (_ & _ & _ & _ & Hpc & _).
        fold ev in Hpc. rewrite Hpc.
        replace (d <=? Time_Sub (clock_now env (now_calls w)) start) with false
          by (symmetry; apply Z.leb_gt; lia).
        rewrite select_ready by (assumption || reflexivity).
        cbn [now_calls select_calls trace]. apply Hrun. lia.
Qed.

Lemma runPhase_returns env ti s w :
  ready_consumer env -> ticking_clock env ->
  fst (Session.PhaseDuration s) <= GoInt.max_int ->
  ctx_cancelled w = false ->
  exists (K : nat) w',
    ctx_cancelled w' = false
    /\ forall fuel, (K <= fuel)%nat ->
         Timer.runPhase env fuel (mkTimer ti s) w = Returned ErrNil (mkTimer ti s) w'.
Proof.
  intros Hr Ht Hd Hc.
  destruct (Z.eqb_spec (fst (Session.PhaseDuration s)) 0) as [E|E].
  - exists O, w. split; [exact Hc|]. intros fuel _. rewrite runPhase_unfold. cbn zeta.
    now rewrite E.
  - set (d := fst (Session.PhaseDuration s)) in *.
    set (w1 := mkWorld (S (now_calls w)) (select_calls w) (ctx_cancelled w)
                 (ActNewTicker ti :: trace w)).
    destruct (runPhase_loop_returns env d (clock_now env (now_calls w)) ti s Hr Ht Hd
                (Z.to_nat d) w1) as (w' & Hc' & Hrun).
    + exact Hc.
    + cbn [now_calls w1]. pose proof (Ht (now_calls w)). lia.
    + cbn [now_calls w1]. pose proof (Ht (now_calls w)). lia.
    + exists (S (Z.to_nat d)).
      exists (mkWorld (now_calls w') (select_calls w') (ctx_cancelled w')
                (ActStop :: trace w')).
      split; [exact Hc'|]. intros fuel Hf. rewrite runPhase_unfold. cbn zeta. fold d.
      destruct (Z.eqb_spec d 0); [contradiction|].
      fold w1. rewrite Hrun by lia. reflexivity.
Qed.

Lemma PhaseDuration_in_range cfg k :
  durations_in_range cfg ->
  fst (Session.PhaseDuration (Session.NextPhase_n k (Session.NewSession cfg)))
  <= GoInt.max_int.
Proof.
  intros (Hw & Hs & Hl).
  pose proof (PhaseDuration_cases (Session.NextPhase_n k (Session.NewSession cfg))) as H.
  cbn zeta in H.
  rewrite (proj1 (NextPhase_n_frame _ _)), (proj1 (NewSession_fields cfg)) in H.
  unfold GoInt.in_range, GoInt.max_int in *. lia.
Qed.

Lemma Run_loop_returns env cfg tick (n : nat) :
  ready_consumer env -> ticking_clock env -> durations_in_range cfg ->
  currentPhase (Session.NextPhase_n n (Session.NewSession cfg)) = PhaseDone ->
  forall (rem j : nat) w,
    (j + rem = n)%nat ->
    ctx_cancelled w = false ->
    exists (K : nat) w',
      ctx_cancelled w' = false
      /\ forall fuel, (K <= fuel)%nat ->
           Timer.Run_loop env fuel
             (mkTimer tick (Session.NextPhase_n j (Session.NewSession cfg))) w
           = Returned ErrNil
               (mkTimer tick (Session.NextPhase_n n (Session.NewSession cfg))) w'.
Proof.
  intros Hr Ht Hd Hdone. induction rem as [|rem IH]; intros j w Hj Hc.
  - replace j with n by lia. exists 1%nat, w. split; [exact Hc|].
    intros fuel Hf. destruct fuel as [|fuel]; [lia|].
    rewrite Run_loop_unfold, Hdone. reflexivity.
  - set (s := Session.NextPhase_n j (Session.NewSession cfg)).
    destruct (Phase_eqb (currentPhase s) PhaseDone) eqn:E.
    + exists 1%nat, w. split; [exact Hc|].
      intros fuel Hf. destruct fuel as [|fuel]; [lia|].
      rewrite Run_loop_unfold. fold s. rewrite E. f_equal. f_equal.
      apply Phase_eqb_eq in E.
      replace n with (j + S rem)%nat by lia. rewrite NextPhase_n_add. fold s.
      symmetry. apply NextPhase_n_done, E.
    + destruct (runPhase_returns env tick s w Hr Ht (PhaseDuration_in_range cfg j Hd) Hc)
        as (K1 & w1 & Hc1 & Hrun1).
      destruct (IH (S j) w1 ltac:(lia) Hc1) as (K2 & w2 & Hc2 & Hrun2).
      exists (S (Nat.max K1 K2)), w2. split; [exact Hc2|].
      intros fuel Hf. destruct fuel as [|fuel]; [lia|].
      rewrite Run_loop_unfold. fold s. rewrite E, Hrun1 by lia.
      cbn [tickInterval session]. unfold s. rewrite <- NextPhase_n_succ. apply Hrun2. lia.
Qed.

(** X6. With a consumer that is always ready, a context that is never
    cancelled and a clock whose readings increase, the run of a session of
    [C > 0] cycles returns [nil]: some amount of fuel suffices, and any
    larger amount gives the same result.  The session is then Done, with [C]
    completed cycles and as many completed phases as [TotalPhases] announced,
    and the channel is closed.  The tick interval is positive, as
    [time.NewTicker] demands of the interval it is given. *)
Theorem run_completes (env : Env) (cfg : Config) (tick : Z) :
  ready_consumer env -> ticking_clock env ->
  0 < tick ->
  durations_in_range cfg ->
  0 < TotalCycles cfg <= GoInt.max_int ->
  exists (K : nat) (t : Timer) (w : World),
    (forall fuel, (K <= fuel)%nat ->
       Timer.Run env fuel (Timer.NewTimerWithClock cfg tick) (Timer.start_world false)
       = Returned ErrNil t w)
    /\ currentPhase (session t) = PhaseDone
    /\ cyclesComplete (session t) = TotalCycles cfg
    /\ phasesComplete (session t) = totalPhases (session t)
    /\ ctx_cancelled w = false
    /\ exists tr, trace w = ActClose :: tr.
Proof.
  intros Hr Ht Htick Hd HC.
  destruct (bounded_run_done cfg HC) as (Hdone & Hcyc & Hph & _). cbn zeta in *.
  set (n := Z.to_nat (2 * TotalCycles cfg - 1)) in *.
  destruct (Run_loop_returns env cfg tick n Hr Ht Hd Hdone n O (Timer.start_world false)
              ltac:(lia) eq_refl) as (K & w' & Hc' & Hrun).
  exists K, (mkTimer tick (Session.NextPhase_n n (Session.NewSession cfg))).
  exists (mkWorld (now_calls w') (select_calls w') (ctx_cancelled w') (ActClose :: trace w')).
  split; [|cbn [session ctx_cancelled trace]; eauto 10].
  intros fuel Hf. rewrite Run_unfold. unfold Timer.NewTimerWithClock.
  change (Session.NewSession cfg) with (Session.NextPhase_n 0 (Session.NewSession cfg)) at 1.
  now rewrite (Hrun fuel Hf).
Qed.

Lemma env_nanoseconds_ready : ready_consumer env_nanoseconds.
Proof. intros n. split; reflexivity. Qed.

Lemma env_nanoseconds_ticking : ticking_clock env_nanoseconds.
Proof. intros n. cbn. lia. Qed.

Lemma run_completes_witness :
  exists (K : nat) (t : Timer) (w : World),
    (forall fuel, (K <= fuel)%nat ->
       Timer.Run env_nanoseconds fuel (Timer.NewTimerWithClock cfg_5_2 DefaultTickInterval)
         (Timer.start_world false)
       = Returned ErrNil t w)
    /\ currentPhase (session t) = PhaseDone.
Proof.
  destruct (run_completes env_nanoseconds cfg_5_2 DefaultTickInterval
              env_nanoseconds_ready env_nanoseconds_ticking)
    as (K & t & w & Hrun & Hd & _).
  - reflexivity.
  - vm_compute. repeat split; discriminate.
  - vm_compute. split; [reflexivity|discriminate].
  - exists K, t, w. split; [exact Hrun|exact Hd].
Defined.

(** ** Two advances in a row *)

Lemma find_earliest_set_current t m :
  MockClock.find_earliest (MockClock.set_current t m) = MockClock.find_earliest m.
Proof. reflexivity. Qed.

Lemma Advance_loop_split t1 t2 : forall f1 f2 m m1 m2,
  t1 <= t2 ->
  MockClock.Advance_loop f1 t1 m = Some m1 ->
  MockClock.Advance_loop f2 t2 m1 = Some m2 ->
  MockClock.Advance_loop (f1 + f2) t2 m = Some m2.
Proof.
  intros f1. induction f1 as [|f1 IH]; intros f2 m m1 m2 Ht H1 H2.
  - cbn [MockClock.Advance_loop] in H1.
    destruct (Z.ltb_spec (current m) t1); [discriminate|]. now injection H1 as <-.
  - cbn [MockClock.Advance_loop] in H1.
    destruct (Z.ltb_spec (current m) t1) as [Hlt|Hge].
    2:{ injection H1 as <-. apply (Advance_loop_more_fuel _ _ _ _ H2). lia. }
    cbn [Nat.add MockClock.Advance_loop].
    destruct (Z.ltb_spec (current m) t2) as [_|Hge]; [|lia].
    unfold MockClock.Advance_body in *.
    destruct (MockClock.find_earliest m) as [[i e]|] eqn:Ef.
    + destruct (Z.ltb_spec t1 (nextTick e)) as [Hlate|Hdue].
      * injection H1 as <-.
        destruct f2 as [|f2]; cbn [MockClock.Advance_loop] in H2;
          cbn [current MockClock.set_current] in H2;
          destruct (Z.ltb_spec t1 t2) as [Hlt2|Hge2].
        -- discriminate.
        -- injection H2 as <-. replace t2 with t1 by lia.
           destruct (Z.ltb_spec t1 (nextTick e)); [reflexivity|lia].
        -- unfold MockClock.Advance_body in H2.
           rewrite find_earliest_set_current, Ef in H2.
           destruct (Z.ltb_spec t2 (nextTick e)).
           ++ now injection H2 as <-.
           ++ apply (Advance_loop_more_fuel _ _ _ _ H2). lia.
        -- injection H2 as <-. replace t2 with t1 by lia.
           destruct (Z.ltb_spec t1 (nextTick e)); [reflexivity|lia].
      * destruct (Z.ltb_spec t2 (nextTick e)); [lia|].
        exact (IH f2 _ m1 m2 Ht H1 H2).
    + injection H1 as <-.
      destruct f2 as [|f2]; cbn [MockClock.Advance_loop] in H2;
        cbn [current MockClock.set_current] in H2;
        destruct (Z.ltb_spec t1 t2) as [Hlt2|Hge2].
      * discriminate.
      * injection H2 as <-. now replace t2 with t1 by lia.
      * unfold MockClock.Advance_body in H2.
        rewrite find_earliest_set_current, Ef in H2. now injection H2 as <-.
      * injection H2 as <-. now replace t2 with t1 by lia.
Qed.

(** X7. Two advances by [d1 >= 0] and then [d2 >= 0] that return leave the
    clock and its tickers as one advance by [d1 + d2] does; so do two
    [Sleep]s. *)
Theorem advance_twice (m m1 m2 : MockClock) (d1 d2 : Z) (f1 f2 : nat) :
  0 <= d1 -> 0 <= d2 ->
  MockClock.Advance f1 d1 m = Some m1 ->
  MockClock.Advance f2 d2 m1 = Some m2 ->
  MockClock.Advance (f1 + f2) (d1 + d2) m = Some m2
  /\ MockClock.Sleep (f1 + f2) (d1 + d2) m = Some m2
  /\ MockClock.Now m2 = MockClock.Now m + d1 + d2.
Proof.
  intros Hd1 Hd2 H1 H2. unfold MockClock.Sleep, MockClock.Advance, MockClock.Now in *.
  assert (Hc1 : current m1 = current m + d1).
  { destruct (Z.eq_dec d1 0) as [->|Hne].
    - destruct (Advance_loop_noop (current m + 0) f1 m ltac:(lia)) as [Hn _].
      rewrite Hn in H1. injection H1 as <-. lia.
    - apply (Advance_loop_reaches_target _ _ _ _ H1). lia. }
  rewrite Hc1 in H2.
  assert (Hc2 : current m2 = current m + d1 + d2).
  { destruct (Z.eq_dec d2 0) as [->|Hne].
    - destruct (Advance_loop_noop (current m + d1 + 0) f2 m1 ltac:(lia)) as [Hn _].
      rewrite Hn in H2. injection H2 as <-. lia.
    - apply (Advance_loop_reaches_target _ _ _ _ H2). lia. }
  assert (H : MockClock.Advance_loop (f1 + f2) (current m + (d1 + d2)) m = Some m2).
  { rewrite Z.add_assoc. apply (Advance_loop_split (current m + d1) _ f1 f2 m m1 m2);
      [lia|assumption..]. }
  auto.
Qed.

Lemma advance_twice_witness :
  MockClock.Advance (35 + 35) (8 + 12) clock_3_5
  = Some (mkClock 20 [mkTicker 3 [3] 21 false; mkTicker 5 [5] 25 false]).
Proof.
  apply (advance_twice clock_3_5
           (mkClock 8 [mkTicker 3 [3] 9 false; mkTicker 5 [5] 10 false]) _ 8 12 35 35);
    [lia|lia|reflexivity|reflexivity].
Defined.

(** ** A ticker with an interval that is not positive *)

Lemma positive_intervals_Stop i m :
  positive_intervals m -> positive_intervals (MockClock.Stop i m).
Proof.
  unfold positive_intervals, MockClock.Stop. cbn [tickers]. intros H.
  apply Forall_lookup. intros j t Hj.
  destruct (decide (i = j)) as [->|Hne].
  - rewrite list_lookup_alter_eq in Hj.
    destruct (tickers m !! j) as [t0|] eqn:E; cbn in Hj; [|discriminate].
    injection Hj as <-. cbn. discriminate.
  - rewrite list_lookup_alter_ne in Hj by assumption.
    exact (proj1 (Forall_lookup _ _) H j t Hj).
Qed.

Lemma positive_intervals_Stop_new d m :
  positive_intervals m ->
  positive_intervals
    (MockClock.Stop (fst (MockClock.NewTicker d m)) (snd (MockClock.NewTicker d m))).
Proof.
  unfold positive_intervals, MockClock.Stop, MockClock.NewTicker. cbn [tickers fst snd].
  intros H. apply Forall_lookup. intros j t Hj.
  destruct (decide (length (tickers m) = j)) as [<-|Hne].
  - rewrite list_lookup_alter_eq, lookup_app_r, Nat.sub_diag in Hj by lia.
    cbn in Hj. injection Hj as <-. cbn. discriminate.
  - rewrite list_lookup_alter_ne in Hj by assumption.
    destruct (lookup_app_Some (tickers m) [mkTicker d [] (current m + d) false] j t)
      as [Hl _]. destruct (Hl Hj) as [Hin|[Hlen Hin]].
    + exact (proj1 (Forall_lookup _ _) H j t Hin).
    + destruct (j - length (tickers m))%nat as [|k] eqn:Ek; [lia|discriminate].
Qed.

(** X8. [NewTicker] accepts an interval that is zero or negative; an advance
    by a positive amount then never returns, whatever the fuel, because the
    tick of that ticker does not move it forward.  Stopping the ticker lets
    the advance return again when the other running tickers have positive
    intervals. *)
Theorem nonpositive_ticker_hangs (m : MockClock) (d D : Z) :
  d <= 0 -> 0 < D ->
  let i := fst (MockClock.NewTicker d m) in
  let m' := snd (MockClock.NewTicker d m) in
  (forall fuel, MockClock.Advance fuel D m' = None)
  /\ (positive_intervals m ->
      exists fuel m'', MockClock.Advance fuel D (MockClock.Stop i m') = Some m''
                       /\ current m'' = current m + D).
Proof.
  intros Hd HD. cbn zeta. split.
  - intros fuel. unfold MockClock.Advance. apply stuck_never_returns.
    unfold stuck_ticker, MockClock.NewTicker. cbn [snd current tickers].
    split; [lia|].
    exists (length (tickers m)), (mkTicker d [] (current m + d) false).
    rewrite lookup_app_r, Nat.sub_diag by lia. cbn. repeat split; lia.
  - intros Hpos.
    set (ms := MockClock.Stop (fst (MockClock.NewTicker d m)) (snd (MockClock.NewTicker d m))).
    destruct (Advance_loop_terminates (current ms + D)
                (MockClock.owed_total (current ms + D) (tickers ms)) ms
                (positive_intervals_Stop_new d m Hpos) ltac:(lia)) as [m'' Hm''].
    exists (S (MockClock.owed_total (current ms + D) (tickers ms))), m''.
    split; [exact Hm''|].
    rewrite (Advance_loop_reaches_target _ _ _ _ Hm'') by lia. reflexivity.
Qed.

Lemma nonpositive_ticker_hangs_witness :
  MockClock.Advance 1000 1 (snd (MockClock.NewTicker 0 (MockClock.NewMockClock 0))) = None.
Proof.
  apply (proj1 (nonpositive_ticker_hangs (MockClock.NewMockClock 0) 0 1
                  ltac:(lia) ltac:(lia))).
Defined.

(** ** What every mock clock keeps *)

Lemma fire_ahead i e m :
  MockClock.find_earliest m = Some (i, e) ->
  positive_intervals m -> ahead m -> ticks_from_past m ->
  ahead (MockClock.fire i e m) /\ ticks_from_past (MockClock.fire i e m)
  /\ current m <= current (MockClock.fire i e m).
Proof.
  intros Hf Hpos Ha Hp.
  pose proof (find_earliest_ok m) as Hok. rewrite Hf in Hok.
  destruct Hok as (Hi & Hrun & Hmin).
  pose proof (proj1 (Forall_lookup _ _) Hpos i e Hi Hrun) as Hint. cbn beta in Hint.
  pose proof (proj1 (Forall_lookup _ _) Ha i e Hi Hrun) as Hdue. cbn beta in Hdue.
  unfold ahead, ticks_from_past. rewrite fire_current, fire_tickers.
  split; [|split; [|exact Hdue]].
  - apply Forall_insert.
    + apply Forall_lookup. intros j t Hj Hr. exact (Hmin j t Hj Hr).
    + cbn. intros _. lia.
  - apply Forall_insert.
    + apply Forall_lookup. intros j t Hj.
      pose proof (proj1 (Forall_lookup _ _) Hp j t Hj) as Hv. cbn beta in Hv.
      eapply Forall_impl; [exact Hv|]. cbn beta. intros v Hle. lia.
    + cbn [ch]. pose proof (proj1 (Forall_lookup _ _) Hp i e Hi) as Hv. cbn beta in Hv.
      unfold MockClock.try_send. destruct (_ <? _)%nat.
      * apply Forall_app. split.
        -- eapply Forall_impl; [exact Hv|]. cbn beta. intros v Hle. lia.
        -- constructor; [lia|constructor].
      * eapply Forall_impl; [exact Hv|]. cbn beta. intros v Hle. lia.
Qed.

Lemma Advance_loop_keeps target : forall fuel m m',
  MockClock.Advance_loop fuel target m = Some m' ->
  positive_intervals m -> ahead m -> ticks_from_past m ->
  positive_intervals m' /\ ahead m' /\ ticks_from_past m' /\ current m <= current m'.
Proof.
  induction fuel as [|fuel IH]; intros m m' Hrun Hpos Ha Hp;
    cbn [MockClock.Advance_loop] in Hrun;
    destruct (Z.ltb_spec (current m) target) as [Hlt|Hge];
    try discriminate; try (injection Hrun as <-; repeat split; (assumption || lia)).
  destruct (Advance_body_cases target m)
    as [[Hf Hb]|[(i & e & Hf & Hlate & Hb)|(i & e & Hf & Hdue & Hb)]];
    rewrite Hb in Hrun.
  - injection Hrun as <-.
    pose proof (find_earliest_ok m) as Hok. rewrite Hf in Hok. cbn in Hok.
    split; [exact Hpos|]. split; [|split; [|cbn; lia]].
    + apply Forall_lookup. intros j t Hj Hr. cbn [tickers MockClock.set_current] in Hj.
      rewrite (Hok j t Hj) in Hr. discriminate.
    + apply Forall_lookup. intros j t Hj. cbn [tickers MockClock.set_current] in Hj.
      pose proof (proj1 (Forall_lookup _ _) Hp j t Hj) as Hv. cbn beta in Hv.
      eapply Forall_impl; [exact Hv|]. cbn. intros v Hle. lia.
  - injection Hrun as <-.
    pose proof (find_earliest_ok m) as Hok. rewrite Hf in Hok.
    destruct Hok as (Hi & Hrun & Hmin).
    split; [exact Hpos|]. split; [|split; [|cbn; lia]].
    + apply Forall_lookup. intros j t Hj Hr. cbn [tickers MockClock.set_current] in Hj.
      pose proof (Hmin j t Hj Hr). cbn. lia.
    + apply Forall_lookup. intros j t Hj. cbn [tickers MockClock.set_current] in Hj.
      pose proof (proj1 (Forall_lookup _ _) Hp j t Hj) as Hv. cbn beta in Hv.
      eapply Forall_impl; [exact Hv|]. cbn. intros v Hle. lia.
  - pose proof (find_earliest_ok m) as Hok. rewrite Hf in Hok.
    destruct Hok as (Hi & _).
    destruct (fire_ahead i e m Hf Hpos Ha Hp) as (Ha1 & Hp1 & Hc1).
    destruct (IH _ _ Hrun (fire_positive_intervals i e m Hi Hpos) Ha1 Hp1)
      as (Hpos' & Ha' & Hp' & Hc').
    repeat split; (assumption || lia).
Qed.

Lemma clock_step_keeps o m m' :
  match o with DoNewTicker d => 0 < d | _ => True end ->
  clock_step o m = Some m' ->
  positive_intervals m /\ one_pending m /\ ahead m /\ ticks_from_past m ->
  (positive_intervals m' /\ one_pending m' /\ ahead m' /\ ticks_from_past m')
  /\ current m <= current m'.
Proof.
  intros Ho Hstep (Hpos & Hone & Ha & Hp).
  destruct o as [d|i|i|fuel d|fuel d]; cbn [clock_step] in Hstep.
  - injection Hstep as <-. split; [|cbn; lia].
    split; [|split; [apply NewTicker_one_pending, Hone|split]];
      unfold positive_intervals, ahead, ticks_from_past, MockClock.NewTicker;
      cbn [snd tickers current]; apply Forall_app; (split; [assumption|]);
      constructor; cbn; try constructor; intros; lia.
  - injection Hstep as <-. split; [|cbn; lia].
    split; [apply positive_intervals_Stop, Hpos|].
    split; [apply Stop_one_pending, Hone|].
    unfold ahead, ticks_from_past, MockClock.Stop. cbn [tickers current]. split.
    + apply Forall_lookup. intros j t Hj.
      destruct (decide (i = j)) as [->|Hne].
      * rewrite list_lookup_alter_eq in Hj.
        destruct (tickers m !! j) as [t0|] eqn:E; cbn in Hj; [|discriminate].
        injection Hj as <-. cbn. discriminate.
      * rewrite list_lookup_alter_ne in Hj by assumption.
        exact (proj1 (Forall_lookup _ _) Ha j t Hj).
    + apply Forall_lookup. intros j t Hj.
      destruct (decide (i = j)) as [->|Hne].
      * rewrite list_lookup_alter_eq in Hj.
        destruct (tickers m !! j) as [t0|] eqn:E; cbn in Hj; [|discriminate].
        injection Hj as <-. cbn. exact (proj1 (Forall_lookup _ _) Hp j t0 E).
      * rewrite list_lookup_alter_ne in Hj by assumption.
        exact (proj1 (Forall_lookup _ _) Hp j t Hj).
  - destruct (MockClock.Receive i m) as [[v m1]|] eqn:E; [|discriminate].
    injection Hstep as <-.
    pose proof (Receive_one_pending i m v m1 E Hone) as Hone1.
    unfold MockClock.Receive in E.
    destruct (tickers m !! i) as [t|] eqn:Ei; [|discriminate].
    destruct (MockClock.recv (ch t)) as [[v' c]|] eqn:Er; [|discriminate].
    injection E as <- <-. split; [|cbn; lia].
    unfold MockClock.recv in Er. destruct (ch t) as [|v0 c0] eqn:Ec; [discriminate|].
    injection Er as <- <-.
    split; [|split; [exact Hone1|split]];
      unfold positive_intervals, ahead, ticks_from_past; cbn [tickers current];
      apply Forall_insert; try assumption; cbn.
    + exact (proj1 (Forall_lookup _ _) Hpos i t Ei).
    + exact (proj1 (Forall_lookup _ _) Ha i t Ei).
    + pose proof (proj1 (Forall_lookup _ _) Hp i t Ei) as Hv. cbn beta in Hv.
      rewrite Ec in Hv. now inversion Hv.
  - unfold MockClock.Advance in Hstep.
    destruct (Advance_loop_keeps _ _ _ _ Hstep Hpos Ha Hp) as (Hpos' & Ha' & Hp' & Hc).
    pose proof (Advance_loop_one_pending _ _ _ _ Hstep Hone). auto.
  - unfold MockClock.Sleep, MockClock.Advance in Hstep.
    destruct (Advance_loop_keeps _ _ _ _ Hstep Hpos Ha Hp) as (Hpos' & Ha' & Hp' & Hc).
    pose proof (Advance_loop_one_pending _ _ _ _ Hstep Hone). auto.
Qed.

(** X9. On a clock made by [NewMockClock] and used through [NewTicker] with
    positive intervals, [Stop], receives, [Advance] and [Sleep], whatever
    their order: no running ticker is due before the current instant, at most
    one tick is pending on each ticker and it carries an instant that is not
    in the clock's future, the clock never reads earlier than it started, and
    an advance by any amount returns. *)
Theorem mock_clock_invariants (start : Z) (ops : list ClockOp) (m : MockClock) :
  positive_tickers ops ->
  clock_run ops (MockClock.NewMockClock start) = Some m ->
  positive_intervals m /\ one_pending m /\ ahead m /\ ticks_from_past m
  /\ start <= MockClock.Now m
  /\ forall d, exists fuel m', MockClock.Advance fuel d m = Some m'.
Proof.
  intros Hops Hrun.
  assert (Hgen : forall ops m0 m,
            positive_tickers ops -> clock_run ops m0 = Some m ->
            positive_intervals m0 /\ one_pending m0 /\ ahead m0 /\ ticks_from_past m0 ->
            (positive_intervals m /\ one_pending m /\ ahead m /\ ticks_from_past m)
            /\ current m0 <= current m).
  { clear. induction ops as [|o ops IH]; intros m0 m Hops Hrun Hinv.
    - injection Hrun as <-. split; [exact Hinv|lia].
    - cbn [clock_run] in Hrun. destruct (clock_step o m0) as [m1|] eqn:E; [|discriminate].
      inversion Hops as [|? ? Ho Hops']; subst.
      destruct (clock_step_keeps o m0 m1 Ho E Hinv) as [Hinv1 Hc1].
      destruct (IH m1 m Hops' Hrun Hinv1) as [Hinv' Hc']. split; [exact Hinv'|lia]. }
  destruct (Hgen ops (MockClock.NewMockClock start) m Hops Hrun) as [(Hpos & Hone & Ha & Hp) Hc].
  { repeat split; constructor. }
  repeat split; try assumption.
  intros d.
  destruct (Advance_loop_terminates (current m + d)
              (MockClock.owed_total (current m + d) (tickers m)) m Hpos ltac:(lia))
    as [m' Hm'].
  eexists _, m'. exact Hm'.
Qed.

Lemma mock_clock_invariants_witness :
  ahead (mkClock 20 [mkTicker 3 [] 21 false; mkTicker 5 [5] 25 true]).
Proof.
  apply (mock_clock_invariants 0
           [DoNewTicker 3; DoNewTicker 5; DoAdvance 35 20; DoReceive 0; DoStop 1]).
  - repeat constructor.
  - reflexivity.
Defined.

(** ** How many ticks an advance fires *)

Lemma Advance_loop_none_due target : forall fuel m m',
  MockClock.Advance_loop fuel target m = Some m' ->
  current m < target -> positive_intervals m ->
  forall j t', tickers m' !! j = Some t' -> stopped t' = false -> target <= nextTick t'.
Proof.
  induction fuel as [|fuel IH]; intros m m' Hrun Hlt Hpos;
    cbn [MockClock.Advance_loop] in Hrun;
    destruct (Z.ltb_spec (current m) target) as [_|Hge]; try lia; try discriminate.
  destruct (Advance_body_cases target m)
    as [[Hf Hb]|[(i & e & Hf & Hlate & Hb)|(i & e & Hf & Hdue & Hb)]];
    rewrite Hb in Hrun; pose proof (find_earliest_ok m) as Hok; rewrite Hf in Hok.
  - injection Hrun as <-. intros j t' Hj Hr. cbn in Hok.
    rewrite (Hok j t' Hj) in Hr. discriminate.
  - injection Hrun as <-. destruct Hok as (_ & _ & Hmin).
    intros j t' Hj Hr. pose proof (Hmin j t' Hj Hr). lia.
  - destruct Hok as (Hi & Hr & Hmin).
    pose proof (fire_positive_intervals i e m Hi Hpos) as Hpos1.
    destruct (Z.lt_ge_cases (current (MockClock.fire i e m)) target) as [Hlt1|Hge1].
    + exact (IH _ _ Hrun Hlt1 Hpos1).
    + destruct (Advance_loop_noop target fuel (MockClock.fire i e m) Hge1) as [Hn _].
      rewrite Hn in Hrun. injection Hrun as <-.
      rewrite fire_current in Hge1. intros j t' Hj Hr'. rewrite fire_tickers in Hj.
      pose proof (proj1 (Forall_lookup _ _) Hpos i e Hi Hr) as Hint. cbn beta in Hint.
      destruct (decide (i = j)) as [->|Hne].
      * rewrite list_lookup_insert_eq in Hj by (eapply lookup_lt_Some; eassumption).
        injection Hj as <-. cbn. lia.
      * rewrite list_lookup_insert_ne in Hj by assumption.
        pose proof (Hmin j t' Hj Hr'). lia.
Qed.

Lemma ticks_of_cons i a log j :
  ticks_of j ((i, a) :: log) = if Nat.eqb i j then S (ticks_of j log) else ticks_of j log.
Proof. reflexivity. Qed.

Lemma Advance_loop_last_tick target : forall fuel m m',
  MockClock.Advance_loop fuel target m = Some m' ->
  forall j t', tickers m' !! j = Some t' ->
    (0 < ticks_of j (MockClock.firings fuel target m))%nat ->
    nextTick t' - interval t' <= target.
Proof.
  induction fuel as [|fuel IH]; intros m m' Hrun j t' Hj Hn;
    cbn [MockClock.Advance_loop MockClock.firings] in Hrun, Hn;
    destruct (Z.ltb_spec (current m) target) as [Hlt|Hge];
    try (cbn in Hn; lia).
  destruct (Advance_body_cases target m)
    as [[Hf Hb]|[(i & e & Hf & Hlate & Hb)|(i & e & Hf & Hdue & Hb)]];
    rewrite Hb in Hrun, Hn; try (cbn in Hn; lia).
  rewrite ticks_of_cons in Hn.
  destruct (Nat.ltb_spec 0 (ticks_of j (MockClock.firings fuel target (MockClock.fire i e m))))
    as [Hpos|Hzero].
  - exact (IH _ _ Hrun j t' Hj Hpos).
  - destruct (Nat.eqb_spec i j) as [->|Hne]; [|lia].
    pose proof (find_earliest_ok m) as Hok. rewrite Hf in Hok. destruct Hok as (Hi & _).
    destruct (Advance_loop_tickers target fuel _ _ Hrun) as [_ Hall].
    assert (Hj1 : tickers (MockClock.fire j e m) !! j
                  = Some (mkTicker (interval e) (MockClock.try_send (nextTick e) (ch e))
                            (nextTick e + interval e) (stopped e))).
    { rewrite fire_tickers. apply list_lookup_insert_eq. eapply lookup_lt_Some; eassumption. }
    destruct (Hall j _ Hj1) as (t'' & Hj'' & _ & _ & _ & _ & Hsame & _). cbn zeta in Hsame.
    rewrite Hj in Hj''. injection Hj'' as <-.
    rewrite (Hsame ltac:(lia)). cbn. lia.
Qed.

(** X10. An advance by [d > 0] that returns, on a clock whose running
    tickers have positive intervals, has fired each running ticker for every
    instant it was due strictly before the target and for none after the
    target: with [n] the number of its ticks, the ticker ends due at or after
    the target and its last tick, if any, was due at or before it.  So [n] is
    zero for a ticker due after the target, and one more than the quotient of
    the time left by the interval when that division leaves a remainder. *)
Theorem advance_tick_counts (m m' : MockClock) (d : Z) (fuel j : nat) (t : MockTicker) :
  positive_intervals m -> 0 < d ->
  MockClock.Advance fuel d m = Some m' ->
  tickers m !! j = Some t -> stopped t = false ->
  let target := current m + d in
  let n := Z.of_nat (ticks_of j (MockClock.firings fuel target m)) in
  target <= nextTick t + n * interval t
  /\ (0 < n -> nextTick t + (n - 1) * interval t <= target)
  /\ (target < nextTick t -> n = 0)
  /\ (nextTick t <= target -> (target - nextTick t) mod interval t <> 0 ->
      n = (target - nextTick t) / interval t + 1)
  /\ (nextTick t <= target -> (target - nextTick t) / interval t <= n).
Proof.
  intros Hpos Hd Hrun Hj Hr. cbn zeta. unfold MockClock.Advance in Hrun.
  set (target := current m + d) in *.
  set (n := ticks_of j (MockClock.firings fuel target m)).
  destruct (Advance_loop_tickers target fuel _ _ Hrun) as [_ Hall].
  destruct (Hall j t Hj) as (t' & Hj' & Hint & Hst & Hnext & _). cbn zeta in Hnext.
  fold n in Hnext.
  pose proof (Advance_loop_none_due target fuel m m' Hrun ltac:(unfold target; lia) Hpos
                j t' Hj' ltac:(congruence)) as Hlow.
  pose proof (proj1 (Forall_lookup _ _) Hpos j t Hj Hr) as Hi. cbn beta in Hi.
  assert (Hhigh : (0 < n)%nat -> nextTick t + (Z.of_nat n - 1) * interval t <= target).
  { intros Hn. pose proof (Advance_loop_last_tick target fuel m m' Hrun j t' Hj' Hn). lia. }
  rewrite Hnext in Hlow.
  split; [exact Hlow|]. split; [intros Hn; apply Hhigh; lia|].
  clearbody n.
  assert (Hzero : target < nextTick t -> Z.of_nat n = 0).
  { intros Hlate. destruct n as [|k]; [reflexivity|].
    specialize (Hhigh ltac:(lia)). nia. }
  split; [exact Hzero|].
  pose proof (Z.div_mod (target - nextTick t) (interval t) ltac:(lia)) as Hdm.
  pose proof (Z.mod_pos_bound (target - nextTick t) (interval t) Hi) as Hmb.
  set (q := (target - nextTick t) / interval t) in *.
  set (r := (target - nextTick t) mod interval t) in *.
  clearbody q r. split.
  - intros Hdue Hrem.
    assert (Hq : q < Z.of_nat n)
      by (apply (Z.mul_lt_mono_pos_l (interval t)); lia).
    assert (Hq0 : 0 <= q).
    { destruct (Z.lt_ge_cases q 0) as [Hneg|Hok]; [exfalso|exact Hok].
      assert (interval t * q <= interval t * (-1))
        by (apply Z.mul_le_mono_nonneg_l; lia). lia. }
    specialize (Hhigh ltac:(lia)).
    assert (Hq' : Z.of_nat n - 1 < q + 1)
      by (apply (Z.mul_lt_mono_pos_l (interval t)); lia).
    lia.
  - intros Hdue.
    destruct (Z.lt_ge_cases (Z.of_nat n) q) as [Hlt|Hge]; [|exact Hge].
    exfalso. assert (interval t * (Z.of_nat n + 1) <= interval t * q)
      by (apply Z.mul_le_mono_nonneg_l; lia). lia.
Qed.

Lemma advance_tick_counts_witness :
  Z.of_nat (ticks_of 0 (MockClock.firings 35 (current clock_3_5 + 20) clock_3_5))
  = (current clock_3_5 + 20 - 3) / 3 + 1.
Proof.
  refine (proj1 (proj2 (proj2 (proj2
            (advance_tick_counts clock_3_5 _ 20 35 0 (mkTicker 3 [] 3 false)
               _ _ _ _ _)))) _ _).
  - repeat constructor; cbn; lia.
  - lia.
  - reflexivity.
  - reflexivity.
  - reflexivity.
  - cbn. lia.
  - vm_compute. discriminate.
Defined.

(** ** One ticker *)

Lemma try_send_twice u v c :
  MockClock.try_send v (MockClock.try_send u c) = MockClock.try_send u c.
Proof.
  apply try_send_pending. unfold MockClock.try_send.
  destruct c as [|x c]; cbn; discriminate.
Qed.

Lemma single_ticker_body i c nt cur target :
  MockClock.Advance_body target (mkClock cur [mkTicker i c nt false])
  = if target <? nt then MockClock.Break (mkClock target [mkTicker i c nt false])
    else MockClock.Again 0 nt
           (mkClock nt [mkTicker i (MockClock.try_send nt c) (nt + i) false]).
Proof. reflexivity. Qed.

Lemma Advance_loop_step fuel target m :
  current m < target ->
  MockClock.Advance_loop (S fuel) target m
  = match MockClock.Advance_body target m with
    | MockClock.Break m' => Some m'
    | MockClock.Again _ _ m' => MockClock.Advance_loop fuel target m'
    end.
Proof.
  intros H. cbn [MockClock.Advance_loop].
  destruct (Z.ltb_spec (current m) target); [reflexivity|lia].
Qed.

Lemma single_ticker_loop i target : 0 < i -> forall (k : nat) cur c nt fuel,
  cur < target -> nt <= target -> (target - nt) / i = Z.of_nat k ->
  (k + 1 < fuel)%nat ->
  MockClock.Advance_loop fuel target (mkClock cur [mkTicker i c nt false])
  = Some (mkClock target
            [mkTicker i (MockClock.try_send nt c) (nt + (Z.of_nat k + 1) * i) false]).
Proof.
  intros Hi. induction k as [|k IH]; intros cur c nt fuel Hcur Hnt Hk Hfuel.
  - destruct fuel as [|[|fuel]]; try lia.
    assert (Hlate : target < nt + i).
    { pose proof (Z.div_mod (target - nt) i ltac:(lia)) as Hdm.
      pose proof (Z.mod_pos_bound (target - nt) i Hi). rewrite Hk in Hdm. lia. }
    rewrite Advance_loop_step, single_ticker_body by exact Hcur.
    destruct (Z.ltb_spec target nt) as [|_]; [lia|].
    destruct (Z.lt_ge_cases nt target) as [Hlt|Hge].
    + rewrite Advance_loop_step, single_ticker_body by exact Hlt.
      destruct (Z.ltb_spec target (nt + i)) as [_|]; [|lia].
      do 4 f_equal. lia.
    + rewrite (proj1 (Advance_loop_noop target (S fuel)
                        (mkClock nt [mkTicker i (MockClock.try_send nt c) (nt + i) false])
                        Hge)).
      replace target with nt by lia. do 4 f_equal. lia.
  - destruct fuel as [|fuel]; [lia|].
    assert (Hnext : nt + i <= target /\ (target - (nt + i)) / i = Z.of_nat k).
    { replace (target - (nt + i)) with (target - nt + (-1) * i) by lia.
      rewrite Z.div_add by lia. rewrite Hk. split; [|lia].
      pose proof (Z.div_mod (target - nt) i ltac:(lia)) as Hdm.
      pose proof (Z.mod_pos_bound (target - nt) i Hi). rewrite Hk in Hdm.
      assert (i * 1 <= i * Z.of_nat (S k)) by (apply Z.mul_le_mono_nonneg_l; lia). lia. }
    destruct Hnext as [Hle Hq].
    rewrite Advance_loop_step, single_ticker_body by exact Hcur.
    destruct (Z.ltb_spec target nt) as [|_]; [lia|].
    rewrite (IH nt (MockClock.try_send nt c) (nt + i) fuel) by lia.
    rewrite try_send_twice. do 4 f_equal. lia.
Qed.

(** X11. A clock with one ticker of interval [i > 0], advanced by [D >= 0]
    from the instant the ticker was created: the advance returns, the ticker
    has ticked [D / i] times and is due next at the following multiple of
    [i], and what is pending is the first of these ticks, the later ones
    having been dropped.  A receive then yields that first tick and leaves
    the channel empty, so a second receive would block. *)
Theorem single_ticker_advance (start i D : Z) (fuel : nat) :
  0 < i -> 0 <= D ->
  (Z.to_nat (D / i) + 1 < fuel)%nat ->
  let n := D / i in
  let after c := mkClock (start + D) [mkTicker i c (start + (n + 1) * i) false] in
  MockClock.Advance fuel D (single_ticker start i)
  = Some (after (if i <=? D then [start + i] else []))
  /\ (i <= D ->
      MockClock.Receive 0 (after [start + i]) = Some (start + i, after [])
      /\ MockClock.Receive 0 (after []) = None)
  /\ (D < i -> MockClock.Receive 0 (after []) = None).
Proof.
  intros Hi HD Hfuel. cbn zeta. split; [|split; [split|]; reflexivity].
  unfold MockClock.Advance, single_ticker, MockClock.NewTicker, MockClock.NewMockClock.
  cbn [snd current tickers app].
  pose proof (Z.div_pos D i HD Hi) as Hn0.
  destruct (Z.leb_spec i D) as [Hdue|Hlate].
  - assert (Hq : (start + D - (start + i)) / i = Z.of_nat (Z.to_nat (D / i - 1))).
    { replace (start + D - (start + i)) with (D + (-1) * i) by lia.
      rewrite Z.div_add by lia.
      assert (1 <= D / i) by (apply Z.div_le_lower_bound; lia). lia. }
    rewrite (single_ticker_loop i (start + D) Hi (Z.to_nat (D / i - 1)) start []
               (start + i) fuel) by lia.
    rewrite try_send_empty.
    assert (1 <= D / i) by (apply Z.div_le_lower_bound; lia).
    replace (Z.of_nat (Z.to_nat (D / i - 1))) with (D / i - 1) by lia.
    do 4 f_equal. ring.
  - rewrite (Z.div_small D i) by lia.
    destruct (Z.eq_dec D 0) as [->|Hne].
    + destruct (Advance_loop_noop (start + 0) fuel (mkClock start [mkTicker i [] (start + i) false])
                  ltac:(cbn; lia)) as [-> _].
      do 2 f_equal; [lia|]. do 2 f_equal. lia.
    + destruct fuel as [|fuel]; [lia|].
      rewrite Advance_loop_step, single_ticker_body by (cbn; lia).
      destruct (Z.ltb_spec (start + D) (start + i)) as [_|]; [|lia].
      do 4 f_equal. lia.
Qed.

Lemma single_ticker_advance_witness :
  MockClock.Advance 9 10 (single_ticker 100 3)
  = Some (mkClock 110 [mkTicker 3 [103] 112 false]).
Proof.
  apply (proj1 (single_ticker_advance 100 3 10 9 ltac:(lia) ltac:(lia)
                  ltac:(vm_compute; lia))).
Defined.

(** ** The display of durations and phase names *)

Section UIFacts.

Import Stdlib.Strings.String Stdlib.Strings.Ascii.

Lemma fmt_02d_two_digits n : 0 <= n < 100 -> UI.fmt_02d n = UI.two_digits n.
Proof.
  intros Hn.
  assert (Hall : forallb (fun k => String.eqb (UI.fmt_02d (Z.of_nat k))
                                     (UI.two_digits (Z.of_nat k))) (seq 0 100) = true)
    by (vm_compute; reflexivity).
  rewrite forallb_forall in Hall.
  specialize (Hall (Z.to_nat n)). rewrite Z2Nat.id in Hall by lia.
  apply String.eqb_eq, Hall, in_seq. lia.
Qed.

Lemma Round_second d :
  0 <= d <= GoInt.max_int - Duration.Second ->
  Duration.Round d Duration.Second
  = Duration.Second * ((d + 500000000) / 1000000000).
Proof.
  unfold Duration.Round, Duration.Second, GoInt.max_int. intros Hd.
  cbn [Z.leb Z.compare].
  destruct (Z.ltb_spec d 0) as [|_]; [lia|].
  unfold GoInt.rem. rewrite Z.rem_mod_nonneg by lia.
  pose proof (Z.mod_pos_bound d 1000000000 ltac:(lia)) as Hr.
  pose proof (Z.div_mod d 1000000000 ltac:(lia)) as Hdm.
  set (r := d mod 1000000000) in *. set (q := d / 1000000000) in *.
  unfold Duration.lessThanHalf, GoInt.modulus.
  rewrite (Z.mod_small r), (Z.mod_small (r + r)), (Z.mod_small 1000000000) by lia.
  unfold GoInt.sub, GoInt.add.
  destruct (Z.ltb_spec (r + r) 1000000000) as [Hlow|Hhigh].
  - rewrite wrap_in_range
      by (unfold GoInt.in_range, GoInt.min_int, GoInt.max_int; lia).
    replace (d + 500000000) with (r + 500000000 + q * 1000000000) by lia.
    rewrite Z.div_add, (Z.div_small (r + 500000000)) by lia. lia.
  - rewrite wrap_sub_l.
    rewrite wrap_in_range
      by (unfold GoInt.in_range, GoInt.min_int, GoInt.max_int; lia).
    destruct (Z.ltb_spec d (d + 1000000000 - r)) as [_|]; [|lia].
    replace (d + 500000000) with (r - 500000000 + (q + 1) * 1000000000) by lia.
    rewrite Z.div_add, (Z.div_small (r - 500000000)) by lia. lia.
Qed.

(** X12. For a duration [d >= 0] (one second at least below the largest)
    [formatDuration] prints the number of seconds nearest to [d], halves
    upwards, as minutes and seconds: the seconds always as two digits below
    sixty, the minutes as two digits when there are fewer than a hundred, in
    which case the result has five characters. *)
Theorem formatDuration_minutes_seconds (d : Z) :
  0 <= d <= GoInt.max_int - Duration.Second ->
  let secs := (d + 500000000) / 1000000000 in
  UI.formatDuration d
  = (UI.fmt_02d (secs / 60) ++ ":" ++ UI.two_digits (secs mod 60))%string
  /\ 0 <= secs mod 60 < 60
  /\ (secs < 6000 ->
      UI.formatDuration d
      = (UI.two_digits (secs / 60) ++ ":" ++ UI.two_digits (secs mod 60))%string
      /\ String.length (UI.formatDuration d) = 5%nat).
Proof.
  intros Hd. cbn zeta.
  set (secs := (d + 500000000) / 1000000000).
  assert (Hs : 0 <= secs <= 9223372037).
  { unfold secs, Duration.Second, GoInt.max_int in *. split.
    - apply Z.div_pos; lia.
    - apply Z.div_le_upper_bound; lia. }
  pose proof (Z.mod_pos_bound secs 60 ltac:(lia)) as Hm.
  pose proof (Z.div_mod secs 60 ltac:(lia)) as Hdm.
  assert (Hfmt : UI.formatDuration d
                 = (UI.fmt_02d (secs / 60) ++ ":" ++ UI.two_digits (secs mod 60))%string).
  { unfold UI.formatDuration. rewrite Round_second by exact Hd. fold secs.
    unfold GoInt.rem, GoInt.div, Duration.Minute, Duration.Second.
    assert (Hq : Z.quot (1000000000 * secs) 60000000000 = secs / 60).
    { rewrite Z.quot_div_nonneg by lia.
      replace 60000000000 with (1000000000 * 60) by lia.
      rewrite Z.div_mul_cancel_l by lia. reflexivity. }
    assert (Hr : Z.rem (1000000000 * secs) 60000000000 = 1000000000 * (secs mod 60)).
    { rewrite Z.rem_mod_nonneg by lia.
      replace 60000000000 with (1000000000 * 60) by lia.
      rewrite Z.mul_mod_distr_l by lia. reflexivity. }
    rewrite Hq, Hr, Z.quot_div_nonneg by lia.
    rewrite (Z.mul_comm 1000000000 (secs mod 60)), Z.div_mul by lia.
    rewrite !wrap_in_range
      by (unfold GoInt.in_range, GoInt.min_int, GoInt.max_int; lia).
    now rewrite (fmt_02d_two_digits (secs mod 60)) by lia. }
  split; [exact Hfmt|]. split; [exact Hm|].
  intros Hsmall. rewrite Hfmt.
  rewrite (fmt_02d_two_digits (secs / 60)) by lia.
  split; reflexivity.
Qed.

Lemma formatDuration_minutes_seconds_witness :
  UI.formatDuration 1499500000000 = "25:00"%string.
Proof.
  apply (proj1 (proj2 (proj2 (formatDuration_minutes_seconds 1499500000000
                                ltac:(vm_compute; split; discriminate)))
                 ltac:(vm_compute; reflexivity))).
Defined.

(** Negative durations keep the sign on each field. *)
Example formatDuration_negative :
  UI.formatDuration (- 1000000000) = "00:-1"%string
  /\ UI.formatDuration (- 90000000000) = "-1:-30"%string.
Proof. split; reflexivity. Qed.

(** X13. The label of an event of a run.  When the session has a bound of
    [C > 0] cycles the label is the name of the phase followed by [(n/C)],
    in the colour of the phase, where [n] is the number of the work cycle
    under way for a Work event and of the work cycle just completed for the
    event of a break; [n] lies between one and [C].  Without a bound the
    label is the name of the phase alone. *)
Theorem phase_label (Sprint : UI.Color -> string -> string) (env : Env) (cfg : Config)
    (tick : Z) (cancelled : bool) (fuel : nat) (ev : TimerEvent.t) :
  In (ActSend ev)
    (trace (result_world
       (Timer.Run env fuel (Timer.NewTimerWithClock cfg tick)
          (Timer.start_world cancelled)))) ->
  let p := TimerEvent.Phase ev in
  (TotalCycles cfg <= 0 ->
   UI.formatPhaseName Sprint ev = Sprint (UI.phase_color p) (UI.Phase_String p))
  /\ (0 < TotalCycles cfg <= GoInt.max_int ->
      exists k n,
        let s := Session.NextPhase_n k (Session.NewSession cfg) in
        p = currentPhase s
        /\ n = (if Phase_eqb p PhaseWork then cyclesComplete s + 1 else cyclesComplete s)
        /\ 1 <= n <= TotalCycles cfg
        /\ UI.formatPhaseName Sprint ev
           = Sprint (UI.phase_color p) (UI.cycle_label p n (TotalCycles cfg))).
Proof.
  intros Hin. cbn zeta.
  destruct (Run_trace env cfg tick cancelled fuel) as [Hev _].
  apply events_of_In in Hin.
  destruct (proj1 (List.Forall_forall _ _) Hev ev Hin) as (k & i & j & _ & Hd & ->).
  set (s := Session.NextPhase_n k (Session.NewSession cfg)) in *.
  destruct (event_at_fields s (fst (Session.PhaseDuration s)) (clock_now env i)
              (clock_now env j)) as (Hph & _ & _ & _ & _ & Hcn & Htc & _).
  cbn zeta in *.
  assert (Hcfg : config s = cfg).
  { unfold s. now rewrite (proj1 (NextPhase_n_frame _ _)), (proj1 (NewSession_fields cfg)). }
  rewrite Hcfg in Htc.
  unfold UI.formatPhaseName. rewrite Hph, Hcn, Htc. split.
  - intros HC. replace (0 <? TotalCycles cfg) with false by (symmetry; apply Z.ltb_ge; lia).
    now destruct (currentPhase s).
  - intros HC. replace (0 <? TotalCycles cfg) with true by (symmetry; apply Z.ltb_lt; lia).
    assert (Hnd : currentPhase s <> PhaseDone).
    { intros E. apply Hd. now apply PhaseDuration_done. }
    exists k. fold s.
    destruct (bounded_run_cycles cfg k HC Hnd) as [[Hw Hc]|[Hb Hc]]; fold s in Hw || fold s in Hb;
      fold s in Hc.
    + exists (cyclesComplete s + 1). rewrite Hw. cbn [Phase_eqb UI.phase_color].
      split; [reflexivity|]. split; [reflexivity|]. split; [lia|].
      rewrite add_small
        by (unfold GoInt.in_range, GoInt.min_int, GoInt.max_int in *; lia).
      reflexivity.
    + exists (cyclesComplete s).
      assert (Hsub : GoInt.sub (GoInt.add (cyclesComplete s) 1) 1 = cyclesComplete s).
      { unfold GoInt.sub, GoInt.add. rewrite wrap_sub_l.
        rewrite wrap_in_range
          by (unfold GoInt.in_range, GoInt.min_int, GoInt.max_int in *; lia). lia. }
      rewrite Hsub.
      destruct Hb as [Hb|Hb]; rewrite Hb; cbn [Phase_eqb UI.phase_color];
        (split; [reflexivity|]); (split; [reflexivity|]); (split; [lia|reflexivity]).
Qed.

Lemma phase_label_witness :
  exists ev,
    In (ActSend ev)
      (trace (result_world
         (Timer.Run env_minutes 9 (Timer.NewTimerWithClock cfg_2_0 DefaultTickInterval)
            (Timer.start_world false))))
    /\ exists k n, TimerEvent.Phase ev
                   = currentPhase (Session.NextPhase_n k (Session.NewSession cfg_2_0))
                   /\ UI.formatPhaseName (fun _ s => s) ev
                      = UI.cycle_label (TimerEvent.Phase ev) n 2.
Proof.
  eexists. split; [vm_compute; right; right; left; reflexivity|].
  match goal with
  | |- context [UI.formatPhaseName _ ?e] =>
      destruct (proj2 (phase_label (fun _ s => s) env_minutes cfg_2_0 DefaultTickInterval
                         false 9 e ltac:(vm_compute; right; right; left; reflexivity)))
        as (k & n & Hp & _ & _ & Hl)
  end.
  - vm_compute. split; [reflexivity|discriminate].
  - exists k, n. split; [exact Hp|exact Hl].
Defined.

End UIFacts.

(** ** The session [pomo start] runs *)

Lemma run_events_bounded env cfg tick cancelled fuel ev :
  In (ActSend ev)
    (trace (result_world
       (Timer.Run env fuel (Timer.NewTimerWithClock cfg tick)
          (Timer.start_world cancelled)))) ->
  monotone_clock env -> nonneg_durations cfg ->
  0 < TimerEvent.Total ev
  /\ 0 <= TimerEvent.Elapsed ev
  /\ 0 <= TimerEvent.Remaining ev
  /\ Float64.leb Float64.zero (TimerEvent.Fraction ev) = true
  /\ Float64.leb (TimerEvent.Fraction ev) Float64.one = true.
Proof.
  intros Hin Hclock (Hw & Hsb & Hlb).
  destruct (Run_trace env cfg tick cancelled fuel) as [Hev _].
  apply events_of_In in Hin.
  destruct (proj1 (List.Forall_forall _ _) Hev ev Hin) as (k & i & j & Hij & Hd & ->).
  set (s := Session.NextPhase_n k (Session.NewSession cfg)) in *.
  set (d := fst (Session.PhaseDuration s)) in *.
  assert (Hpos : 0 < d).
  { pose proof (PhaseDuration_cases s) as H. cbn zeta in H. fold d in H.
    assert (Hc : config s = cfg)
      by (unfold s; now rewrite (proj1 (NextPhase_n_frame _ _)), (proj1 (NewSession_fields cfg))).
    rewrite Hc in H. lia. }
  destruct (event_at_bounds s d (clock_now env i) (clock_now env j) Hd)
    as (Hle & Hrem & Hmono).
  destruct (event_at_fields s d (clock_now env i) (clock_now env j))
    as (_ & _ & _ & Htot & _).
  cbn zeta in *. rewrite Htot.
  destruct (Hmono ltac:(apply Hclock; lia)) as [Hel Hfr].
  repeat split; (assumption || lia || auto).
Qed.

Lemma minutes_exact n : 0 <= n <= max_minutes -> minutes n = n * 60000000000.
Proof.
  intros Hn. unfold minutes, Duration.Minute. apply wrap_in_range.
  unfold GoInt.in_range, GoInt.min_int, GoInt.max_int, max_minutes in *. lia.
Qed.

(** X14. When the three durations given to [pomo start] are between zero
    and 153722867 minutes the configuration holds them exactly, in
    nanoseconds, and every event of the session, on a clock that never goes
    backwards, has a positive total and a fraction between zero and one.  A
    number of minutes above that bound (up to twice the bound) wraps around to
    a negative duration. *)
Theorem runStart_durations (p s l e c : Z) :
  0 <= p <= max_minutes -> 0 <= s <= max_minutes -> 0 <= l <= max_minutes ->
  let cfg := runStart_config p s l e c in
  (WorkDuration cfg = p * 60000000000
   /\ ShortBreakDuration cfg = s * 60000000000
   /\ LongBreakDuration cfg = l * 60000000000
   /\ LongBreakEvery cfg = e /\ TotalCycles cfg = c)
  /\ tickInterval (runStart_timer p s l e c) = 200000000
  /\ (forall env cancelled fuel ev,
        monotone_clock env ->
        In (ActSend ev)
          (trace (result_world
             (Timer.Run env fuel (runStart_timer p s l e c) (Timer.start_world cancelled)))) ->
        0 < TimerEvent.Total ev
        /\ Float64.leb Float64.zero (TimerEvent.Fraction ev) = true
        /\ Float64.leb (TimerEvent.Fraction ev) Float64.one = true)
  /\ (forall p', max_minutes < p' <= 2 * max_minutes ->
        WorkDuration (runStart_config p' s l e c) < 0).
Proof.
  intros Hp Hs Hl. cbn zeta. unfold runStart_config. cbn [WorkDuration ShortBreakDuration
    LongBreakDuration LongBreakEvery TotalCycles].
  rewrite !minutes_exact by assumption.
  split; [repeat split|]. split; [reflexivity|]. split.
  - intros env cancelled fuel ev Hclock Hin.
    unfold runStart_timer, Timer.NewTimer in Hin.
    destruct (run_events_bounded env _ _ cancelled fuel ev Hin Hclock)
      as (Ht & _ & _ & Hz & Ho).
    + unfold runStart_config, nonneg_durations. cbn [WorkDuration ShortBreakDuration
        LongBreakDuration]. rewrite !minutes_exact by assumption. lia.
    + auto.
  - intros p' Hp'. unfold minutes, Duration.Minute.
    rewrite (wrap_congr (p' * 60000000000) (p' * 60000000000 - GoInt.modulus) 1) by lia.
    rewrite wrap_in_range;
      unfold GoInt.in_range, GoInt.min_int, GoInt.max_int, GoInt.modulus, max_minutes in *;
      lia.
Qed.

Lemma runStart_durations_witness :
  WorkDuration (runStart_config 50 10 30 4 0) = 50 * 60000000000.
Proof.
  apply (proj1 (runStart_durations 50 10 30 4 0
                  ltac:(vm_compute; split; discriminate)
                  ltac:(vm_compute; split; discriminate)
                  ltac:(vm_compute; split; discriminate))).
Defined.

(** ** A session that has no duration and no end *)

Lemma Run_loop_spins env cfg tick w :
  TotalCycles cfg <= 0 ->
  WorkDuration cfg = 0 -> ShortBreakDuration cfg = 0 -> LongBreakDuration cfg = 0 ->
  forall fuel k,
    Timer.Run_loop env fuel (mkTimer tick (Session.NextPhase_n k (Session.NewSession cfg))) w
    = OutOfFuel (mkTimer tick (Session.NextPhase_n (k + fuel) (Session.NewSession cfg))) w.
Proof.
  intros HC Hw Hs Hl. induction fuel as [|fuel IH]; intros k.
  - now rewrite Nat.add_0_r.
  - rewrite Run_loop_unfold.
    set (s := Session.NextPhase_n k (Session.NewSession cfg)).
    destruct (NewSession_fields cfg) as (Hcfg & Hp0 & _).
    assert (Hnd : currentPhase s <> PhaseDone).
    { apply NextPhase_n_unbounded; [now rewrite Hcfg|]. rewrite Hp0. discriminate. }
    destruct (Phase_eqb (currentPhase s) PhaseDone) eqn:E;
      [apply Phase_eqb_eq in E; contradiction|].
    assert (Hd : fst (Session.PhaseDuration s) = 0).
    { pose proof (PhaseDuration_cases s) as H. cbn zeta in H.
      assert (Hc : config s = cfg)
        by (unfold s; now rewrite (proj1 (NextPhase_n_frame _ _))).
      rewrite Hc in H. lia. }
    rewrite runPhase_unfold. cbn zeta. rewrite Hd. cbn [Z.eqb tickInterval session].
    unfold s. rewrite <- NextPhase_n_succ, IH. do 3 f_equal. lia.
Qed.

(** X15. With no bound on the cycles and every duration zero, [Run] skips
    phase after phase without end: whatever the fuel it has not returned, it
    has read no clock, created no ticker and sent no event, and it does so
    even when the context is cancelled, which it never looks at. *)
Theorem zero_durations_never_return (env : Env) (cfg : Config) (tick : Z)
    (cancelled : bool) (fuel : nat) :
  TotalCycles cfg <= 0 ->
  WorkDuration cfg = 0 -> ShortBreakDuration cfg = 0 -> LongBreakDuration cfg = 0 ->
  exists t,
    Timer.Run env fuel (Timer.NewTimerWithClock cfg tick) (Timer.start_world cancelled)
    = OutOfFuel t (Timer.start_world cancelled)
    /\ session t = Session.NextPhase_n fuel (Session.NewSession cfg)
    /\ phasesComplete (session t) = GoInt.wrap (Z.of_nat fuel).
Proof.
  intros HC Hw Hs Hl. rewrite Run_unfold. unfold Timer.NewTimerWithClock.
  change (Session.NewSession cfg) with (Session.NextPhase_n 0 (Session.NewSession cfg)) at 1.
  rewrite (Run_loop_spins env cfg tick _ HC Hw Hs Hl fuel 0). cbn [Nat.add].
  eexists. split; [reflexivity|]. split; [reflexivity|]. cbn [session].
  apply phasesComplete_run. intros j _.
  destruct (NewSession_fields cfg) as (Hcfg & Hp0 & _).
  apply NextPhase_n_unbounded; [now rewrite Hcfg|]. rewrite Hp0. discriminate.
Qed.

Lemma zero_durations_never_return_witness :
  exists t,
    Timer.Run env_minutes 1000 (Timer.NewTimerWithClock cfg_all_zero DefaultTickInterval)
      (Timer.start_world true)
    = OutOfFuel t (Timer.start_world true).
Proof.
  destruct (zero_durations_never_return env_minutes cfg_all_zero DefaultTickInterval true
              1000 ltac:(cbn; lia) eq_refl eq_refl eq_refl) as (t & Hrun & _).
  exists t. exact Hrun.
Defined.

(** ** The phase at every position of a session *)

Lemma run_schedule_even cfg : forall k : nat,
  (TotalCycles cfg <= 0 \/ Z.of_nat k < TotalCycles cfg) ->
  Z.of_nat k <= GoInt.max_int ->
  let s := Session.NextPhase_n (2 * k) (Session.NewSession cfg) in
  currentPhase s = PhaseWork /\ cyclesComplete s = Z.of_nat k /\ config s = cfg.
Proof.
  induction k as [|k IH]; intros HC Hk; cbn zeta.
  - destruct (NewSession_fields cfg) as (Hcfg & Hp & Hc & _). auto.
  - destruct (IH ltac:(lia) ltac:(lia)) as (Hw & Hc & Hcfg). cbn zeta in *.
    replace (2 * S k)%nat with (S (S (2 * k))) by lia.
    rewrite !NextPhase_n_succ.
    set (s := Session.NextPhase_n (2 * k) (Session.NewSession cfg)) in *.
    destruct (NextPhase_work s Hw) as (Hc' & Hcur & Hcfg' & _ & Hrest). cbn zeta in *.
    assert (Hadd : GoInt.add (cyclesComplete s) 1 = Z.of_nat k + 1).
    { rewrite Hc. apply add_small.
      unfold GoInt.in_range, GoInt.min_int, GoInt.max_int in *. lia. }
    rewrite Hadd, Hcfg in *.
    destruct (Hrest ltac:(lia)) as (_ & _ & Hor). rewrite <- Hcur in Hor.
    rewrite (NextPhase_break _ Hor). cbn [snd currentPhase cyclesComplete config].
    rewrite Hc', Hcfg'. repeat split. lia.
Qed.

(** X16. The phases of a session in closed form, as long as it has not
    reached its bound: after [2 k] calls of [NextPhase] the session is at
    Work with [k] completed cycles; after one more call it is at a break,
    long when the frequency [F] is positive and divides [k + 1], short
    otherwise. *)
Theorem session_schedule (cfg : Config) (k : nat) :
  TotalCycles cfg <= 0 \/ Z.of_nat k + 1 < TotalCycles cfg ->
  Z.of_nat k < GoInt.max_int ->
  let F := LongBreakEvery cfg in
  let s := Session.NextPhase_n (2 * k) (Session.NewSession cfg) in
  let s' := Session.NextPhase_n (2 * k + 1) (Session.NewSession cfg) in
  (currentPhase s = PhaseWork /\ cyclesComplete s = Z.of_nat k)
  /\ currentPhase s'
     = (if (0 <? F) && ((Z.of_nat k + 1) mod F =? 0) then PhaseLongBreak
        else PhaseShortBreak)
  /\ cyclesComplete s' = Z.of_nat k + 1.
Proof.
  intros HC Hk. cbn zeta.
  destruct (run_schedule_even cfg k ltac:(lia) ltac:(lia)) as (Hw & Hc & Hcfg).
  cbn zeta in *. split; [auto|].
  replace (2 * k + 1)%nat with (S (2 * k)) by lia. rewrite NextPhase_n_succ.
  set (s := Session.NextPhase_n (2 * k) (Session.NewSession cfg)) in *.
  destruct (NextPhase_work s Hw) as (Hc' & Hcur & _ & _ & Hrest). cbn zeta in *.
  assert (Hadd : GoInt.add (cyclesComplete s) 1 = Z.of_nat k + 1).
  { rewrite Hc. apply add_small.
    unfold GoInt.in_range, GoInt.min_int, GoInt.max_int in *. lia. }
  rewrite Hadd, Hcfg in *. split; [|exact Hc'].
  destruct (Hrest ltac:(lia)) as (Hlong & Hshort & _). rewrite Hcur.
  destruct (Z.ltb_spec 0 (LongBreakEvery cfg)) as [HF|HF]; cbn [andb].
  - destruct (Z.eqb_spec ((Z.of_nat k + 1) mod LongBreakEvery cfg) 0) as [E|E].
    + apply Hlong. split; [exact HF|]. apply Z.mod_divide; [lia|exact E].
    + apply Hshort. intros [_ Hdiv]. apply E. apply Z.mod_divide; [lia|exact Hdiv].
  - apply Hshort. intros [HF' _]. lia.
Qed.

Lemma session_schedule_witness :
  currentPhase (Session.NextPhase_n (2 * 3 + 1) (Session.NewSession cfg_unbounded))
  = PhaseLongBreak.
Proof.
  apply (proj1 (proj2 (session_schedule cfg_unbounded 3
                         ltac:(left; cbn; lia) ltac:(vm_compute; reflexivity)))).
Defined.

(** ** A stopped ticker *)

Lemma clock_step_stopped o m m' j t :
  clock_step o m = Some m' ->
  tickers m !! j = Some t -> stopped t = true ->
  (length (tickers m) <= length (tickers m'))%nat
  /\ exists t', tickers m' !! j = Some t'
       /\ stopped t' = true /\ nextTick t' = nextTick t /\ interval t' = interval t
       /\ drained_from (ch t) (ch t').
Proof.
  intros Hstep Hj Hs.
  assert (Hrefl : drained_from (ch t) (ch t)) by (exists []; reflexivity).
  destruct o as [d|i|i|fuel d|fuel d]; cbn [clock_step] in Hstep.
  - injection Hstep as <-. unfold MockClock.NewTicker. cbn [snd tickers].
    rewrite length_app. split; [lia|]. exists t.
    rewrite lookup_app_l by (eapply lookup_lt_Some; eassumption). auto.
  - injection Hstep as <-. unfold MockClock.Stop. cbn [tickers].
    rewrite length_alter. split; [lia|].
    destruct (decide (i = j)) as [->|Hne].
    + exists (MockClock.set_stopped true t). rewrite list_lookup_alter_eq, Hj. cbn. auto.
    + exists t. rewrite list_lookup_alter_ne by assumption. auto.
  - destruct (MockClock.Receive i m) as [[v m1]|] eqn:E; [|discriminate].
    injection Hstep as <-. unfold MockClock.Receive in E.
    destruct (tickers m !! i) as [ti|] eqn:Ei; [|discriminate].
    destruct (MockClock.recv (ch ti)) as [[v' c]|] eqn:Er; [|discriminate].
    injection E as <- <-. cbn [tickers]. rewrite length_insert. split; [lia|].
    unfold MockClock.recv in Er. destruct (ch ti) as [|v0 c0] eqn:Ec; [discriminate|].
    injection Er as <- <-.
    destruct (decide (i = j)) as [->|Hne].
    + rewrite Hj in Ei. injection Ei as <-.
      exists (MockClock.set_ch c0 t).
      rewrite list_lookup_insert_eq by (eapply lookup_lt_Some; eassumption).
      cbn. repeat split; try assumption. exists [v0]. now rewrite Ec.
    + exists t. rewrite list_lookup_insert_ne by assumption. auto.
  - unfold MockClock.Advance in Hstep.
    destruct (Advance_loop_tickers _ _ _ _ Hstep) as [Hlen Hall].
    destruct (Hall j t Hj) as (t' & Hj' & _ & _ & _ & Hzero & Hsame & _). cbn zeta in *.
    rewrite (Hsame (Hzero Hs)) in Hj'. split; [lia|]. exists t. auto.
  - unfold MockClock.Sleep, MockClock.Advance in Hstep.
    destruct (Advance_loop_tickers _ _ _ _ Hstep) as [Hlen Hall].
    destruct (Hall j t Hj) as (t' & Hj' & _ & _ & _ & Hzero & Hsame & _). cbn zeta in *.
    rewrite (Hsame (Hzero Hs)) in Hj'. split; [lia|]. exists t. auto.
Qed.

(** X17. [Stop] is final and nothing is ever removed from the clock:
    whatever is done to the clock afterwards, a stopped ticker stays in the
    slice at its position, stopped, with the same next instant and interval;
    it never ticks again, and its channel only loses what is received from
    it, so a tick pending at the time of the stop can still be received. *)
Theorem stopped_ticker_stays (ops : list ClockOp) (m m' : MockClock) (j : nat)
    (t : MockTicker) :
  clock_run ops m = Some m' ->
  tickers m !! j = Some t -> stopped t = true ->
  (length (tickers m) <= length (tickers m'))%nat
  /\ exists t', tickers m' !! j = Some t'
       /\ stopped t' = true /\ nextTick t' = nextTick t /\ interval t' = interval t
       /\ drained_from (ch t) (ch t').
Proof.
  revert m t. induction ops as [|o ops IH]; intros m t Hrun Hj Hs.
  - injection Hrun as <-. split; [lia|]. exists t. repeat split; try assumption.
    exists []. reflexivity.
  - cbn [clock_run] in Hrun. destruct (clock_step o m) as [m1|] eqn:E; [|discriminate].
    destruct (clock_step_stopped o m m1 j t E Hj Hs)
      as (Hlen1 & t1 & Hj1 & Hs1 & Hn1 & Hi1 & (taken1 & Hc1)).
    destruct (IH m1 t1 Hrun Hj1 Hs1) as (Hlen & t' & Hj' & Hs' & Hn' & Hi' & (taken & Hc')).
    split; [lia|]. exists t'. repeat split; try congruence.
    exists (taken1 ++ taken). rewrite Hc1, Hc'. now rewrite app_assoc.
Qed.

Lemma stopped_ticker_stays_witness :
  exists t', tickers (mkClock 120 [mkTicker 3 [3] 21 true; mkTicker 5 [] 125 false]) !! 0%nat
             = Some t'
             /\ nextTick t' = 21.
Proof.
  destruct (stopped_ticker_stays [DoAdvance 99 100; DoReceive 1]
              (mkClock 20 [mkTicker 3 [3] 21 true; mkTicker 5 [5] 25 false])
              (mkClock 120 [mkTicker 3 [3] 21 true; mkTicker 5 [] 125 false])
              0 (mkTicker 3 [3] 21 true) eq_refl eq_refl eq_refl)
    as (_ & t' & Hj & _ & Hn & _).
  exists t'. split; [exact Hj|exact Hn].
Defined.

(** ** The overall bar of the display *)

Lemma completions_app a b : completions (a ++ b) = completions a + completions b.
Proof. induction a as [|e a IH]; cbn [app completions]; lia. Qed.

Lemma completions_rev a : completions (rev a) = completions a.
Proof.
  induction a as [|e a IH]; [reflexivity|].
  cbn [rev completions]. rewrite completions_app, IH. cbn [completions]. lia.
Qed.

Lemma completions_none (evt : nat -> TimerEvent.t) : forall m j,
  (forall i, (i < m)%nat -> TimerEvent.PhaseComplete (evt (j + i)%nat) = false) ->
  completions (map evt (seq j m)) = 0.
Proof.
  induction m as [|m IH]; intros j H; [reflexivity|].
  cbn [seq map completions].
  pose proof (H O ltac:(lia)) as H0. rewrite Nat.add_0_r in H0. rewrite H0.
  rewrite IH; [reflexivity|]. intros i Hi.
  replace (S j + i)%nat with (j + S i)%nat by lia. apply H. lia.
Qed.

Lemma runPhase_completions env fuel ti s w t1 w1 :
  Timer.runPhase env fuel (mkTimer ti s) w = Returned ErrNil t1 w1 ->
  t1 = mkTimer ti s
  /\ completions (events_of (trace w1))
     = completions (events_of (trace w))
       + (if fst (Session.PhaseDuration s) =? 0 then 0 else 1).
Proof.
  rewrite runPhase_unfold. cbn zeta.
  destruct (fst (Session.PhaseDuration s) =? 0).
  - intros H. injection H as <- <-. split; [reflexivity|lia].
  - set (d := fst (Session.PhaseDuration s)).
    set (w0 := mkWorld (S (now_calls w)) (select_calls w) (ctx_cancelled w)
                 (ActNewTicker ti :: trace w)).
    destruct (runPhase_loop_readings env d (clock_now env (now_calls w)) ti s fuel w0
                (phase_event env s d (now_calls w)) ltac:(reflexivity))
      as (m & Hevs & _ & Hres).
    destruct (runPhase_loop_spec env d (clock_now env (now_calls w)) ti s fuel w0)
      as [Ht _].
    cbn zeta in Hevs, Hres, Ht.
    destruct (Timer.runPhase_loop env fuel d _ (mkTimer ti s) w0) as [e t' w'|t' w'|t' w'];
      try discriminate.
    intros H. injection H as -> <- <-. cbn [result_timer] in Ht. split; [exact Ht|].
    cbn [trace events_of result_world] in *. rewrite Hevs.
    change (events_of (trace w0)) with (events_of (trace w)).
    destruct Hres as (Hm & Hlast & Hearly).
    rewrite completions_app, completions_rev.
    replace m with ((m - 1) + 1)%nat at 1 by lia.
    rewrite seq_app, map_app, completions_app. cbn [seq map completions Nat.add].
    rewrite Hlast, completions_none by (intros i Hi; apply Hearly; lia). lia.
Qed.

Lemma Run_loop_completions env cfg tick : forall fuel j w t' w',
  Timer.Run_loop env fuel (mkTimer tick (Session.NextPhase_n j (Session.NewSession cfg))) w
  = Returned ErrNil t' w' ->
  exists n : nat,
    currentPhase (Session.NextPhase_n (j + n) (Session.NewSession cfg)) = PhaseDone
    /\ (forall i, (i < n)%nat ->
          currentPhase (Session.NextPhase_n (j + i) (Session.NewSession cfg)) <> PhaseDone)
    /\ completions (events_of (trace w'))
       = completions (events_of (trace w)) + ran_phases cfg j n.
Proof.
  induction fuel as [|fuel IH]; intros j w t' w' Hrun; [discriminate|].
  rewrite Run_loop_unfold in Hrun.
  set (s := Session.NextPhase_n j (Session.NewSession cfg)) in *.
  destruct (Phase_eqb (currentPhase s) PhaseDone) eqn:E.
  - injection Hrun as <- <-. exists O. rewrite Nat.add_0_r.
    split; [now apply Phase_eqb_eq|]. split; [intros i Hi; lia|]. cbn [ran_phases]. lia.
  - destruct (Timer.runPhase env fuel (mkTimer tick s) w) as [e t1 w1|t1 w1|t1 w1] eqn:Er;
      try discriminate.
    destruct e; [|discriminate].
    destruct (runPhase_completions env fuel tick s w t1 w1 Er) as [-> Hc1].
    cbn [tickInterval session] in Hrun. unfold s in Hrun.
    rewrite <- NextPhase_n_succ in Hrun.
    destruct (IH (S j) w1 t' w' Hrun) as (n & Hdone & Hnd & Hc).
    exists (S n). replace (j + S n)%nat with (S j + n)%nat by lia.
    split; [exact Hdone|]. split.
    + intros i Hi. destruct i as [|i].
      * rewrite Nat.add_0_r. fold s. intros Hd.
        apply Phase_eqb_eq in Hd. congruence.
      * replace (j + S i)%nat with (S j + i)%nat by lia. apply Hnd. lia.
    + cbn [ran_phases]. fold s. lia.
Qed.

Lemma ran_phases_bounds cfg : forall n j, 0 <= ran_phases cfg j n <= Z.of_nat n.
Proof.
  induction n as [|n IH]; intros j; cbn [ran_phases]; [lia|].
  specialize (IH (S j)). destruct (_ =? 0); lia.
Qed.

Lemma ran_phases_skipped cfg : forall n j i,
  (i < n)%nat ->
  fst (Session.PhaseDuration (Session.NextPhase_n (j + i) (Session.NewSession cfg))) = 0 ->
  ran_phases cfg j n < Z.of_nat n.
Proof.
  induction n as [|n IH]; intros j i Hi Hd; [lia|].
  cbn [ran_phases]. pose proof (ran_phases_bounds cfg n (S j)) as Hb.
  destruct i as [|i].
  - rewrite Nat.add_0_r in Hd. rewrite Hd. cbn [Z.eqb]. lia.
  - specialize (IH (S j) i ltac:(lia)).
    replace (S j + i)%nat with (j + S i)%nat in IH by lia. specialize (IH Hd).
    destruct (_ =? 0); lia.
Qed.

Lemma ran_phases_all cfg : positive_durations cfg -> forall n j,
  (forall i, (i < n)%nat ->
     currentPhase (Session.NextPhase_n (j + i) (Session.NewSession cfg)) <> PhaseDone) ->
  ran_phases cfg j n = Z.of_nat n.
Proof.
  intros (Hw & Hs & Hl). induction n as [|n IH]; intros j Hnd; [reflexivity|].
  cbn [ran_phases]. rewrite IH.
  2:{ intros i Hi. replace (S j + i)%nat with (j + S i)%nat by lia. apply Hnd. lia. }
  pose proof (Hnd O ltac:(lia)) as H0. rewrite Nat.add_0_r in H0.
  set (s := Session.NextPhase_n j (Session.NewSession cfg)) in *.
  assert (Hc : config s = cfg)
    by (unfold s; now rewrite (proj1 (NextPhase_n_frame _ _)), (proj1 (NewSession_fields cfg))).
  assert (Hd : 0 < fst (Session.PhaseDuration s)).
  { unfold Session.PhaseDuration, Session.bind, Session.gets, Session.ret.
    destruct (currentPhase s); cbn; rewrite ?Hc; (assumption || contradiction). }
  destruct (Z.eqb_spec (fst (Session.PhaseDuration s)) 0); lia.
Qed.

Lemma Update_grows e p :
  Progress.showOverall (Progress.Update e p) = Progress.showOverall p
  /\ Progress.overallBar (Progress.Update e p) = Progress.overallBar p
  /\ (exists new, Progress.container (Progress.Update e p) = new ++ Progress.container p)
  /\ forall b,
       increments b (Progress.container (Progress.Update e p))
       = increments b (Progress.container p)
         + (if TimerEvent.PhaseComplete e && Progress.showOverall p
               && match Progress.overallBar p with
                  | Some b' => Nat.eqb b' b
                  | None => false
                  end
            then 1 else 0).
Proof.
  unfold Progress.Update.
  destruct p as [cs n pb ob so tp pt lp]. cbn [Progress.phaseBar Progress.lastPhase].
  destruct pb as [b0|], (Progress.same_phase (TimerEvent.Phase e) lp),
    (TimerEvent.PhaseComplete e), so, ob as [b1|];
    cbn; (split; [reflexivity|]); (split; [reflexivity|]);
    (split; [eexists; repeat (rewrite app_comm_cons || idtac);
             match goal with |- ?l = ?new ++ ?cs =>
               first [instantiate (1 := []); reflexivity
                     |instantiate (1 := [_]); reflexivity
                     |instantiate (1 := [_; _]); reflexivity
                     |instantiate (1 := [_; _; _]); reflexivity
                     |instantiate (1 := [_; _; _; _]); reflexivity
                     |instantiate (1 := [_; _; _; _; _]); reflexivity]
             end|]);
    intros b; try destruct (Nat.eqb b1 b); lia.
Qed.

Lemma display_grows evs : forall p,
  let p' := fold_left (fun p e => Progress.Update e p) evs p in
  Progress.overallBar p' = Progress.overallBar p
  /\ (exists new, Progress.container p' = new ++ Progress.container p)
  /\ forall b,
       increments b (Progress.container p')
       = increments b (Progress.container p)
         + (if Progress.showOverall p
               && match Progress.overallBar p with
                  | Some b' => Nat.eqb b' b
                  | None => false
                  end
            then completions evs else 0).
Proof.
  induction evs as [|e evs IH]; intros p; cbn zeta.
  - cbn [fold_left completions]. split; [reflexivity|]. split; [exists []; reflexivity|].
    intros b. destruct (_ && _); lia.
  - cbn [fold_left completions].
    destruct (Update_grows e p) as (Hso & Hob & (new1 & Hc1) & Hinc1).
    destruct (IH (Progress.Update e p)) as (Hob' & (new & Hc') & Hinc'). cbn zeta in *.
    split; [congruence|]. split.
    + exists (new ++ new1). now rewrite Hc', Hc1, app_assoc.
    + intros b. rewrite Hinc', Hinc1, Hso, Hob.
      destruct (TimerEvent.PhaseComplete e), (Progress.showOverall p),
        (match Progress.overallBar p with Some b' => Nat.eqb b' b | None => false end);
        cbn [andb]; lia.
Qed.

Lemma runStart_display_spec t evs :
  let total := totalPhases (session t) in
  let p := runStart_display t evs in
  increments 0 (Progress.container p) = (if 0 <? total then completions evs else 0)
  /\ (exists cs, Progress.container p = Progress.ContainerWait :: cs)
  /\ (0 < total ->
      Progress.overallBar p = Some 0%nat
      /\ last (Progress.container p) = Some (Progress.New total)).
Proof.
  cbn zeta. unfold runStart_display.
  change (fst (Session.TotalPhases (session t))) with (totalPhases (session t)).
  set (total := totalPhases (session t)).
  destruct (display_grows evs (Progress.NewProgress total)) as (Hob & (new & Hc) & Hinc).
  cbn zeta in *.
  set (p := fold_left (fun p e => Progress.Update e p) evs (Progress.NewProgress total)) in *.
  assert (Hwait : exists w, Progress.container (Progress.Wait p) = w ++ Progress.container p
                            /\ increments 0 w = 0
                            /\ (exists cs, w = Progress.ContainerWait :: cs)
                            /\ Progress.overallBar (Progress.Wait p) = Progress.overallBar p).
  { unfold Progress.Wait. destruct (Progress.phaseBar p) as [b|].
    - exists [Progress.ContainerWait; Progress.OnBar b Progress.EnableTriggerComplete;
              Progress.OnBar b (Progress.SetCurrent (Progress.phaseTotal p))].
      repeat split. eauto.
    - exists [Progress.ContainerWait]. repeat split. eauto. }
  destruct Hwait as (w & Hw & Hw0 & (cs & Hwc) & Hwo).
  assert (Happ : forall a b, increments 0 (a ++ b) = increments 0 a + increments 0 b).
  { clear. induction a as [|c a IH]; intros b; cbn [app increments]; [lia|].
    destruct c as [| b' []|]; try apply IH.
    rewrite IH. destruct (Nat.eqb b' 0); lia. }
  split; [|split].
  - rewrite Hw, Happ, Hw0, (Hinc 0%nat). unfold Progress.NewProgress. cbn [Progress.showOverall].
    destruct (0 <? total); reflexivity.
  - exists (cs ++ Progress.container p). rewrite Hw, Hwc. reflexivity.
  - intros Htot. rewrite Hwo, Hob, Hw, Hc. unfold Progress.NewProgress.
    cbn [Progress.showOverall].
    replace (0 <? total) with true by (symmetry; apply Z.ltb_lt; lia).
    cbn [Progress.new_bar Progress.set_overallBar Progress.overallBar Progress.container
         Progress.bars].
    split; [reflexivity|]. rewrite !app_assoc. apply last_snoc.
Qed.

(** X18. The overall bar of the display of [pomo start].  For a session of
    [C > 0] cycles that [Run] has completed, the display that received its
    events and then [Wait] has made the overall bar first, with a total of
    [2 C - 1] phases, and has incremented it once for each phase that was not
    skipped; so the bar reaches its total when every duration is positive,
    and stays below it when one of the phases of the session has a duration
    of zero. *)
Theorem overall_bar_counts (env : Env) (cfg : Config) (cancelled : bool) (fuel : nat)
    (t : Timer) (w : World) :
  0 < TotalCycles cfg -> 2 * TotalCycles cfg - 1 <= GoInt.max_int ->
  Timer.Run env fuel (Timer.NewTimer cfg) (Timer.start_world cancelled)
  = Returned ErrNil t w ->
  let n := Z.to_nat (2 * TotalCycles cfg - 1) in
  let p := runStart_display (Timer.NewTimer cfg) (rev (events_of (trace w))) in
  Progress.overallBar p = Some 0%nat
  /\ last (Progress.container p) = Some (Progress.New (2 * TotalCycles cfg - 1))
  /\ (exists cs, Progress.container p = Progress.ContainerWait :: cs)
  /\ increments 0 (Progress.container p) = ran_phases cfg 0 n
  /\ 0 <= ran_phases cfg 0 n <= 2 * TotalCycles cfg - 1
  /\ (positive_durations cfg -> increments 0 (Progress.container p) = 2 * TotalCycles cfg - 1)
  /\ (forall i, (i < n)%nat ->
        fst (Session.PhaseDuration (Session.NextPhase_n i (Session.NewSession cfg))) = 0 ->
        increments 0 (Progress.container p) < 2 * TotalCycles cfg - 1).
Proof.
  intros HC Hsmall Hrun. cbn zeta.
  assert (HC' : 0 < TotalCycles cfg <= GoInt.max_int)
    by (unfold GoInt.max_int in *; lia).
  set (n := Z.to_nat (2 * TotalCycles cfg - 1)).
  assert (Htot : totalPhases (session (Timer.NewTimer cfg)) = 2 * TotalCycles cfg - 1).
  { unfold Timer.NewTimer, Timer.NewTimerWithClock. cbn [session].
    rewrite NewSession_eq. cbn [totalPhases].
    rewrite spec_totalPhases_closed by lia. apply wrap_in_range.
    unfold GoInt.in_range, GoInt.min_int, GoInt.max_int in *. lia. }
  destruct (runStart_display_spec (Timer.NewTimer cfg) (rev (events_of (trace w))))
    as (Hinc & Hwait & Hbar).
  cbn zeta in Hinc, Hbar. rewrite Htot in Hinc, Hbar.
  destruct (Hbar ltac:(lia)) as [Hob Hlast].
  replace (0 <? 2 * TotalCycles cfg - 1) with true in Hinc
    by (symmetry; apply Z.ltb_lt; lia).
  rewrite completions_rev in Hinc.
  rewrite Run_unfold in Hrun. unfold Timer.NewTimer, Timer.NewTimerWithClock in Hrun.
  destruct (Timer.Run_loop env fuel _ _) as [e t' w'| |] eqn:E; try discriminate.
  injection Hrun as -> <- <-. cbn [trace events_of] in Hinc, Hob, Hlast, Hwait |- *.
  change (Session.NewSession cfg) with (Session.NextPhase_n 0 (Session.NewSession cfg)) in E.
  destruct (Run_loop_completions env cfg _ fuel O _ _ _ E) as (m & Hdone & Hnd & Hc).
  cbn [Nat.add Timer.start_world trace events_of completions] in Hdone, Hnd, Hc.
  assert (Hm : m = n).
  { destruct (Nat.lt_trichotomy m n) as [Hlt|[Heq|Hgt]]; [exfalso|exact Heq|exfalso].
    - exact (bounded_run_not_done cfg HC' m Hlt Hdone).
    - apply (Hnd n Hgt). exact (proj1 (bounded_run_done cfg HC')). }
  subst m. rewrite Hc in Hinc. cbn [Z.add] in Hinc.
  pose proof (ran_phases_bounds cfg n 0) as Hb.
  split; [exact Hob|]. split; [exact Hlast|]. split; [exact Hwait|].
  split; [exact Hinc|]. split; [lia|]. split.
  - intros Hpos. rewrite Hinc, (ran_phases_all cfg Hpos n 0).
    + lia.
    + intros i Hi. apply bounded_run_not_done; [exact HC'|exact Hi].
  - intros i Hi Hd. rewrite Hinc.
    pose proof (ran_phases_skipped cfg n 0 i Hi Hd). lia.
Qed.

Lemma overall_bar_counts_witness :
  exists t w,
    Timer.Run env_minutes 9 (Timer.NewTimer cfg_no_short_break) (Timer.start_world false)
    = Returned ErrNil t w
    /\ increments 0
         (Progress.container
            (runStart_display (Timer.NewTimer cfg_no_short_break)
               (rev (events_of (trace w)))))
       = ran_phases cfg_no_short_break 0 5.
Proof.
  pose proof (overall_bar_counts env_minutes cfg_no_short_break false 9) as H.
  destruct (Timer.Run env_minutes 9 (Timer.NewTimer cfg_no_short_break)
              (Timer.start_world false)) as [[|] t w|t w|t w] eqn:E;
    try (vm_compute in E; discriminate).
  exists t, w. split; [reflexivity|].
  destruct (H t w ltac:(cbn; lia) ltac:(vm_compute; discriminate) eq_refl)
    as (_ & _ & _ & Hinc & _).
  exact Hinc.
Defined.

(** With no short break the overall bar stops at three of five. *)
Example overall_bar_no_short_break :
  ran_phases cfg_no_short_break 0 5 = 3
  /\ totalPhases (session (Timer.NewTimer cfg_no_short_break)) = 5.
Proof. split; reflexivity. Qed.

(** ** Phases of no duration *)

(** Wherever the loop of [Run] stops, the session is the one it started
    with after some calls of [NextPhase]. *)
Lemma Run_loop_session env : forall fuel ti s w,
  exists k : nat,
    session (result_timer (Timer.Run_loop env fuel (mkTimer ti s) w))
    = Session.NextPhase_n k s.
Proof.
  induction fuel as [|fuel IH]; intros ti s w.
  - exists O. reflexivity.
  - rewrite Run_loop_unfold.
    destruct (Phase_eqb (currentPhase s) PhaseDone); [exists O; reflexivity|].
    destruct (runPhase_events env fuel ti s w) as [Ht _]. cbn zeta in Ht.
    destruct (Timer.runPhase env fuel (mkTimer ti s) w) as [e t' w'|t' w'|t' w'];
      cbn [result_timer] in Ht; subst t'; try (exists O; reflexivity).
    destruct e; [|exists O; reflexivity].
    cbn [tickInterval session].
    destruct (IH ti (snd (Session.NextPhase s)) w') as [k Hk].
    exists (S k). exact Hk.
Qed.

(** C5. In a phase of duration zero [runPhase] returns at once, leaving the
    timer and the world as they were: no event, no tick, no look at the
    context.  The loop of [Run] then calls [NextPhase]: after one turn on such
    a phase the session is the one [NextPhase] leaves and the world is
    unchanged, and wherever the loop stops later the session has gone past
    the phase; [NextPhase] counts the phase as completed, and the cycle too
    when the phase was Work.  In a run, every event carries the non-zero
    duration of the phase it was emitted in.  A run that nothing holds up (a
    ready consumer, no cancellation, a clock that advances, a positive tick
    interval) returns with all the [2 C - 1] phases of its [C > 0] cycles
    counted as completed, those of no duration too, although only the phases
    that were not skipped have emitted an event flagged complete. *)
Theorem C5_zero_duration_phase :
  (forall (env : Env) (fuel : nat) (ti : Z) (s : Session) (w : World),
      currentPhase s <> PhaseDone ->
      fst (Session.PhaseDuration s) = 0 ->
      let s' := snd (Session.NextPhase s) in
      Timer.runPhase env fuel (mkTimer ti s) w = Returned ErrNil (mkTimer ti s) w
      /\ Timer.Run_loop env (S fuel) (mkTimer ti s) w
         = Timer.Run_loop env fuel (mkTimer ti s') w
      /\ Timer.Run_loop env 1 (mkTimer ti s) w = OutOfFuel (mkTimer ti s') w
      /\ (exists k : nat,
            session (result_timer (Timer.Run_loop env (S fuel) (mkTimer ti s) w))
            = Session.NextPhase_n (S k) s)
      /\ s' <> s
      /\ phasesComplete s' = GoInt.add (phasesComplete s) 1
      /\ (currentPhase s = PhaseWork ->
          cyclesComplete s' = GoInt.add (cyclesComplete s) 1))
  /\ (forall (env : Env) (cfg : Config) (tick : Z) (cancelled : bool) (fuel : nat)
        (ev : TimerEvent.t),
        let r := Timer.Run env fuel (Timer.NewTimerWithClock cfg tick)
                   (Timer.start_world cancelled) in
        In (ActSend ev) (trace (result_world r)) ->
        TimerEvent.Total ev <> 0
        /\ exists k, let s := Session.NextPhase_n k (Session.NewSession cfg) in
                     TimerEvent.Phase ev = currentPhase s
                     /\ TimerEvent.Total ev = fst (Session.PhaseDuration s))
  /\ (forall (env : Env) (cfg : Config) (tick : Z),
        ready_consumer env -> ticking_clock env -> 0 < tick ->
        durations_in_range cfg ->
        0 < TotalCycles cfg <= GoInt.max_int ->
        let n := Z.to_nat (2 * TotalCycles cfg - 1) in
        let s := Session.NextPhase_n n (Session.NewSession cfg) in
        exists (K : nat) (w : World),
          (forall fuel, (K <= fuel)%nat ->
             Timer.Run env fuel (Timer.NewTimerWithClock cfg tick) (Timer.start_world false)
             = Returned ErrNil (mkTimer tick s) w)
          /\ currentPhase s = PhaseDone
          /\ cyclesComplete s = TotalCycles cfg
          /\ phasesComplete s = GoInt.wrap (Z.of_nat n)
          /\ phasesComplete s = totalPhases s
          /\ completions (events_of (trace w)) = ran_phases cfg 0 n
          /\ Forall (fun ev => TimerEvent.Total ev <> 0) (events_of (trace w))).
Proof.
  split; [|split].
  - intros env fuel ti s w Hp Hd. cbn zeta.
    assert (Hrun : forall f, Timer.runPhase env f (mkTimer ti s) w
                             = Returned ErrNil (mkTimer ti s) w).
    { intros f. rewrite runPhase_unfold. cbn zeta. now rewrite Hd. }
    assert (Hstep : forall f, Timer.Run_loop env (S f) (mkTimer ti s) w
                              = Timer.Run_loop env f (mkTimer ti (snd (Session.NextPhase s))) w).
    { intros f. rewrite Run_loop_unfold, Hrun.
      destruct (Phase_eqb (currentPhase s) PhaseDone) eqn:E; [|reflexivity].
      apply Phase_eqb_eq in E. contradiction. }
    pose proof (NextPhase_phasesComplete s Hp) as Hn.
    split; [apply Hrun|]. split; [apply Hstep|]. split; [now rewrite Hstep|].
    split; [|split; [|split]].
    + rewrite Hstep.
      destruct (Run_loop_session env fuel ti (snd (Session.NextPhase s)) w) as [k Hk].
      exists k. exact Hk.
    + intros E. rewrite E in Hn. unfold GoInt.add in Hn.
      destruct (wrap_decomp (phasesComplete s + 1)) as [k Hk].
      rewrite Hk in Hn. unfold GoInt.modulus in Hn. lia.
    + exact Hn.
    + intros Hw. apply (NextPhase_work s Hw).
  - intros env cfg tick cancelled fuel ev r Hin.
    destruct (Run_trace env cfg tick cancelled fuel) as [Hev _].
    apply events_of_In in Hin.
    destruct (proj1 (List.Forall_forall _ _) Hev ev Hin) as (k & i & j & _ & Hd & ->).
    destruct (event_at_fields (Session.NextPhase_n k (Session.NewSession cfg))
                (fst (Session.PhaseDuration (Session.NextPhase_n k (Session.NewSession cfg))))
                (clock_now env i) (clock_now env j)) as (Hph & _ & _ & Htot & _).
    cbn zeta in *. rewrite Htot. split; [exact Hd|]. exists k. auto.
  - intros env cfg tick Hr Ht Htick Hd HC. cbn zeta.
    destruct (bounded_run_done cfg HC) as (Hdone & Hcyc & Hph & _). cbn zeta in *.
    pose proof (bounded_run_not_done cfg HC) as Hnd.
    set (n := Z.to_nat (2 * TotalCycles cfg - 1)) in *.
    destruct (Run_loop_returns env cfg tick n Hr Ht Hd Hdone n O (Timer.start_world false)
                ltac:(lia) eq_refl) as (K & w' & Hc' & Hrun).
    exists K.
    exists (mkWorld (now_calls w') (select_calls w') (ctx_cancelled w') (ActClose :: trace w')).
    assert (Hret : forall fuel, (K <= fuel)%nat ->
              Timer.Run env fuel (Timer.NewTimerWithClock cfg tick) (Timer.start_world false)
              = Returned ErrNil (mkTimer tick (Session.NextPhase_n n (Session.NewSession cfg)))
                  (mkWorld (now_calls w') (select_calls w') (ctx_cancelled w')
                     (ActClose :: trace w'))).
    { intros fuel Hf. rewrite Run_unfold. unfold Timer.NewTimerWithClock.
      change (Session.NewSession cfg)
        with (Session.NextPhase_n 0 (Session.NewSession cfg)) at 1.
      now rewrite (Hrun fuel Hf). }
    split; [exact Hret|]. split; [exact Hdone|]. split; [exact Hcyc|].
    split; [exact (phasesComplete_run cfg n Hnd)|]. split; [exact Hph|].
    cbn [trace events_of]. split.
    + destruct (Run_loop_completions env cfg tick K O (Timer.start_world false) _ _
                  (Hrun K (Nat.le_refl K))) as (m & Hdm & Hndm & Hc).
      cbn [Nat.add Timer.start_world trace events_of completions] in Hdm, Hndm, Hc.
      assert (Hm : m = n).
      { destruct (Nat.lt_trichotomy m n) as [Hlt|[Heq|Hgt]]; [exfalso|exact Heq|exfalso].
        - exact (Hnd m Hlt Hdm).
        - exact (Hndm n Hgt Hdone). }
      subst m. rewrite Hc. lia.
    + destruct (Run_trace env cfg tick false K) as [Hev _]. cbn zeta in Hev.
      rewrite (Hret K (Nat.le_refl K)) in Hev. cbn [result_world trace] in Hev.
      unfold events_from in Hev. cbn [events_of] in Hev.
      eapply Forall_impl; [exact Hev|]. cbn beta.
      intros ev (k & i & j & _ & Hne & ->).
      destruct (event_at_fields (Session.NextPhase_n k (Session.NewSession cfg))
                  (fst (Session.PhaseDuration (Session.NextPhase_n k (Session.NewSession cfg))))
                  (clock_now env i) (clock_now env j)) as (_ & _ & _ & Htot & _).
      cbn zeta in *. now rewrite Htot.
Qed.

Lemma C5_zero_duration_phase_witness :
  let s := snd (Session.NextPhase (Session.NewSession cfg_no_short_break)) in
  (currentPhase s = PhaseShortBreak
   /\ Timer.Run_loop env_minutes 1 (mkTimer DefaultTickInterval s) (Timer.start_world false)
      = OutOfFuel (mkTimer DefaultTickInterval (snd (Session.NextPhase s)))
          (Timer.start_world false)
   /\ phasesComplete (snd (Session.NextPhase s)) = 2)
  /\ exists (K : nat) (w : World),
       (forall fuel, (K <= fuel)%nat ->
          Timer.Run env_nanoseconds fuel
            (Timer.NewTimerWithClock cfg_no_short_break DefaultTickInterval)
            (Timer.start_world false)
          = Returned ErrNil
              (mkTimer DefaultTickInterval
                 (Session.NextPhase_n 5 (Session.NewSession cfg_no_short_break))) w)
       /\ phasesComplete (Session.NextPhase_n 5 (Session.NewSession cfg_no_short_break)) = 5
       /\ completions (events_of (trace w)) = 3.
Proof.
  cbn zeta. split.
  - split; [reflexivity|].
    destruct (proj1 C5_zero_duration_phase env_minutes 5%nat DefaultTickInterval
                (snd (Session.NextPhase (Session.NewSession cfg_no_short_break)))
                (Timer.start_world false))
      as (_ & _ & Hone & _ & _ & Hn & _).
    + vm_compute. discriminate.
    + vm_compute. reflexivity.
    + split; [exact Hone|]. rewrite Hn. vm_compute. reflexivity.
  - destruct (proj2 (proj2 C5_zero_duration_phase) env_nanoseconds cfg_no_short_break
                DefaultTickInterval env_nanoseconds_ready env_nanoseconds_ticking)
      as (K & w & Hrun & _ & _ & _ & _ & Hc & _).
    + reflexivity.
    + vm_compute. repeat split; discriminate.
    + vm_compute. split; [reflexivity|discriminate].
    + exists K, w. split; [exact Hrun|]. split; [reflexivity|exact Hc].
Defined.
